(** * ADGM corporate agent: a shallow embedding of the analysis core

    The development follows the Python sources of the repository:
    - [src/models.py]                   enumerations and the issue record;
    - [src/core/processing_engine.py]   deduplication and scoring;
    - [src/core/compliance_checker.py]  the rule engine;
    - [src/core/checklist_verifier.py]  the completeness report;
    - [src/core/document_parser.py]     text extraction and the type classifier;
    - [src/core/document_annotator.py]  comment insertion and the summary;
    - [src/utils/report_generator.py]   the figures of the report.

    Conventions.  A Python [str] is a [string] of 7-bit characters.  A
    Python [float] is read as the exact rational [Q] of the quantity that
    the code computes.  The code itself computes with binary doubles: where
    [round] meets a quantity midway between two multiples of 1/10, the
    double that it rounds may lie on either side of the middle, and the code
    may return the other neighbour than the exact rounding does.  The
    theorems on scores state what holds for either neighbour: that a score
    is a multiple of 1/10, its bounds, its distance from the exact quantity,
    its order.  Exceptions are values of the error monad [Result].  The
    calls into the [re] module are interpreted by a backtracking matcher for
    the fragment of the pattern language that the sources use. *)

From Stdlib Require Import ZArith QArith Qround Qabs Qminmax String Ascii List Lia Lqa.
From Stdlib Require Import DecimalString.
From stdpp Require Import base gmap sets list strings sorting.
Close Scope Q_scope.
Open Scope string_scope.
Open Scope list_scope.

(* ===================================================================== *)
(** * Part I.  Definitions                                                *)
(* ===================================================================== *)

(** ** Python strings *)

Module PyStr.

Definition chars (s : string) : list ascii := list_ascii_of_string s.
Definition str (l : list ascii) : string := string_of_list_ascii l.

Definition code (c : ascii) : nat := nat_of_ascii c.
Definition between (lo hi : nat) (c : ascii) : bool :=
  (lo <=? code c)%nat && (code c <=? hi)%nat.

Definition is_upper (c : ascii) : bool := between 65 90 c.
Definition is_lower (c : ascii) : bool := between 97 122 c.
Definition is_digit (c : ascii) : bool := between 48 57 c.
(** [str.isspace] on the 7-bit range: TAB..CR, FS..US and the blank. *)
Definition is_space (c : ascii) : bool := between 9 13 c || between 28 32 c.
(** [\w] on the 7-bit range. *)
Definition is_word (c : ascii) : bool :=
  is_upper c || is_lower c || is_digit c || (code c =? 95)%nat.

Definition lower_char (c : ascii) : ascii :=
  if is_upper c then ascii_of_nat (code c + 32) else c.
Definition upper_char (c : ascii) : ascii :=
  if is_lower c then ascii_of_nat (code c - 32) else c.

Definition lower_chars (l : list ascii) : list ascii := map lower_char l.

(** [s.lower()] and [s.upper()] *)
Definition lower (s : string) : string := str (lower_chars (chars s)).
Definition upper (s : string) : string := str (map upper_char (chars s)).

Fixpoint starts_with (p l : list ascii) : bool :=
  match p, l with
  | [], _ => true
  | _ :: _, [] => false
  | a :: p', b :: l' => if Ascii.eqb a b then starts_with p' l' else false
  end.

(** [hay.find(needle)] as an option: the least index at which [needle]
    occurs. *)
Fixpoint find_chars (needle hay : list ascii) : option nat :=
  if starts_with needle hay then Some 0%nat
  else match hay with
       | [] => None
       | _ :: hay' => S <$> find_chars needle hay'
       end.

Definition find (hay needle : string) : option nat :=
  find_chars (chars needle) (chars hay).

(** [needle in hay] *)
Definition contains (needle hay : string) : bool :=
  match find hay needle with Some _ => true | None => false end.

(** [s.split()]: the maximal runs of non-blank characters. *)
Fixpoint split_chars (cur : list ascii) (l : list ascii) : list (list ascii) :=
  match l with
  | [] => match cur with [] => [] | _ => [rev cur] end
  | c :: l' =>
      if is_space c
      then match cur with
           | [] => split_chars [] l'
           | _ => rev cur :: split_chars [] l'
           end
      else split_chars (c :: cur) l'
  end.

Definition split (s : string) : list string := map str (split_chars [] (chars s)).

Fixpoint lstrip_chars (l : list ascii) : list ascii :=
  match l with
  | c :: l' => if is_space c then lstrip_chars l' else l
  | [] => []
  end.

(** The words of a phrase at the head of a text: each word as written, one
    or more blanks between a word and the next, anything after the last. *)
Fixpoint words_at (words : list (list ascii)) (s : list ascii) : bool :=
  match words with
  | [] => true
  | w :: ws =>
      starts_with w s &&
      match ws with
      | [] => true
      | _ :: _ =>
          match drop (length w) s with
          | c :: rest => is_space c && words_at ws (lstrip_chars rest)
          | [] => false
          end
      end
  end.

(** The words of a phrase somewhere in a text. *)
Fixpoint occurs_in (words : list (list ascii)) (s : list ascii) : bool :=
  words_at words s ||
  match s with
  | [] => false
  | _ :: s' => occurs_in words s'
  end.

(** [s.strip()] *)
Definition strip (s : string) : string :=
  str (rev (lstrip_chars (rev (lstrip_chars (chars s))))).

(** [s[i:j]] for [0 <= i], [0 <= j]. *)
Definition slice (s : string) (i j : nat) : string :=
  str (take (j - i) (drop i (chars s))).
(** [s[i:]] *)
Definition slice_from (s : string) (i : nat) : string := str (drop i (chars s)).

(** [len(s.split())] *)
Definition word_count (s : string) : nat := length (split s).

(** [str(n)] for a natural number. *)
Definition of_nat (n : nat) : string := NilEmpty.string_of_uint (Nat.to_uint n).

(** [c * n] for a one-character string. *)
Definition repeat_char (c : ascii) (n : nat) : string := str (replicate n c).

(** [sep.join(parts)] *)
Fixpoint join (sep : string) (parts : list string) : string :=
  match parts with
  | [] => ""
  | [p] => p
  | p :: rest => p +:+ sep +:+ join sep rest
  end.

End PyStr.

(** ** [src/models.py] *)

Inductive DocumentType :=
| ARTICLES_OF_ASSOCIATION
| MEMORANDUM_OF_ASSOCIATION
| INCORPORATION_APPLICATION
| UBO_DECLARATION
| BOARD_RESOLUTION
| REGISTER_MEMBERS_DIRECTORS
| SHAREHOLDER_RESOLUTION
| CHANGE_ADDRESS_NOTICE
| EMPLOYMENT_CONTRACT
| COMMERCIAL_AGREEMENT
| COMPLIANCE_POLICY
| OTHER.

Inductive ProcessType :=
| COMPANY_INCORPORATION
| LICENSE_APPLICATION
| EMPLOYMENT_SETUP
| PROCESS_COMMERCIAL_AGREEMENT
| COMPLIANCE_FILING
| PROCESS_OTHER.

Inductive SeverityLevel := LOW | MEDIUM | HIGH | CRITICAL.

#[global] Instance DocumentType_eq_dec : EqDecision DocumentType.
Proof. solve_decision. Defined.
#[global] Instance ProcessType_eq_dec : EqDecision ProcessType.
Proof. solve_decision. Defined.
#[global] Instance SeverityLevel_eq_dec : EqDecision SeverityLevel.
Proof. solve_decision. Defined.

(** The [.value] of each enumeration member. *)
Definition doc_type_value (t : DocumentType) : string :=
  match t with
  | ARTICLES_OF_ASSOCIATION => "Articles of Association"
  | MEMORANDUM_OF_ASSOCIATION => "Memorandum of Association"
  | INCORPORATION_APPLICATION => "Incorporation Application Form"
  | UBO_DECLARATION => "UBO Declaration Form"
  | BOARD_RESOLUTION => "Board Resolution Templates"
  | REGISTER_MEMBERS_DIRECTORS => "Register of Members and Directors"
  | SHAREHOLDER_RESOLUTION => "Shareholder Resolution Templates"
  | CHANGE_ADDRESS_NOTICE => "Change of Registered Address Notice"
  | EMPLOYMENT_CONTRACT => "Employment Contract"
  | COMMERCIAL_AGREEMENT => "Commercial Agreement"
  | COMPLIANCE_POLICY => "Compliance Policy"
  | OTHER => "Other"
  end.

Definition process_type_value (p : ProcessType) : string :=
  match p with
  | COMPANY_INCORPORATION => "Company Incorporation"
  | LICENSE_APPLICATION => "License Application"
  | EMPLOYMENT_SETUP => "Employment Setup"
  | PROCESS_COMMERCIAL_AGREEMENT => "Commercial Agreement"
  | COMPLIANCE_FILING => "Compliance Filing"
  | PROCESS_OTHER => "Other"
  end.

Definition severity_value (s : SeverityLevel) : string :=
  match s with
  | LOW => "Low"
  | MEDIUM => "Medium"
  | HIGH => "High"
  | CRITICAL => "Critical"
  end.

(** [class DocumentIssue(BaseModel)] *)
Record DocumentIssue := mkIssue {
  document : string;
  section : option string;
  issue : string;
  severity : SeverityLevel;
  suggestion : option string;
  adgm_reference : option string;
  line_number : option Z
}.

(** [class CommentInsertion(BaseModel)] *)
Record CommentInsertion := mkInsertion {
  paragraph_index : nat;
  comment_text : string;
  highlight_text : option string;
  comment_type : string
}.

(** ** Exceptions *)

Inductive PyExn :=
| KeyError (key : string)
| TypeError (msg : string)
| IndexError
| AttributeError (name : string).

Inductive Result (A : Type) := Ok (a : A) | Raise (e : PyExn).
Arguments Ok {A} a.
Arguments Raise {A} e.

Definition bind {A B} (m : Result A) (f : A -> Result B) : Result B :=
  match m with
  | Ok a => f a
  | Raise e => Raise e
  end.

Notation "'try!' x := m 'in' k" := (bind m (fun x => k))
  (at level 10, x name, m at level 100, k at level 200).

(** ** The fragment of Python's [re] that the sources use

    Patterns are built from literal characters, the classes [\s], [\d] and
    [.], the greedy quantifiers [+], [*], [?] and [{m,n}] on a single
    character or class, non-capturing groups [(?:a|b)], the negative
    lookahead [(?!r)], [\b] and [^].  Matching is by backtracking with the
    priorities of [re]: a quantifier takes as many characters as it can and
    gives them back one at a time, the alternatives of a group are tried from
    left to right.  No pattern of the sources matches the empty string. *)

Module Re.
Import PyStr.

Inductive cclass := CChar (c : ascii) | CSpace | CDigit | CAny.

Inductive regex :=
| REps
| RClass (cc : cclass) (lo : nat) (hi : option nat)
| RSeq (r1 r2 : regex)
| RAlt (r1 r2 : regex)
| RWordB
| RBol
| RNegLook (r : regex).

Definition cmatch (cc : cclass) (c : ascii) : bool :=
  match cc with
  | CChar a => Ascii.eqb a c
  | CSpace => is_space c
  | CDigit => is_digit c
  | CAny => negb (code c =? 10)%nat
  end.

Definition exhausted (hi : option nat) : bool :=
  match hi with
  | Some O => true
  | _ => false
  end.

(** Greedy repetition of one character class, between [lo] and [hi] times,
    then the continuation [k]. *)
Fixpoint rep {A} (cc : cclass) (lo : nat) (hi : option nat) (prev : option ascii)
    (s : list ascii) (k : option ascii -> list ascii -> option A) {struct s} : option A :=
  let stop := match lo with O => k prev s | S _ => None end in
  match s with
  | [] => stop
  | c :: s' =>
      if negb (exhausted hi) && cmatch cc c
      then match rep cc (pred lo) (pred <$> hi) (Some c) s' k with
           | Some a => Some a
           | None => stop
           end
      else stop
  end.

Definition word_char (o : option ascii) : bool :=
  match o with
  | Some c => is_word c
  | None => false
  end.

(** [run r A prev s k]: match [r] at the position whose preceding character
    is [prev] and whose remaining input is [s]; on success hand the new
    position to [k]; the first success in priority order wins. *)
Fixpoint run (r : regex) (A : Type) (prev : option ascii) (s : list ascii)
    (k : option ascii -> list ascii -> option A) {struct r} : option A :=
  match r with
  | REps => k prev s
  | RClass cc lo hi => rep cc lo hi prev s k
  | RSeq r1 r2 => run r1 A prev s (fun p' s' => run r2 A p' s' k)
  | RAlt r1 r2 =>
      match run r1 A prev s k with
      | Some a => Some a
      | None => run r2 A prev s k
      end
  | RWordB => if xorb (word_char prev) (word_char (head s)) then k prev s else None
  | RBol => match prev with None => k prev s | Some _ => None end
  | RNegLook r' =>
      match run r' unit prev s (fun _ _ => Some tt) with
      | Some _ => None
      | None => k prev s
      end
  end.

(** The text matched at the current position, if any. *)
Definition match_here (r : regex) (prev : option ascii) (s : list ascii)
  : option (list ascii) :=
  match run r (list ascii) prev s (fun _ rest => Some rest) with
  | Some rest => Some (take (length s - length rest) s)
  | None => None
  end.

(** [re.search]: the leftmost match. *)
Fixpoint search_from (r : regex) (prev : option ascii) (s : list ascii)
  : option (list ascii) :=
  match match_here r prev s with
  | Some m => Some m
  | None =>
      match s with
      | [] => None
      | c :: s' => search_from r (Some c) s'
      end
  end.

(** [re.finditer]: the successive leftmost matches, none overlapping the
    previous one; [skip] counts the characters still covered by the last
    match. *)
Fixpoint finditer_from (r : regex) (prev : option ascii) (s : list ascii)
    (skip : nat) {struct s} : list (list ascii) :=
  match skip with
  | S n =>
      match s with
      | [] => []
      | c :: s' => finditer_from r (Some c) s' n
      end
  | O =>
      match match_here r prev s with
      | Some m =>
          m :: match s with
               | [] => []
               | c :: s' => finditer_from r (Some c) s' (pred (length m))
               end
      | None =>
          match s with
          | [] => []
          | c :: s' => finditer_from r (Some c) s' 0
          end
      end
  end.

(** *** Reading a pattern *)

Definition is_char (a : string) (c : ascii) : bool :=
  match a with
  | String b EmptyString => Ascii.eqb b c
  | _ => false
  end.

Definition special (c : ascii) : bool :=
  existsb (fun a => is_char a c)
    ["+"; "*"; "?"; "{"; "}"; "["; "]"; "("; ")"; "$"; "|"; "^"; "\"].

Definition digit_value (c : ascii) : nat := code c - 48.

Fixpoint read_nat (acc : nat) (s : list ascii) : nat * list ascii :=
  match s with
  | c :: s' => if is_digit c then read_nat (10 * acc + digit_value c) s' else (acc, s)
  | [] => (acc, s)
  end.

(** One character or class at the head of the pattern. *)
Definition read_class (s : list ascii) : option (cclass * list ascii) :=
  match s with
  | [] => None
  | c :: s1 =>
      if is_char "\" c then
        match s1 with
        | [] => None
        | e :: s2 =>
            if is_char "s" e then Some (CSpace, s2)
            else if is_char "d" e then Some (CDigit, s2)
            else if is_word e then None
            else Some (CChar e, s2)
        end
      else if is_char "." c then Some (CAny, s1)
      else if special c then None
      else Some (CChar c, s1)
  end.

(** The quantifier after a character or class; none means exactly once. *)
Definition read_quant (s : list ascii) : option (nat * option nat * list ascii) :=
  match s with
  | [] => Some (1, Some 1, s)
  | c :: s1 =>
      if is_char "+" c then Some (1, None, s1)
      else if is_char "*" c then Some (0, None, s1)
      else if is_char "?" c then Some (0, Some 1, s1)
      else if is_char "{" c then
        let '(lo, s2) := read_nat 0 s1 in
        match s2 with
        | comma :: s3 =>
            if is_char "," comma then
              let '(hi, s4) := read_nat 0 s3 in
              match s4 with
              | close :: s5 => if is_char "}" close then Some (lo, Some hi, s5) else None
              | [] => None
              end
            else None
        | [] => None
        end
      else Some (1, Some 1, s)
  end%nat.

Definition prepend (a : regex) (alts : list regex) : list regex :=
  match alts with
  | r :: rs => RSeq a r :: rs
  | [] => [a]
  end.

Fixpoint alt_of (alts : list regex) : regex :=
  match alts with
  | [] => REps
  | [r] => r
  | r :: rs => RAlt r (alt_of rs)
  end.

Definition quantifier_next (s : list ascii) : bool :=
  match s with
  | c :: _ => is_char "+" c || is_char "*" c || is_char "?" c || is_char "{" c
  | [] => false
  end.

(** The alternatives of the pattern up to the closing parenthesis of the
    current group, and what follows. *)
Fixpoint read_alts (fuel : nat) (s : list ascii) : option (list regex * list ascii) :=
  match fuel with
  | O => None
  | S f =>
      match s with
      | [] => Some ([REps], [])
      | c :: s1 =>
          if is_char ")" c then Some ([REps], s)
          else if is_char "|" c then
            '(alts, rest) ← read_alts f s1; Some (REps :: alts, rest)
          else if is_char "^" c then
            '(alts, rest) ← read_alts f s1; Some (prepend RBol alts, rest)
          else if starts_with (chars "\b") s then
            '(alts, rest) ← read_alts f (drop 2 s); Some (prepend RWordB alts, rest)
          else if starts_with (chars "(?:") s || starts_with (chars "(?!") s then
            '(inner, rest) ← read_alts f (drop 3 s);
            match rest with
            | close :: s2 =>
                if is_char ")" close && negb (quantifier_next s2) then
                  let g := if starts_with (chars "(?!") s
                           then RNegLook (alt_of inner) else alt_of inner in
                  '(alts, rest') ← read_alts f s2; Some (prepend g alts, rest')
                else None
            | [] => None
            end
          else
            '(cc, s2) ← read_class s;
            '(lo, hi, s3) ← read_quant s2;
            '(alts, rest) ← read_alts f s3;
            Some (prepend (RClass cc lo hi) alts, rest)
      end
  end.

(** [re.compile] *)
Definition compile (pattern : string) : option regex :=
  match read_alts (S (String.length pattern)) (chars pattern) with
  | Some (alts, []) => Some (alt_of alts)
  | _ => None
  end.

(** [re.search(pattern, text)] is not [None] *)
Definition re_search (pattern text : string) : bool :=
  match compile pattern with
  | Some r => bool_decide (is_Some (search_from r None (chars text)))
  | None => false
  end.

(** [[m.group() for m in re.finditer(pattern, text)]] *)
Definition re_finditer (pattern text : string) : list string :=
  match compile pattern with
  | Some r => str <$> finditer_from r None (chars text) 0
  | None => []
  end.

(** [re.match(pattern, text)] is not [None] *)
Definition re_match (pattern text : string) : bool :=
  match compile pattern with
  | Some r => bool_decide (is_Some (match_here r None (chars text)))
  | None => false
  end.

(** *** Patterns without alternatives

    Most patterns of the sources are a sequence of characters and classes,
    each with its bounds.  What such a pattern matches can be said without
    the matcher: [chain_matches items Q s] holds when [s] splits into one
    run of characters per item, of a length within the bounds of the item
    and of characters in its class, and a rest that satisfies [Q]. *)

Definition within (hi : option nat) (n : nat) : Prop :=
  match hi with
  | Some h => n <= h
  | None => True
  end.

Definition item : Type := cclass * nat * option nat.

Fixpoint chain (items : list item) : regex :=
  match items with
  | [] => REps
  | (cc, lo, hi) :: rest => RSeq (RClass cc lo hi) (chain rest)
  end.

Fixpoint chain_matches (items : list item) (Q : list ascii -> Prop) (s : list ascii)
  : Prop :=
  match items with
  | [] => Q s
  | (cc, lo, hi) :: rest =>
      exists n, lo <= n /\ within hi n /\ n <= length s /\
                forallb (cmatch cc) (take n s) = true /\
                chain_matches rest Q (drop n s)
  end.

(** The items of a word written out, and of words separated by [\s+]. *)
Definition lit (w : list ascii) : list item := map (fun c => (CChar c, 1, Some 1)) w.

Fixpoint phrase_items (words : list (list ascii)) : list item :=
  match words with
  | [] => []
  | w :: ws =>
      lit w ++ match ws with
               | [] => []
               | _ :: _ => (CSpace, 1, None) :: phrase_items ws
               end
  end.

(** A word that is not empty and does not start with a blank. *)
Definition word_ok (w : list ascii) : Prop :=
  exists c t, w = c :: t /\ is_space c = false.

End Re.

(** ** [src/core/compliance_checker.py]: the rule engine *)

(** A value stored in one of the dictionaries of the structured content. *)
Inductive PyVal := VStr (s : string) | VInt (n : Z).

(** [structured_content]: the lists under the keys ['sections'],
    ['clauses'], ['tables'] and ['signatures']; an absent key reads as the
    empty list, as [.get] makes it.  Each entry is a dictionary. *)
Record StructuredContent := mkStructured {
  sc_sections : list (gmap string PyVal);
  sc_clauses : list (gmap string PyVal);
  sc_tables : list (list (list string));
  sc_signatures : list (gmap string PyVal)
}.

Module ComplianceChecker.
Import PyStr Re.

Definition incorrect_jurisdictions : list string :=
  [ "uae\s+federal\s+courts?";
    "dubai\s+courts?";
    "abu\s+dhabi\s+courts?(?!\s+global\s+market)";
    "emirates\s+courts?";
    "federal\s+courts?\s+of\s+uae" ].

Definition adgm_patterns : list string :=
  [ "adgm\s+courts?";
    "abu\s+dhabi\s+global\s+market\s+courts?";
    "courts?\s+of\s+adgm" ].

Definition incorrect_jurisdiction_issue (doc_type : DocumentType) (matched : string)
  : DocumentIssue :=
  {| document := doc_type_value doc_type;
     section := Some "Jurisdiction Clause";
     issue := "Incorrect jurisdiction reference: '" +:+ matched +:+ "'";
     severity := HIGH;
     suggestion := Some "Update jurisdiction to reference ADGM Courts";
     adgm_reference := Some "ADGM Companies Regulations 2020, Article 6";
     line_number := None |}.

Definition missing_jurisdiction_issue (doc_type : DocumentType) : DocumentIssue :=
  {| document := doc_type_value doc_type;
     section := Some "Jurisdiction Clause";
     issue := "Missing ADGM jurisdiction clause";
     severity := HIGH;
     suggestion := Some "Add clause specifying ADGM Courts jurisdiction";
     adgm_reference := Some "ADGM Companies Regulations 2020";
     line_number := None |}.

(** [any(re.search(pattern, text_lower) for pattern in adgm_patterns)] *)
Definition has_adgm_jurisdiction (text : string) : bool :=
  existsb (fun pattern => re_search pattern (lower text)) adgm_patterns.

(** The three patterns of [adgm_patterns] as sequences of items. *)
Definition adgm_courts_items : list item :=
  phrase_items (chars <$> ["adgm"; "court"]) ++ [(CChar "s"%char, 0, Some 1)].

Definition market_courts_items : list item :=
  phrase_items (chars <$> ["abu"; "dhabi"; "global"; "market"; "court"])
  ++ [(CChar "s"%char, 0, Some 1)].

Definition courts_of_adgm_items : list item :=
  lit (chars "court")
  ++ (CChar "s"%char, 0, Some 1) :: (CSpace, 1, None)
     :: phrase_items (chars <$> ["of"; "adgm"]).

(** The specification speaks of an allowed ADGM jurisdiction phrase being
    present and does not list the phrases; they are the ones that the three
    patterns stand for.  Here the presence is said on the text and not
    through [re]: one of these sequences of words occurs in the lower-cased
    text, each word as written, one or more blanks between a word and the
    next, anything before the first and after the last. *)
Definition spec_adgm_phrases : list (list string) :=
  [ ["adgm"; "court"];
    ["abu"; "dhabi"; "global"; "market"; "court"];
    ["court"; "of"; "adgm"];
    ["courts"; "of"; "adgm"] ].

Definition spec_adgm_phrase_present (text : string) : bool :=
  existsb (fun phrase => occurs_in (chars <$> phrase) (chars (lower text)))
    spec_adgm_phrases.

Definition jurisdiction_sensitive (doc_type : DocumentType) : bool :=
  bool_decide (doc_type ∈ [ARTICLES_OF_ASSOCIATION; MEMORANDUM_OF_ASSOCIATION;
                           COMMERCIAL_AGREEMENT]).

Definition _check_jurisdiction (text : string) (doc_type : DocumentType)
  : list DocumentIssue :=
  let text_lower := lower text in
  flat_map (fun pattern =>
              incorrect_jurisdiction_issue doc_type <$> re_finditer pattern text_lower)
           incorrect_jurisdictions
  ++ (if negb (has_adgm_jurisdiction text) && jurisdiction_sensitive doc_type
      then [missing_jurisdiction_issue doc_type]
      else []).

(** How the claims tell the two kinds of jurisdiction issue apart. *)
Definition is_missing_jurisdiction (i : DocumentIssue) : Prop :=
  issue i = "Missing ADGM jurisdiction clause".

#[export] Instance is_missing_jurisdiction_dec i : Decision (is_missing_jurisdiction i).
Proof. unfold is_missing_jurisdiction. apply _. Defined.

Definition is_incorrect_reference (i : DocumentIssue) : Prop :=
  exists matched, issue i = "Incorrect jurisdiction reference: '" +:+ matched +:+ "'".

(** One entry of [_create_required_clauses]. *)
Record ClauseInfo := mkClause {
  clause_name : string;
  clause_patterns : list string;
  clause_severity : SeverityLevel;
  clause_reference : string
}.

Definition required_clauses (doc_type : DocumentType) : list ClauseInfo :=
  match doc_type with
  | ARTICLES_OF_ASSOCIATION =>
      [ mkClause "Company Name" ["company\s+name"; "name\s+of\s+the\s+company"]
          HIGH "ADGM Companies Regulations 2020, Art. 15";
        mkClause "Share Capital" ["share\s+capital"; "authorized\s+capital"]
          HIGH "ADGM Companies Regulations 2020, Art. 25";
        mkClause "Directors Powers" ["directors?\s+powers?"; "board\s+powers?"]
          MEDIUM "ADGM Companies Regulations 2020, Art. 45" ]
  | MEMORANDUM_OF_ASSOCIATION =>
      [ mkClause "Company Objects" ["objects?\s+of\s+the\s+company"; "business\s+objects?"]
          HIGH "ADGM Companies Regulations 2020, Art. 12";
        mkClause "Liability Clause" ["liability\s+of\s+members"; "limited\s+liability"]
          HIGH "ADGM Companies Regulations 2020, Art. 18" ]
  | _ => []
  end.

Definition missing_clause_issue (doc_type : DocumentType) (c : ClauseInfo) : DocumentIssue :=
  {| document := doc_type_value doc_type;
     section := Some (clause_name c);
     issue := "Missing required clause: " +:+ clause_name c;
     severity := clause_severity c;
     suggestion := Some ("Add " +:+ clause_name c +:+ " clause");
     adgm_reference := Some (clause_reference c);
     line_number := None |}.

Definition _check_required_clauses (text : string) (doc_type : DocumentType)
  : list DocumentIssue :=
  let text_lower := lower text in
  flat_map (fun c =>
              if existsb (fun pattern => re_search pattern text_lower) (clause_patterns c)
              then []
              else [missing_clause_issue doc_type c])
           (required_clauses doc_type).

(** [[s for s in sections if re.match(r'^\d+\.', s['text'])]]; a section
    without the key ['text'] raises [KeyError], one that holds an integer
    there makes [re.match] raise [TypeError].  The message is the one of
    Python 3.11 and later; earlier versions stop after "object". *)
Fixpoint numbered_sections (sections : list (gmap string PyVal))
  : Result (list (gmap string PyVal)) :=
  match sections with
  | [] => Ok []
  | s :: rest =>
      match s !! "text" with
      | None => Raise (KeyError "text")
      | Some (VInt _) =>
          Raise (TypeError "expected string or bytes-like object, got 'int'")
      | Some (VStr t) =>
          try! tl := numbered_sections rest in
          Ok (if re_match "^\d+\." t then s :: tl else tl)
      end
  end.

Definition simple_issue (doc_type : DocumentType) (sec iss : string)
    (sev : SeverityLevel) (sugg ref : string) : DocumentIssue :=
  {| document := doc_type_value doc_type;
     section := Some sec;
     issue := iss;
     severity := sev;
     suggestion := Some sugg;
     adgm_reference := Some ref;
     line_number := None |}.

Definition _check_formatting (text : string) (structured_content : StructuredContent)
    (doc_type : DocumentType) : Result (list DocumentIssue) :=
  let signature_issues :=
    if bool_decide (doc_type ∈ [ARTICLES_OF_ASSOCIATION; BOARD_RESOLUTION])
       && bool_decide (sc_signatures structured_content = [])
    then [simple_issue doc_type "Signature Section" "Missing signature section" MEDIUM
            "Add proper signature section with date and witness fields"
            "ADGM Document Standards"]
    else [] in
  let sections := sc_sections structured_content in
  try! numbering_issues :=
    (match sections with
     | [] => Ok []
     | _ =>
         try! numbered := numbered_sections sections in
         Ok (if (2 * length numbered <? length sections)%nat
             then [simple_issue doc_type "Document Structure" "Inconsistent section numbering"
                     LOW "Use consistent numbering for all sections"
                     "ADGM Document Formatting Guidelines"]
             else [])
     end) in
  let table_issues :=
    if bool_decide (doc_type = REGISTER_MEMBERS_DIRECTORS)
       && bool_decide (sc_tables structured_content = [])
    then [simple_issue doc_type "Data Structure"
            "Missing tabular format for member/director information" MEDIUM
            "Use table format for member and director details"
            "ADGM Register Requirements"]
    else [] in
  Ok (signature_issues ++ numbering_issues ++ table_issues).

Definition ambiguous_patterns : list string :=
  [ "\bmay\s+(?:be|have|do)";
    "\bshould\s+(?:be|have|do)";
    "\bmight\s+(?:be|have|do)";
    "\bpossibly";
    "\bperhaps";
    "\bif\s+possible" ].

Definition ambiguous_issue (doc_type : DocumentType) : DocumentIssue :=
  simple_issue doc_type "Language Clarity" "Excessive use of ambiguous language" MEDIUM
    "Use definitive language (shall, will, must) instead of ambiguous terms"
    "ADGM Drafting Standards".

Definition is_ambiguous (i : DocumentIssue) : Prop :=
  issue i = "Excessive use of ambiguous language".

#[export] Instance is_ambiguous_dec i : Decision (is_ambiguous i).
Proof. unfold is_ambiguous. apply _. Defined.

(** [len(matches) > 3] *)
Definition exceeds (text_lower pattern : string) : bool :=
  (3 <? length (re_finditer pattern text_lower))%nat.

(** The loop over [ambiguous_patterns], left at the first pattern with more
    than three matches. *)
Fixpoint ambiguous_loop (doc_type : DocumentType) (text_lower : string)
    (patterns : list string) : list DocumentIssue :=
  match patterns with
  | [] => []
  | pattern :: rest =>
      if exceeds text_lower pattern
      then [ambiguous_issue doc_type]
      else ambiguous_loop doc_type text_lower rest
  end.

Definition essential_info : list (string * string) :=
  [ ("share\s+capital", "Share capital information");
    ("registered\s+office", "Registered office address");
    ("objects?\s+of\s+the\s+company", "Company objects") ].

Definition essential_issue (doc_type : DocumentType) (info_name : string) : DocumentIssue :=
  simple_issue doc_type info_name ("Missing " +:+ lower info_name) HIGH
    ("Include " +:+ lower info_name +:+ " in the document")
    "ADGM Companies Regulations".

Definition date_patterns : list string :=
  [ "\d{1,2}/\d{1,2}/\d{2,4}";
    "\d{1,2}-\d{1,2}-\d{2,4}" ].

Definition date_issue (doc_type : DocumentType) : DocumentIssue :=
  simple_issue doc_type "Date Format" "Inconsistent date format detected" LOW
    "Use consistent date format (DD Month YYYY)" "ADGM Document Standards".

Fixpoint date_loop (doc_type : DocumentType) (text : string) (patterns : list string)
  : list DocumentIssue :=
  match patterns with
  | [] => []
  | pattern :: rest =>
      if re_search pattern text then [date_issue doc_type]
      else date_loop doc_type text rest
  end.

Definition _detect_red_flags (text : string) (doc_type : DocumentType)
  : list DocumentIssue :=
  let text_lower := lower text in
  ambiguous_loop doc_type text_lower ambiguous_patterns
  ++ (if bool_decide (doc_type = ARTICLES_OF_ASSOCIATION)
      then flat_map (fun '(pattern, info_name) =>
                       if re_search pattern text_lower then []
                       else [essential_issue doc_type info_name])
                    essential_info
      else [])
  ++ date_loop doc_type text date_patterns.

Definition _check_adgm_specific_requirements (text : string) (doc_type : DocumentType)
  : list DocumentIssue :=
  let text_lower := lower text in
  (if bool_decide (doc_type ∈ [ARTICLES_OF_ASSOCIATION; MEMORANDUM_OF_ASSOCIATION])
      && negb (re_search "adgm\s*-?\s*\d+" text_lower)
   then [simple_issue doc_type "Registration Details"
           "Missing or incorrect ADGM registration number format" MEDIUM
           "Include proper ADGM registration number (ADGM-XXXXXX)"
           "ADGM Registration Requirements"]
   else [])
  ++ (if negb (contains "abu dhabi global market" text_lower) && contains "adgm" text_lower
      then [simple_issue doc_type "ADGM Reference"
              "ADGM abbreviation used without full name" LOW
              "Use full name 'Abu Dhabi Global Market (ADGM)' on first reference"
              "ADGM Style Guide"]
      else []).

(** What every issue of the rule engine carries: the value of the document
    type, a section, a suggestion, a reference, no line number, and a
    severity below Critical. *)
Definition well_formed_issue (doc_type : DocumentType) (i : DocumentIssue) : Prop :=
  document i = doc_type_value doc_type /\
  is_Some (section i) /\ is_Some (suggestion i) /\ is_Some (adgm_reference i) /\
  line_number i = None /\ severity i <> CRITICAL.

(** A section entry that [_check_formatting] can read. *)
Definition has_text (entry : gmap string PyVal) : Prop :=
  exists t, entry !! "text" = Some (VStr t).

Definition is_date_issue (i : DocumentIssue) : Prop :=
  issue i = "Inconsistent date format detected".

#[export] Instance is_date_issue_dec i : Decision (is_date_issue i).
Proof. unfold is_date_issue. apply _. Defined.

(** The body of [check_compliance], given the outcome of each of its five
    calls: every result is appended to [issues] in turn, and nothing in the
    body handles an exception. *)
Section RuleEngine.
Variables jurisdiction required formatting red_flags adgm_specific
  : Result (list DocumentIssue).

Definition run_checks : Result (list DocumentIssue) :=
  try! a := jurisdiction in
  try! b := required in
  try! c := formatting in
  try! d := red_flags in
  try! e := adgm_specific in
  Ok (a ++ b ++ c ++ d ++ e).

End RuleEngine.

Definition check_compliance (document_text : string) (document_type : DocumentType)
    (structured_content : StructuredContent) : Result (list DocumentIssue) :=
  run_checks
    (Ok (_check_jurisdiction document_text document_type))
    (Ok (_check_required_clauses document_text document_type))
    (_check_formatting document_text structured_content document_type)
    (Ok (_detect_red_flags document_text document_type))
    (Ok (_check_adgm_specific_requirements document_text document_type)).

End ComplianceChecker.

(** ** [src/core/document_annotator.py]: comments, highlights, summary

    A document is the list [doc.paragraphs]; a paragraph is its list of runs
    and two indents; [paragraph.text] is the concatenation of the texts of
    its runs.  The annotator works on the document in place: every function
    below returns the document as the call leaves it, also when the call
    ends in an exception that the function catches.  The sources prefix some
    lines with a pictograph; the embedding writes its name between colons. *)

Module DocumentAnnotator.
Import PyStr.

Record Run := mkRun {
  run_text : string;
  run_bold : bool;
  run_italic : bool;
  run_color : option (nat * nat * nat);
  run_highlight : bool;
  run_size : option Q
}.

Record Paragraph := mkParagraph {
  p_runs : list Run;
  p_left_indent : option Q;
  p_right_indent : option Q
}.

Definition Document := list Paragraph.

(** [run.font.size = Inches(x)], as the run holds the size afterwards, in
    points.  [Inches(x)] is a whole number of English metric units, 914400
    to the inch, and the document stores a font size in whole half-points
    of 6350 units, both cut down: the 1/10 inch of a comment ends as 7 pt.
    The indents, stored in twentieths of a point, keep the half inch that
    is assigned to them. *)
Definition font_size (inches : Q) : Q :=
  let emu := Qfloor (inches * 914400) in
  Qred (Qfloor (inject_Z emu / 6350) # 2)%Q.

(** [paragraph.text] *)
Definition paragraph_text (p : Paragraph) : string :=
  foldr (fun r acc => run_text r +:+ acc) "" (p_runs p).

(** [paragraph.add_run(text)] leaves a run without formatting. *)
Definition plain_run (text : string) : Run :=
  {| run_text := text; run_bold := false; run_italic := false; run_color := None;
     run_highlight := false; run_size := None |}.

(** A paragraph as [insert_paragraph_before] or [OxmlElement("w:p")] make it. *)
Definition empty_paragraph : Paragraph :=
  {| p_runs := []; p_left_indent := None; p_right_indent := None |}.

Definition add_run (p : Paragraph) (r : Run) : Paragraph :=
  {| p_runs := p_runs p ++ [r];
     p_left_indent := p_left_indent p;
     p_right_indent := p_right_indent p |}.

(** [paragraph.clear()] *)
Definition clear (p : Paragraph) : Paragraph :=
  {| p_runs := []; p_left_indent := p_left_indent p; p_right_indent := p_right_indent p |}.

(** An optional string that Python takes for true. *)
Definition truthy (o : option string) : option string :=
  match o with
  | Some "" => None
  | _ => o
  end.

Definition keyword_map : list (string * list string) :=
  [ ("jurisdiction", ["jurisdiction"; "court"; "adgm"; "dubai"; "abu dhabi"]);
    ("signature", ["signature"; "signed"; "signatory"; "execution"]);
    ("date", ["date"; "dated"; "day of"]);
    ("share capital", ["share"; "capital"; "shares"; "authorized"]);
    ("director", ["director"; "board"; "directors"]);
    ("member", ["member"; "shareholder"; "membership"]);
    ("company name", ["company"; "name"; "corporation"]);
    ("registered office", ["registered"; "office"; "address"]);
    ("objects", ["objects"; "purpose"; "business"; "activities"]) ].

Definition pictograph (name : string) : string := ":" +:+ name +:+ ":".

Definition severity_emoji (s : SeverityLevel) : string :=
  match s with
  | LOW => pictograph "yellow_circle"
  | MEDIUM => pictograph "orange_circle"
  | HIGH => pictograph "red_circle"
  | CRITICAL => pictograph "rotating_light"
  end.

Definition _format_comment (i : DocumentIssue) : string :=
  join (String "010" "")
    ([ severity_emoji (severity i) +:+ " " +:+ upper (severity_value (severity i)) +:+ " ISSUE";
       "Issue: " +:+ issue i ]
     ++ match truthy (suggestion i) with
        | Some sugg => ["Suggestion: " +:+ sugg]
        | None => []
        end
     ++ match truthy (adgm_reference i) with
        | Some ref => ["Reference: " +:+ ref]
        | None => []
        end).

Definition _get_comment_type (i : DocumentIssue) : string :=
  match severity i with
  | HIGH | CRITICAL => "critical"
  | MEDIUM => "warning"
  | LOW => "info"
  end.

(** The index of the first item that satisfies [test]. *)
Fixpoint first_index {A} (test : A -> bool) (l : list A) : option nat :=
  match l with
  | [] => None
  | x :: rest => if test x then Some 0%nat else S <$> first_index test rest
  end.

(** The scoring loop of [_find_best_paragraph]: [i] is the index of the head
    of [paragraphs]. *)
Fixpoint best_match (issue_keywords paragraphs : list string) (i : nat)
    (best_match_index : option nat) (best_match_score : nat) : option nat * nat :=
  match paragraphs with
  | [] => (best_match_index, best_match_score)
  | paragraph :: rest =>
      let paragraph_lower := lower paragraph in
      let score := length (filter (fun keyword => contains keyword paragraph_lower = true)
                                  issue_keywords) in
      if (best_match_score <? score)%nat
      then best_match issue_keywords rest (S i) (Some i) score
      else best_match issue_keywords rest (S i) best_match_index best_match_score
  end.

(** [_highlight_text_in_paragraph] *)
Definition _highlight_text_in_paragraph (paragraph : Paragraph) (highlight_text : string)
  : Paragraph :=
  let paragraph_text := paragraph_text paragraph in
  match find (lower paragraph_text) (lower highlight_text) with
  | None => paragraph
  | Some start_index =>
      let original_text := paragraph_text in
      let stop := (start_index + String.length highlight_text)%nat in
      let before :=
        if (0 <? start_index)%nat
        then [plain_run (slice original_text 0 start_index)] else [] in
      let highlighted :=
        {| run_text := slice original_text start_index stop;
           run_bold := false; run_italic := false; run_color := None;
           run_highlight := true; run_size := None |} in
      let after :=
        if (stop <? String.length original_text)%nat
        then [plain_run (slice_from original_text stop)] else [] in
      {| p_runs := before ++ [highlighted] ++ after;
         p_left_indent := p_left_indent paragraph;
         p_right_indent := p_right_indent paragraph |}
  end.

(** The comment paragraph after [_format_comment_paragraph]. *)
Definition comment_paragraph (insertion : CommentInsertion) : Paragraph :=
  let critical := String.eqb (comment_type insertion) "critical" in
  let warning := String.eqb (comment_type insertion) "warning" in
  {| p_runs :=
       [ {| run_text := "[ADGM REVIEW] " +:+ comment_text insertion;
            run_bold := critical || warning;
            run_italic := true;
            run_color := Some (if critical then (204, 0, 0)
                               else if warning then (255, 102, 0)
                               else (0, 102, 204))%nat;
            run_highlight := false;
            run_size := Some (font_size (1 # 10)) |} ];
     p_left_indent := Some (1 # 2)%Q;
     p_right_indent := Some (1 # 2)%Q |}.

(** [_insert_comment]: nothing happens when the index is out of range. *)
Definition _insert_comment (doc : Document) (insertion : CommentInsertion) : Document :=
  let i := paragraph_index insertion in
  match doc !! i with
  | None => doc
  | Some target_paragraph =>
      let target :=
        match truthy (highlight_text insertion) with
        | Some text => _highlight_text_in_paragraph target_paragraph text
        | None => target_paragraph
        end in
      take i doc ++ target :: comment_paragraph insertion :: drop (S i) doc
  end.

(** [list.sort(key=lambda x: x.paragraph_index, reverse=True)]: a stable
    sort, greatest index first. *)
Fixpoint insert_desc (x : CommentInsertion) (sorted : list CommentInsertion)
  : list CommentInsertion :=
  match sorted with
  | [] => [x]
  | y :: rest =>
      if (paragraph_index y <? paragraph_index x)%nat
      then x :: sorted
      else y :: insert_desc x rest
  end.

Definition sort_desc (l : list CommentInsertion) : list CommentInsertion :=
  fold_left (fun sorted x => insert_desc x sorted) l [].

Definition count_severity (issues : list DocumentIssue) (s : SeverityLevel) : nat :=
  length (filter (fun i => severity i = s) issues).

Definition no_issues_line : string :=
  pictograph "check_mark" +:+
  " No compliance issues found. Document appears to be compliant with ADGM requirements.".

Definition total_line (issues : list DocumentIssue) : string :=
  pictograph "bar_chart" +:+ " Total Issues Found: " +:+ of_nat (length issues).

Definition severity_line (issues : list DocumentIssue) (s : SeverityLevel) : list string :=
  let count := count_severity issues s in
  if (0 <? count)%nat
  then [severity_emoji s +:+ " " +:+ severity_value s +:+ ": " +:+ of_nat count +:+ " issue(s)"]
  else [].

(** [f"{i+1}. {issue.issue}"] for the issues from index [i] on. *)
Fixpoint numbered_issues (i : nat) (issues : list DocumentIssue) : list string :=
  match issues with
  | [] => []
  | x :: rest => (of_nat (i + 1) +:+ ". " +:+ issue x) :: numbered_issues (S i) rest
  end.

Definition more_line (issues : list DocumentIssue) : list string :=
  if (5 <? length issues)%nat
  then ["... and " +:+ of_nat (length issues - 5) +:+ " more issue(s)"]
  else [].

Definition _create_summary_content (issues : list DocumentIssue) : list string :=
  match issues with
  | [] => [no_issues_line]
  | _ =>
      [total_line issues; ""]
      ++ flat_map (severity_line issues) [CRITICAL; HIGH; MEDIUM; LOW]
      ++ [""; pictograph "memo" +:+ " Key Issues:"]
      ++ numbered_issues 0 (take 5 issues)
      ++ more_line issues
      ++ [ "";
           pictograph "bulb" +:+
           " Please review the detailed comments throughout the document for specific guidance.";
           "" ]
  end.

Definition title_paragraph : Paragraph :=
  add_run empty_paragraph
    {| run_text := "ADGM COMPLIANCE REVIEW SUMMARY"; run_bold := true; run_italic := false;
       run_color := Some (0, 51, 102)%nat; run_highlight := false;
       run_size := Some (font_size (15 # 100)) |}.

Definition summary_line_paragraph (line : string) : Paragraph :=
  add_run empty_paragraph
    {| run_text := line; run_bold := false; run_italic := false; run_color := None;
       run_highlight := false; run_size := Some (font_size (11 # 100)) |}.

Definition separator_text : string := repeat_char "=" 80.

Definition separator_paragraph : Paragraph :=
  add_run empty_paragraph
    {| run_text := separator_text; run_bold := false; run_italic := false;
       run_color := Some (128, 128, 128)%nat; run_highlight := false; run_size := None |}.

Section Annotator.

(** [list(set(keywords))]: the distinct keywords in the order in which the
    set happens to list them; nothing is assumed about that order. *)
Variable list_set : list string -> list string.

(** Whether the paragraph objects of the installed document library answer
    to [insert_paragraph_after].  python-docx offers [insert_paragraph_before]
    only, which is why the class carries [_insert_paragraph_after] of its
    own; the value [true] stands for a library whose method puts a new
    paragraph right after the receiver. *)
Variable has_insert_paragraph_after : bool.

Definition _extract_keywords_from_issue (i : DocumentIssue) : list string :=
  let issue_text := lower (issue i) in
  let keywords :=
    flat_map (fun '(category, terms) =>
                if existsb (fun term => contains term issue_text) terms then terms else [])
             keyword_map in
  let keywords :=
    match truthy (section i) with
    | Some s => keywords ++ split (lower s)
    | None => keywords
    end in
  list_set keywords.

Definition _find_best_paragraph (i : DocumentIssue) (paragraphs : list string)
  : option nat :=
  let by_section :=
    match truthy (section i) with
    | Some s =>
        let section_keywords := split (lower s) in
        first_index (fun paragraph =>
                       existsb (fun keyword => contains keyword (lower paragraph))
                               section_keywords)
                    paragraphs
    | None => None
    end in
  match by_section with
  | Some index => Some index
  | None =>
      let issue_keywords := _extract_keywords_from_issue i in
      let '(best_match_index, best_match_score) :=
        best_match issue_keywords paragraphs 0 None 0 in
      if (0 <? best_match_score)%nat then best_match_index else None
  end.

(** The loop of [_extract_highlight_text].  The search ignores case and the
    keywords are in lower case, so the match starts where the keyword first
    occurs in the lower-cased paragraph. *)
Fixpoint highlight_of (issue_keywords : list string) (paragraph_text : string)
  : option string :=
  match issue_keywords with
  | [] => None
  | keyword :: rest =>
      match find (lower paragraph_text) keyword with
      | Some start =>
          Some (slice paragraph_text start (start + String.length keyword))
      | None => highlight_of rest paragraph_text
      end
  end.

Definition _extract_highlight_text (i : DocumentIssue) (paragraph_text : string)
  : option string :=
  highlight_of (_extract_keywords_from_issue i) paragraph_text.

Definition _create_comment_insertions (issues : list DocumentIssue)
    (document_text : string) (doc : Document) : list CommentInsertion :=
  let paragraphs := paragraph_text <$> doc in
  flat_map (fun i =>
              match _find_best_paragraph i paragraphs with
              | Some index =>
                  [ {| paragraph_index := index;
                       comment_text := _format_comment i;
                       highlight_text :=
                         _extract_highlight_text i (default "" (paragraphs !! index));
                       comment_type := _get_comment_type i |} ]
              | None => []
              end)
           issues.

(** [summary_paragraph.insert_paragraph_after()] followed by the [add_run]
    on the new paragraph; [summary_paragraph] is the first of the document. *)
Definition insert_after_summary (doc : Document) (p : Paragraph) : Result Document :=
  if has_insert_paragraph_after
  then match doc with
       | summary_paragraph :: rest => Ok (summary_paragraph :: p :: rest)
       | [] => Raise IndexError
       end
  else Raise (AttributeError "insert_paragraph_after").

(** [for line in summary_content]: the document as the loop leaves it, and
    the exception that ended it, if any. *)
Fixpoint add_summary_lines (doc : Document) (summary_content : list string)
  : Document * option PyExn :=
  match summary_content with
  | [] => (doc, None)
  | line :: rest =>
      match insert_after_summary doc (summary_line_paragraph line) with
      | Raise e => (doc, Some e)
      | Ok doc' => add_summary_lines doc' rest
      end
  end.

(** [_add_summary_section]; the [except] clause logs and returns. *)
Definition _add_summary_section (doc : Document) (issues : list DocumentIssue)
  : Document :=
  match doc with
  | [] => doc
  | _ :: _ =>
      let doc1 := title_paragraph :: doc in
      let summary_content := _create_summary_content issues in
      match add_summary_lines doc1 summary_content with
      | (doc2, Some _) => doc2
      | (doc2, None) =>
          match insert_after_summary doc2 separator_paragraph with
          | Ok doc3 => doc3
          | Raise _ => doc2
          end
      end
  end.

Definition annotate_document (doc : Document) (issues : list DocumentIssue)
    (document_text : string) : Document :=
  let comment_insertions := _create_comment_insertions issues document_text doc in
  let comment_insertions := sort_desc comment_insertions in
  let doc := fold_left _insert_comment comment_insertions doc in
  _add_summary_section doc issues.

End Annotator.

(** The summary block as the specification words it, on top of the
    document: the title, the lines of the summary in their order, the
    separator. *)
Definition spec_summary_block (issues : list DocumentIssue) : list string :=
  "ADGM COMPLIANCE REVIEW SUMMARY" :: _create_summary_content issues ++ [separator_text].

(** Whether the lines occur in the texts in their order, other texts
    allowed in between. *)
Fixpoint in_order (lines texts : list string) : bool :=
  match lines, texts with
  | [], _ => true
  | _ :: _, [] => false
  | line :: lines', text :: texts' =>
      if String.eqb line text then in_order lines' texts' else in_order lines texts'
  end.

(** The highlight that an insertion asks for, as [_insert_comment] applies
    it to the target paragraph. *)
Definition apply_highlight (p : Paragraph) (x : CommentInsertion) : Paragraph :=
  match truthy (highlight_text x) with
  | Some text => _highlight_text_in_paragraph p text
  | None => p
  end.

(** The insertions for the paragraph of index [k], in their order. *)
Definition insertions_at (insertions : list CommentInsertion) (k : nat)
  : list CommentInsertion :=
  filter (fun x => paragraph_index x = k) insertions.

(** A document in which every paragraph, from index [k] on, carries the
    highlights of its insertions and is followed by their comments, the
    comment of the last insertion first. *)
Fixpoint annotated_layout (insertions : list CommentInsertion) (k : nat) (doc : Document)
  : Document :=
  match doc with
  | [] => []
  | p :: rest =>
      fold_left apply_highlight (insertions_at insertions k) p
      :: reverse (comment_paragraph <$> insertions_at insertions k)
      ++ annotated_layout insertions (S k) rest
  end.

(** The score that [_find_best_paragraph] gives a paragraph: the number of
    keywords of the issue that it contains. *)
Definition keyword_score (issue_keywords : list string) (paragraph : string) : nat :=
  length (filter (fun keyword => contains keyword (lower paragraph) = true) issue_keywords).

(** The order that [sort(key=..., reverse=True)] establishes. *)
Definition later_first (x y : CommentInsertion) : Prop :=
  (paragraph_index y <= paragraph_index x)%nat.

(** A keyword that is not empty and is in lower case. *)
Definition lower_word (k : string) : Prop := k <> "" /\ lower k = k.

End DocumentAnnotator.

(** ** [src/core/document_parser.py]: the type classifier *)

Module DocumentParser.
Import PyStr Re.

(** [_create_type_patterns]: a dictionary, listed in insertion order. *)
Definition _create_type_patterns : list (DocumentType * list string) :=
  [ (ARTICLES_OF_ASSOCIATION,
      [ "articles?\s+of\s+association"; "company\s+constitution"; "share\s+capital";
        "directors?\s+powers"; "general\s+meetings?"; "dividend"; "winding\s+up" ]);
    (MEMORANDUM_OF_ASSOCIATION,
      [ "memorandum\s+of\s+association"; "objects?\s+of\s+the\s+company";
        "liability\s+of\s+members"; "authorized\s+share\s+capital"; "company\s+name";
        "registered\s+office" ]);
    (INCORPORATION_APPLICATION,
      [ "incorporation\s+application"; "application\s+for\s+registration";
        "company\s+registration"; "proposed\s+company\s+name"; "nature\s+of\s+business";
        "registered\s+address" ]);
    (UBO_DECLARATION,
      [ "ultimate\s+beneficial\s+owner"; "ubo\s+declaration"; "beneficial\s+ownership";
        "controlling\s+interest"; "ownership\s+structure"; "25%\s+or\s+more" ]);
    (BOARD_RESOLUTION,
      [ "board\s+resolution"; "directors?\s+resolution"; "resolved\s+that";
        "board\s+of\s+directors"; "meeting\s+of\s+directors"; "quorum\s+present" ]);
    (REGISTER_MEMBERS_DIRECTORS,
      [ "register\s+of\s+members"; "register\s+of\s+directors"; "shareholders?\s+register";
        "directors?\s+register"; "member\s+details"; "director\s+details" ]);
    (SHAREHOLDER_RESOLUTION,
      [ "shareholders?\s+resolution"; "general\s+meeting";
        "extraordinary\s+general\s+meeting"; "annual\s+general\s+meeting";
        "special\s+resolution"; "ordinary\s+resolution" ]);
    (CHANGE_ADDRESS_NOTICE,
      [ "change\s+of\s+address"; "registered\s+office\s+address"; "new\s+address";
        "address\s+change"; "relocation\s+notice"; "office\s+relocation" ]);
    (EMPLOYMENT_CONTRACT,
      [ "employment\s+contract"; "employment\s+agreement"; "terms\s+of\s+employment";
        "job\s+description"; "salary"; "working\s+hours"; "notice\s+period" ]);
    (COMMERCIAL_AGREEMENT,
      [ "commercial\s+agreement"; "service\s+agreement"; "supply\s+agreement";
        "partnership\s+agreement"; "terms\s+and\s+conditions"; "payment\s+terms" ]);
    (COMPLIANCE_POLICY,
      [ "compliance\s+policy"; "risk\s+management"; "data\s+protection";
        "anti.money\s+laundering"; "know\s+your\s+customer"; "regulatory\s+compliance" ]) ].

(** The inner loop: [score += 1] for every pattern found. *)
Definition matched_patterns (text_lower : string) (patterns : list string) : nat :=
  fold_left (fun score pattern => if re_search pattern text_lower then S score else score)
            patterns 0%nat.

(** [(score / total_patterns) if total_patterns > 0 else 0] *)
Definition confidence_of (score total_patterns : nat) : Q :=
  if (0 <? total_patterns)%nat
  then Z.of_nat score # Pos.of_nat total_patterns
  else 0%Q.

(** [max(iterable, key=...)]: the running maximum is replaced only by a
    strictly greater key, so the first of several greatest items is kept. *)
Fixpoint py_max_by {K} (key : K -> Q) (best : K) (rest : list K) : K :=
  match rest with
  | [] => best
  | k :: rest' => py_max_by key (if Qlt_le_dec (key best) (key k) then k else best) rest'
  end.

Section Identify.
(** [self.document_type_patterns] *)
Variable document_type_patterns : list (DocumentType * list string).

(** [type_scores], in insertion order. *)
Definition type_scores (text_lower : string) : list (DocumentType * Q) :=
  (fun '(doc_type, patterns) =>
     (doc_type, confidence_of (matched_patterns text_lower patterns) (length patterns)))
  <$> document_type_patterns.

Definition _identify_document_type (text_content : string) : DocumentType * Q :=
  let text_lower := lower text_content in
  match type_scores text_lower with
  | [] => (OTHER, 0%Q)
  | first :: rest =>
      let best := py_max_by snd first rest in
      if Qle_bool (3 # 10) (snd best) then best else (OTHER, 0%Q)
  end.

End Identify.

(** The score as the specification words it: patterns matched over total
    patterns, every pattern checked on its own. *)
Definition spec_score (text : string) (patterns : list string) : Q :=
  (inject_Z (Z.of_nat (length (filter (fun pattern => re_search pattern (lower text) = true)
                                      patterns)))
   / inject_Z (Z.of_nat (length patterns)))%Q.

(** What the parser reads of a [docx.Document]: [doc.paragraphs], and
    [doc.tables] as the rows of each table, a row being the texts of its
    cells. *)
Record Docx := mkDocx {
  paragraphs : list DocumentAnnotator.Paragraph;
  tables : list (list (list string))
}.

(** [[t.strip() for t in texts if t.strip()]] *)
Definition stripped_parts (texts : list string) : list string :=
  filter (fun t => t <> "") (strip <$> texts).

(** [_extract_text]: the stripped texts of the paragraphs, then those of the
    cells of every table, the blank ones left out, one per line. *)
Definition _extract_text (doc : Docx) : string :=
  let text_parts :=
    stripped_parts (DocumentAnnotator.paragraph_text <$> paragraphs doc)
    ++ stripped_parts (concat (concat (tables doc))) in
  join (String "010" "") text_parts.

(** [enumerate(l)], counting from [i]. *)
Fixpoint enumerate {A} (i : nat) (l : list A) : list (nat * A) :=
  match l with
  | [] => []
  | x :: rest => (i, x) :: enumerate (S i) rest
  end.

(** [re.match(pattern, text).group()] *)
Definition re_match_group (pattern text : string) : option string :=
  match compile pattern with
  | Some r => str <$> match_here r None (chars text)
  | None => None
  end.

Definition section_entry (i : nat) (text : string) : gmap string PyVal :=
  {[ "index" := VInt (Z.of_nat i); "text" := VStr text; "type" := VStr "section_header" ]}.

Definition clause_entry (i : nat) (text clause_number : string) : gmap string PyVal :=
  {[ "index" := VInt (Z.of_nat i); "text" := VStr text;
     "clause_number" := VStr clause_number ]}.

Definition signature_entry (i : nat) (text : string) : gmap string PyVal :=
  {[ "index" := VInt (Z.of_nat i); "text" := VStr text ]}.

(** The paragraphs that the loop of [_extract_structured_content] does not
    skip, each with its index and its stripped text. *)
Definition scanned (doc : Docx) : list (nat * DocumentAnnotator.Paragraph * string) :=
  flat_map (fun '(i, paragraph) =>
              let text := strip (DocumentAnnotator.paragraph_text paragraph) in
              if decide (text = "") then [] else [(i, paragraph, text)])
           (enumerate 0 (paragraphs doc)).

(** [_extract_structured_content].  The loop appends to three lists, each
    on a test of its own.  The clause number is group 1 of
    [^(\d+\.\d+)], a group that spans the whole match of [^\d+\.\d+].  A
    table entry is kept as its ['data']: the entry's index is its position,
    its ['rows'] and ['cols'] are the lengths of the data and of its first
    row. *)
Definition _extract_structured_content (doc : Docx) : StructuredContent :=
  {| sc_sections :=
       flat_map (fun '(i, paragraph, text) =>
                   if re_match "^\d+\." text
                      || existsb DocumentAnnotator.run_bold (DocumentAnnotator.p_runs paragraph)
                   then [section_entry i text] else [])
                (scanned doc);
     sc_clauses :=
       flat_map (fun '(i, paragraph, text) =>
                   match re_match_group "^\d+\.\d+" text with
                   | Some clause_number => [clause_entry i text clause_number]
                   | None => []
                   end)
                (scanned doc);
     sc_tables :=
       (fun table : list (list string) =>
          (fun row : list string => strip <$> row) <$> table) <$> tables doc;
     sc_signatures :=
       flat_map (fun '(i, paragraph, text) =>
                   if re_search "signature|signed|date.*signed" (lower text)
                   then [signature_entry i text] else [])
                (scanned doc) |}.

End DocumentParser.

(** ** [src/core/checklist_verifier.py]: the completeness report *)

Module ChecklistVerifier.
Import PyStr.

(** [ADGM_PROCESS_REQUIREMENTS] of [src/config.py], a dictionary keyed by the
    process name. *)
Definition ADGM_PROCESS_REQUIREMENTS : list (string * list string) :=
  [ ("Company Incorporation",
      [ "Articles of Association"; "Memorandum of Association"; "UBO Declaration Form";
        "Register of Members and Directors"; "Board Resolution Templates" ]);
    ("License Application",
      [ "License Application Form"; "Business Plan"; "Financial Projections";
        "Compliance Manual" ]) ].

(** [d.get(key, [])] on a dictionary given as its list of items. *)
Fixpoint dict_get (d : list (string * list string)) (key : string) : list string :=
  match d with
  | [] => []
  | (k, v) :: rest => if String.eqb k key then v else dict_get rest key
  end.

Definition match_patterns : list (string * list string) :=
  [ ("articles of association", ["articles"; "aoa"; "articles of association"]);
    ("memorandum of association", ["memorandum"; "moa"; "memorandum of association"]);
    ("ubo declaration", ["ubo"; "beneficial owner"; "ultimate beneficial owner"]);
    ("board resolution", ["board resolution"; "directors resolution"; "resolution"]);
    ("register of members and directors",
      ["register"; "members register"; "directors register"]);
    ("shareholder resolution", ["shareholder resolution"; "shareholders resolution"]);
    ("employment contract", ["employment"; "contract"; "employment agreement"]);
    ("incorporation application",
      ["incorporation"; "application"; "registration application"]) ].

(** The loop over [match_patterns.items()], left at the first key found in
    the name of the required document. *)
Fixpoint first_key_in (table : list (string * list string)) (required_lower : string)
  : option (list string) :=
  match table with
  | [] => None
  | (pattern_key, patterns) :: rest =>
      if contains pattern_key required_lower then Some patterns
      else first_key_in rest required_lower
  end.

Definition _documents_match (required_doc uploaded_doc : string) : bool :=
  let required_lower := strip (lower required_doc) in
  let uploaded_lower := strip (lower uploaded_doc) in
  if String.eqb required_lower uploaded_lower then true
  else match first_key_in match_patterns required_lower with
       | Some patterns => existsb (fun pattern => contains pattern uploaded_lower) patterns
       | None =>
           existsb (fun pattern => contains pattern uploaded_lower)
                   (dict_get match_patterns required_lower)
       end.

(** The dictionary returned by [verify_document_completeness]. *)
Record Completeness := mkCompleteness {
  process_type : string;
  total_required : nat;
  total_uploaded : nat;
  total_present : nat;
  completeness_percentage : Q;
  missing_documents : list string;
  present_documents : list string;
  is_complete : bool
}.

(** [any(self._documents_match(required_doc, doc_name) for doc_name in ...)] *)
Definition is_present (uploaded_doc_names : list string) (required_doc : string) : bool :=
  existsb (_documents_match required_doc) uploaded_doc_names.

(** The loop that fills [missing_documents] and [present_documents]. *)
Fixpoint sort_required (uploaded_doc_names : list string) (required_docs : list string)
    (missing present : list string) : list string * list string :=
  match required_docs with
  | [] => (missing, present)
  | required_doc :: rest =>
      if is_present uploaded_doc_names required_doc
      then sort_required uploaded_doc_names rest missing (present ++ [required_doc])
      else sort_required uploaded_doc_names rest (missing ++ [required_doc]) present
  end.

(** The uploaded documents are given by their ['document_type']. *)
Definition verify_document_completeness (uploaded_documents : list DocumentType)
    (process : ProcessType) : Completeness :=
  let required_docs := dict_get ADGM_PROCESS_REQUIREMENTS (process_type_value process) in
  let uploaded_doc_names := doc_type_value <$> uploaded_documents in
  let '(missing, present) := sort_required uploaded_doc_names required_docs [] [] in
  let total_required := length required_docs in
  let total_present := length present in
  {| process_type := process_type_value process;
     total_required := total_required;
     total_uploaded := length uploaded_documents;
     total_present := total_present;
     completeness_percentage :=
       if (0 <? total_required)%nat
       then ((Z.of_nat total_present # Pos.of_nat total_required) * 100)%Q
       else 100%Q;
     missing_documents := missing;
     present_documents := present;
     is_complete := bool_decide (length missing = 0%nat) |}.

(** [ProcessType(value)]: the member with that value; [None] where the
    enumeration has none and the call raises [ValueError]. *)
Definition ProcessType_of_value (value : string) : option ProcessType :=
  List.find (fun p => String.eqb (process_type_value p) value)
    [COMPANY_INCORPORATION; LICENSE_APPLICATION; EMPLOYMENT_SETUP;
     PROCESS_COMMERCIAL_AGREEMENT; COMPLIANCE_FILING; PROCESS_OTHER].

(** The inner loop of [identify_process_type]: [score += 1] for every
    required document that is present. *)
Definition present_count (doc_type_names required_docs : list string) : nat :=
  fold_left (fun score required_doc =>
               if is_present doc_type_names required_doc then S score else score)
            required_docs 0%nat.

(** [(score / total_required) if total_required > 0 else 0] *)
Definition process_confidence (score total_required : nat) : Q :=
  if (0 <? total_required)%nat
  then Z.of_nat score # Pos.of_nat total_required
  else 0%Q.

(** [process_scores], in the order of the requirement table. *)
Definition process_scores (doc_type_names : list string) : list (string * Q) :=
  (fun '(process, required_docs) =>
     (process,
      process_confidence (present_count doc_type_names required_docs)
                         (length required_docs)))
  <$> ADGM_PROCESS_REQUIREMENTS.

(** [identify_process_type]; the uploaded documents are given by their
    ['document_type'].  The result is [None] where the call would raise. *)
Definition identify_process_type (uploaded_documents : list DocumentType)
  : option (ProcessType * Q) :=
  let doc_type_names := doc_type_value <$> uploaded_documents in
  match process_scores doc_type_names with
  | [] => Some (PROCESS_OTHER, 0%Q)
  | first :: rest =>
      let best := DocumentParser.py_max_by snd first rest in
      if Qle_bool (4 # 10) (snd best)
      then match ProcessType_of_value (fst best) with
           | Some process => Some (process, snd best)
           | None => None
           end
      else Some (PROCESS_OTHER, 0%Q)
  end.

End ChecklistVerifier.

(** ** [src/core/processing_engine.py]: deduplication and scoring *)

Module ProcessingEngine.

(** [str(x)] of an optional string, as an f-string renders it. *)
Definition fmt_optional (o : option string) : string :=
  match o with
  | Some s => s
  | None => "None"
  end.

(** [f"{issue.section}_{issue.issue}_{issue.severity.value}"] *)
Definition signature (i : DocumentIssue) : string :=
  fmt_optional (section i) +:+ "_" +:+ issue i +:+ "_" +:+ severity_value (severity i).

(** The loop of [_deduplicate_issues]: [seen] is the set [seen_issues], the
    result is what is appended to [unique_issues] from here on. *)
Fixpoint dedup_loop (seen : gset string) (issues : list DocumentIssue)
  : list DocumentIssue :=
  match issues with
  | [] => []
  | i :: rest =>
      let sig := signature i in
      if decide (sig ∈ seen)
      then dedup_loop seen rest
      else i :: dedup_loop ({[sig]} ∪ seen) rest
  end.

Definition _deduplicate_issues (issues : list DocumentIssue) : list DocumentIssue :=
  dedup_loop ∅ issues.

(** The key that the specification names: (section, issue text, severity). *)
Definition triple (i : DocumentIssue) : option string * string * SeverityLevel :=
  (section i, issue i, severity i).

(** Deduplication as the specification words it: the first occurrence of
    each triple, in the original order. *)
Fixpoint spec_dedup_loop (seen : list (option string * string * SeverityLevel))
    (issues : list DocumentIssue) : list DocumentIssue :=
  match issues with
  | [] => []
  | i :: rest =>
      if decide (triple i ∈ seen)
      then spec_dedup_loop seen rest
      else i :: spec_dedup_loop (triple i :: seen) rest
  end.

Definition spec_dedup (issues : list DocumentIssue) : list DocumentIssue :=
  spec_dedup_loop [] issues.

(** Whether the issue has a section, and one without an underscore. *)
Definition plain_section (i : DocumentIssue) : bool :=
  match section i with
  | Some s => forallb (fun c => negb (Ascii.eqb c "_")) (PyStr.chars s)
  | None => false
  end.

(** [severity_weights] *)
Definition severity_weights (s : SeverityLevel) : Z :=
  match s with
  | LOW => 1
  | MEDIUM => 3
  | HIGH => 7
  | CRITICAL => 15
  end.

(** [sum(severity_weights.get(issue.severity, 1) for issue in issues)] *)
Definition total_penalty (issues : list DocumentIssue) : Z :=
  foldr (fun i acc => severity_weights (severity i) + acc)%Z 0%Z issues.

(** [max(a, b)] on numbers. *)
Definition py_max (a b : Q) : Q := if Qlt_le_dec a b then b else a.

(** [round(x)] to the nearest integer, ties to the even one. *)
Definition round_half_even (x : Q) : Z :=
  let f := Qfloor x in
  match (x - inject_Z f) ?= (1 # 2) with
  | Lt => f
  | Gt => (f + 1)%Z
  | Eq => if Z.even f then f else (f + 1)%Z
  end%Q.

(** [round(x, 1)] on the exact quantity, a middle going to the even
    neighbour.  The code rounds a double; the two agree except where the
    quantity lies midway between two multiples of 1/10, where the double may
    fall on either side and the code may return the other neighbour. *)
Definition round1 (x : Q) : Q := (round_half_even (x * 10) # 10)%Q.

(** [max(word_count / 100, 1)] *)
Definition per_100_words (word_count : nat) : Q :=
  py_max (Z.of_nat word_count # 100) 1.

Definition _calculate_compliance_score (issues : list DocumentIssue)
    (word_count : nat) : Q :=
  match issues with
  | [] => 100
  | _ =>
      let normalized_penalty := (inject_Z (total_penalty issues) / per_100_words word_count)%Q in
      let score := py_max 0 (100 - normalized_penalty) in
      round1 score
  end.

(** The score as the specification words it: weights Low 1, Medium 3,
    High 7, Critical 15; penalty = sum of weights / max(word_count/100, 1);
    score = max(0, 100 - penalty) before rounding. *)
Definition spec_weight (s : SeverityLevel) : Z :=
  match s with
  | LOW => 1
  | MEDIUM => 3
  | HIGH => 7
  | CRITICAL => 15
  end.

Definition spec_raw_score (issues : list DocumentIssue) (word_count : nat) : Q :=
  let weights := map (fun i => spec_weight (severity i)) issues in
  let penalty := (inject_Z (foldr Z.add 0%Z weights) / Qmax (Z.of_nat word_count # 100) 1)%Q in
  Qmax 0 (100 - penalty).

(** What [parse_document] hands over, as far as the analysis reads it. *)
Record ParsedDoc := mkParsed {
  pd_filename : string;
  pd_text_content : string;
  pd_word_count : nat;
  pd_document_type : DocumentType;
  pd_type_confidence : Q;
  pd_structured_content : StructuredContent
}.

(** [class DocumentAnalysis(BaseModel)] *)
Record DocumentAnalysis := mkAnalysis {
  da_filename : string;
  da_document_type : DocumentType;
  da_confidence : Q;
  da_issues : list DocumentIssue;
  da_compliance_score : Q;
  da_word_count : nat
}.

(** [_analyze_single_document]; the outcomes of the two calls into the
    advisory system are parameters.  The [except] clause of this function
    is the only handler around [check_compliance]. *)
Definition _analyze_single_document (rag_issues red_flags : Result (list DocumentIssue))
    (parsed_doc : ParsedDoc) : DocumentAnalysis :=
  let document_type := pd_document_type parsed_doc in
  let text_content := pd_text_content parsed_doc in
  let attempt :=
    try! compliance_issues :=
      ComplianceChecker.check_compliance text_content document_type
        (pd_structured_content parsed_doc) in
    try! rag := rag_issues in
    try! flags := red_flags in
    let all_issues := compliance_issues ++ rag ++ flags in
    let unique_issues := _deduplicate_issues all_issues in
    let compliance_score :=
      _calculate_compliance_score unique_issues (PyStr.word_count text_content) in
    Ok {| da_filename := pd_filename parsed_doc;
          da_document_type := document_type;
          da_confidence := pd_type_confidence parsed_doc;
          da_issues := unique_issues;
          da_compliance_score := compliance_score;
          da_word_count := pd_word_count parsed_doc |} in
  match attempt with
  | Ok analysis => analysis
  | Raise _ =>
      {| da_filename := pd_filename parsed_doc;
         da_document_type := pd_document_type parsed_doc;
         da_confidence := 0;
         da_issues := [];
         da_compliance_score := 0;
         da_word_count := pd_word_count parsed_doc |}
  end.

(** The two sums of [_calculate_overall_score]: [total_weighted_score] and
    [total_weight]. *)
Definition overall_sums (document_analyses : list DocumentAnalysis) : Q * Q :=
  fold_left (fun '(total_weighted_score, total_weight) analysis =>
               let weight := per_100_words (da_word_count analysis) in
               (total_weighted_score + da_compliance_score analysis * weight,
                total_weight + weight)%Q)
            document_analyses (0%Q, 0%Q).

Definition _calculate_overall_score (document_analyses : list DocumentAnalysis) : Q :=
  match document_analyses with
  | [] => 0%Q
  | _ =>
      let '(total_weighted_score, total_weight) := overall_sums document_analyses in
      if Qlt_le_dec 0 total_weight
      then round1 (total_weighted_score / total_weight)
      else 0%Q
  end.

(** The issues of all analyses that have the given severity. *)
Definition issues_of_severity (document_analyses : list DocumentAnalysis)
    (s : SeverityLevel) : list DocumentIssue :=
  flat_map (fun analysis => filter (fun i => severity i = s) (da_issues analysis))
           document_analyses.

(** The list [recommendations] of [_generate_process_recommendations] before
    its last line cuts it. *)
Definition collected_recommendations (completeness_info : ChecklistVerifier.Completeness)
    (document_analyses : list DocumentAnalysis) (process : ProcessType) : list string :=
  let missing := ChecklistVerifier.missing_documents completeness_info in
  let completeness :=
    if ChecklistVerifier.is_complete completeness_info then []
    else (DocumentAnnotator.pictograph "warning" +:+ " Missing "
          +:+ PyStr.of_nat (length missing) +:+ " required document(s) for "
          +:+ process_type_value process)
         :: ((fun missing_doc =>
                DocumentAnnotator.pictograph "page" +:+ " Upload required document: "
                +:+ missing_doc) <$> take 3 missing) in
  let critical_issues := issues_of_severity document_analyses CRITICAL in
  let high_issues := issues_of_severity document_analyses HIGH in
  let critical :=
    match critical_issues with
    | [] => []
    | _ => [DocumentAnnotator.pictograph "rotating_light" +:+ " Address "
            +:+ PyStr.of_nat (length critical_issues) +:+ " critical compliance issue(s)"]
    end in
  let high :=
    match high_issues with
    | [] => []
    | _ => [DocumentAnnotator.pictograph "red_circle" +:+ " Review "
            +:+ PyStr.of_nat (length high_issues) +:+ " high-priority issue(s)"]
    end in
  let overall_score := _calculate_overall_score document_analyses in
  let overall :=
    if Qlt_le_dec overall_score 60
    then [DocumentAnnotator.pictograph "chart_up" +:+
          " Overall compliance score is below 60% - significant improvements needed"]
    else if Qlt_le_dec overall_score 80
    then [DocumentAnnotator.pictograph "bar_chart" +:+
          " Overall compliance score could be improved - review flagged issues"]
    else [DocumentAnnotator.pictograph "check_mark" +:+
          " Good overall compliance score - minor improvements recommended"] in
  let incorporation :=
    if decide (process = COMPANY_INCORPORATION)
    then [ DocumentAnnotator.pictograph "classical_building" +:+
           " Ensure all incorporation documents are properly executed";
           DocumentAnnotator.pictograph "memo" +:+
           " Verify company name availability with ADGM Registration Authority";
           DocumentAnnotator.pictograph "office" +:+
           " Confirm registered office address is within ADGM jurisdiction" ]
    else [] in
  completeness ++ critical ++ high ++ overall ++ incorporation.

(** The line that [_generate_process_recommendations] adds for an overall
    score of 80 or more. *)
Definition good_score_line : string :=
  DocumentAnnotator.pictograph "check_mark" +:+
  " Good overall compliance score - minor improvements recommended".

(** [return recommendations[:10]] *)
Definition _generate_process_recommendations
    (completeness_info : ChecklistVerifier.Completeness)
    (document_analyses : list DocumentAnalysis) (process : ProcessType) : list string :=
  take 10 (collected_recommendations completeness_info document_analyses process).

(** [class ProcessAnalysis(BaseModel)] *)
Record ProcessAnalysis := mkProcessAnalysis {
  pa_process_type : ProcessType;
  pa_documents_uploaded : nat;
  pa_required_documents : nat;
  pa_missing_documents : list string;
  pa_document_analyses : list DocumentAnalysis;
  pa_overall_compliance_score : Q;
  pa_recommendations : list string
}.

(** [DocumentParser.parse_document], on a document that [Document(file_path)]
    has opened; [filename] is [Path(file_path).name].  The metadata and the
    document object itself are not part of [ParsedDoc]. *)
Definition parse_document (filename : string) (doc : DocumentParser.Docx) : ParsedDoc :=
  let text_content := DocumentParser._extract_text doc in
  let word_count := PyStr.word_count text_content in
  let '(doc_type, confidence) :=
    DocumentParser._identify_document_type DocumentParser._create_type_patterns
      text_content in
  let structured_content := DocumentParser._extract_structured_content doc in
  {| pd_filename := filename;
     pd_text_content := text_content;
     pd_word_count := word_count;
     pd_document_type := doc_type;
     pd_type_confidence := confidence;
     pd_structured_content := structured_content |}.

(** Steps 2 to 5 of [process_documents], on the documents that step 1
    parsed: the process, the completeness report, the analysis of every
    document, the process analysis.  The outcomes of the calls into the
    advisory system are parameters, one pair per document.  The result is
    [None] where the function returns with [success=False]: no parsed
    document, or an exception that its handler catches. *)
Definition analyse_parsed_documents
    (rag_issues red_flags : ParsedDoc -> Result (list DocumentIssue))
    (parsed_documents : list ParsedDoc) : option ProcessAnalysis :=
  match parsed_documents with
  | [] => None
  | _ =>
      let types := pd_document_type <$> parsed_documents in
      match ChecklistVerifier.identify_process_type types with
      | None => None
      | Some (process, process_confidence) =>
          let completeness_info :=
            ChecklistVerifier.verify_document_completeness types process in
          let document_analyses :=
            (fun parsed_doc =>
               _analyze_single_document (rag_issues parsed_doc) (red_flags parsed_doc)
                                        parsed_doc) <$> parsed_documents in
          Some {| pa_process_type := process;
                  pa_documents_uploaded := length parsed_documents;
                  pa_required_documents := ChecklistVerifier.total_required completeness_info;
                  pa_missing_documents := ChecklistVerifier.missing_documents completeness_info;
                  pa_document_analyses := document_analyses;
                  pa_overall_compliance_score := _calculate_overall_score document_analyses;
                  pa_recommendations :=
                    _generate_process_recommendations completeness_info document_analyses
                                                      process |}
      end
  end.

End ProcessingEngine.

(** ** [src/utils/report_generator.py]: the figures of the report *)

Module ReportGenerator.
Import ProcessingEngine.

(** The body of the loop of [_count_issues_by_severity]:
    [counts[severity] = counts.get(severity, 0) + 1]. *)
Definition count_issue (counts : gmap string nat) (i : DocumentIssue) : gmap string nat :=
  let severity := severity_value (severity i) in
  <[severity := (default 0 (counts !! severity) + 1)%nat]> counts.

Definition _count_issues_by_severity (issues : list DocumentIssue) : gmap string nat :=
  fold_left count_issue issues ∅.

(** The dictionary returned by [_create_issues_summary]. *)
Record IssuesSummary := mkIssuesSummary {
  total_issues : nat;
  by_severity : gmap string nat;
  by_document : gmap string nat
}.

Definition _create_issues_summary (analysis : ProcessAnalysis) : IssuesSummary :=
  let all_issues := flat_map da_issues (pa_document_analyses analysis) in
  let severity_counts := _count_issues_by_severity all_issues in
  {| total_issues := length all_issues;
     by_severity := severity_counts;
     by_document :=
       fold_left (fun d doc => <[da_filename doc := length (da_issues doc)]> d)
                 (pa_document_analyses analysis) ∅ |}.

(** The dictionary returned by [_calculate_compliance_metrics]. *)
Record ComplianceMetrics := mkMetrics {
  overall_score : Q;
  document_scores : gmap string Q;
  completeness_percentage : Q;
  average_document_score : Q
}.

Definition _calculate_compliance_metrics (analysis : ProcessAnalysis) : ComplianceMetrics :=
  {| overall_score := pa_overall_compliance_score analysis;
     document_scores :=
       fold_left (fun d doc => <[da_filename doc := da_compliance_score doc]> d)
                 (pa_document_analyses analysis) ∅;
     completeness_percentage :=
       if (0 <? pa_required_documents analysis)%nat
       then (((Z.of_nat (pa_required_documents analysis)
               - Z.of_nat (length (pa_missing_documents analysis)))
              # Pos.of_nat (pa_required_documents analysis)) * 100)%Q
       else 100%Q;
     average_document_score :=
       match pa_document_analyses analysis with
       | [] => 0%Q
       | _ =>
           (fold_left Qplus (da_compliance_score <$> pa_document_analyses analysis) 0
            / inject_Z (Z.of_nat (length (pa_document_analyses analysis))))%Q
       end |}.

Definition _get_score_class (score : Q) : string :=
  if Qle_bool 80 score then "good"
  else if Qle_bool 60 score then "warning"
  else "poor".

End ReportGenerator.

(* ===================================================================== *)
(** * Part II.  Properties                                                *)
(* ===================================================================== *)

(** ** Scoring *)

Section Scoring.
Import ProcessingEngine.
Local Open Scope Q_scope.

Lemma py_max_le_l a b : a <= py_max a b.
Proof. unfold py_max. destruct (Qlt_le_dec a b); lra. Qed.

Lemma py_max_le_r a b : b <= py_max a b.
Proof. unfold py_max. destruct (Qlt_le_dec a b); lra. Qed.

Lemma py_max_lub a b c : a <= c -> b <= c -> py_max a b <= c.
Proof. unfold py_max. destruct (Qlt_le_dec a b); lra. Qed.

Lemma round_half_even_near x :
  inject_Z (round_half_even x) - x <= 1 # 2 /\ x - inject_Z (round_half_even x) <= 1 # 2.
Proof.
  unfold round_half_even.
  pose proof (Qfloor_le x) as Hlo. pose proof (Qlt_floor x) as Hhi.
  rewrite inject_Z_plus in Hhi. change (inject_Z 1) with 1 in Hhi.
  destruct (Qcompare_spec (x - inject_Z (Qfloor x)) (1 # 2)) as [He|Hl|Hg].
  - destruct (Z.even (Qfloor x)).
    + lra.
    + rewrite inject_Z_plus. change (inject_Z 1) with 1. lra.
  - lra.
  - rewrite inject_Z_plus. change (inject_Z 1) with 1. lra.
Qed.

Lemma round_half_even_range (lo hi : Z) x :
  inject_Z lo <= x -> x <= inject_Z hi ->
  (lo <= round_half_even x <= hi)%Z.
Proof.
  intros Hlo Hhi.
  pose proof (Qfloor_resp_le _ _ Hlo) as Flo. rewrite Qfloor_Z in Flo.
  pose proof (Qfloor_resp_le _ _ Hhi) as Fhi. rewrite Qfloor_Z in Fhi.
  assert (Hup : 1 # 2 <= x - inject_Z (Qfloor x) -> (Qfloor x + 1 <= hi)%Z).
  { intros Hhalf.
    destruct (Z_lt_le_dec (Qfloor x) hi) as [Hlt|Hge]; [lia|].
    exfalso. assert (inject_Z hi <= inject_Z (Qfloor x)) by (rewrite <- Zle_Qle; lia).
    lra. }
  unfold round_half_even.
  destruct (Qcompare_spec (x - inject_Z (Qfloor x)) (1 # 2)) as [He|Hl|Hg].
  - destruct (Z.even (Qfloor x)); [lia|]. split; [lia|]. apply Hup. lra.
  - lia.
  - split; [lia|]. apply Hup. lra.
Qed.

Lemma round1_near x : Qabs (round1 x - x) <= 1 # 20.
Proof.
  unfold round1. destruct (round_half_even_near (x * 10)) as [H1 H2].
  set (n := round_half_even (x * 10)) in *.
  assert (E : n # 10 == inject_Z n * (1 # 10)).
  { unfold Qeq, Qmult, inject_Z; simpl. lia. }
  rewrite E. apply Qabs_case; intros _; lra.
Qed.

Lemma round1_range x : 0 <= x -> x <= 100 -> 0 <= round1 x /\ round1 x <= 100.
Proof.
  intros H0 H100. unfold round1.
  destruct (round_half_even_range 0 1000 (x * 10)) as [Hlo Hhi].
  - change (inject_Z 0) with 0. lra.
  - change (inject_Z 1000) with 1000. lra.
  - unfold Qle; simpl. lia.
Qed.

Lemma total_penalty_nonneg issues : (0 <= total_penalty issues)%Z.
Proof.
  induction issues as [|i rest IH]; simpl; [lia|].
  destruct (severity i); simpl; lia.
Qed.

Lemma per_100_words_pos wc : 1 <= per_100_words wc.
Proof. apply py_max_le_r. Qed.

Lemma py_max_Qmax a b : py_max a b == Qmax a b.
Proof.
  unfold py_max. destruct (Qlt_le_dec a b) as [Hlt|Hge].
  - symmetry. apply Q.max_r. lra.
  - symmetry. apply Q.max_l. lra.
Qed.

Lemma round_half_even_comp x y : x == y -> round_half_even x = round_half_even y.
Proof.
  intros E. unfold round_half_even. rewrite (Qfloor_comp _ _ E).
  assert (C : (x - inject_Z (Qfloor y) ?= 1 # 2) = (y - inject_Z (Qfloor y) ?= 1 # 2)).
  { apply Qcompare_comp; [rewrite E|]; reflexivity. }
  rewrite C. reflexivity.
Qed.

Lemma round1_comp x y : x == y -> round1 x = round1 y.
Proof.
  intros E. unfold round1. rewrite (round_half_even_comp (x * 10) (y * 10)); [reflexivity|].
  rewrite E. reflexivity.
Qed.

Lemma total_penalty_spec issues :
  total_penalty issues = foldr Z.add 0%Z (map (fun i => spec_weight (severity i)) issues).
Proof.
  induction issues as [|i rest IH]; simpl; [reflexivity|].
  rewrite IH. destruct (severity i); reflexivity.
Qed.

Lemma raw_score_agrees issues wc :
  py_max 0 (100 - inject_Z (total_penalty issues) / per_100_words wc)
  == spec_raw_score issues wc.
Proof.
  unfold spec_raw_score, per_100_words. cbv zeta.
  rewrite <- total_penalty_spec, py_max_Qmax.
  apply Q.max_compat; [reflexivity|].
  rewrite (py_max_Qmax (Z.of_nat wc # 100) 1). reflexivity.
Qed.

Lemma spec_raw_score_range issues wc :
  0 <= spec_raw_score issues wc /\ spec_raw_score issues wc <= 100.
Proof.
  rewrite <- raw_score_agrees. split; [apply py_max_le_l|].
  apply py_max_lub; [lra|].
  pose proof (total_penalty_nonneg issues) as Hp.
  pose proof (per_100_words_pos wc) as Hw.
  assert (0 <= inject_Z (total_penalty issues))
    by (change 0 with (inject_Z 0); rewrite <- Zle_Qle; lia).
  assert (0 <= inject_Z (total_penalty issues) / per_100_words wc).
  { apply Qle_shift_div_l; lra. }
  lra.
Qed.

(** C1.  The per-document compliance score is
    max(0, 100 - (sum of the severity weights Low 1, Medium 3, High 7,
    Critical 15) / max(word_count/100, 1)) rounded to one decimal place:
    it is a multiple of 1/10 at distance at most 1/20 from that quantity,
    and it lies between 0 and 100.  Which of two neighbours is taken when
    the quantity lies midway between them is no part of the claim; the code
    rounds the double that it has computed. *)
Theorem C1_compliance_score_formula (issues : list DocumentIssue) (word_count : nat) :
  let score := _calculate_compliance_score issues word_count in
  let raw := spec_raw_score issues word_count in
  (exists n : Z, score == n # 10) /\
  Qabs (score - raw) <= 1 # 20 /\
  0 <= score /\ score <= 100.
Proof.
  cbv zeta.
  assert (E : _calculate_compliance_score issues word_count
              == round1 (spec_raw_score issues word_count)).
  { destruct issues as [|i rest].
    - assert (R : spec_raw_score [] word_count == 100).
      { unfold spec_raw_score. simpl.
        set (m := Qmax (Z.of_nat word_count # 100) 1).
        assert (Z0 : inject_Z 0 / m == 0).
        { unfold Qdiv. change (inject_Z 0) with 0. lra. }
        transitivity (Qmax 0 (100 - 0)).
        - apply Q.max_compat; [reflexivity|]. rewrite Z0. reflexivity.
        - rewrite Q.max_r; lra. }
      rewrite (round1_comp _ _ R). reflexivity.
    - unfold _calculate_compliance_score. cbv zeta.
      rewrite (round1_comp _ _ (raw_score_agrees (i :: rest) word_count)).
      reflexivity. }
  destruct (spec_raw_score_range issues word_count) as [H0 H100].
  destruct (round1_range _ H0 H100) as [R0 R100].
  split; [|split; [|split]].
  - exists (round_half_even (spec_raw_score issues word_count * 10)).
    rewrite E. reflexivity.
  - rewrite E. apply round1_near.
  - rewrite E. exact R0.
  - rewrite E. exact R100.
Qed.

End Scoring.

(** ** Deduplication *)

Section Dedup.
Import ProcessingEngine.

Lemma dedup_loop_sublist seen (l : list DocumentIssue) :
  dedup_loop seen l `sublist_of` l.
Proof.
  revert seen. induction l as [|x rest IH]; intros seen; simpl.
  - constructor.
  - destruct (decide (signature x ∈ seen)).
    + apply sublist_cons, IH.
    + apply sublist_skip, IH.
Qed.

Lemma dedup_loop_elem seen (l : list DocumentIssue) (i : DocumentIssue) :
  i ∈ dedup_loop seen l <->
  exists l1 l2, l = l1 ++ i :: l2 /\ (signature i ∉ seen) /\
                ~ (signature i ∈ signature <$> l1).
Proof.
  revert seen. induction l as [|x rest IH]; intros seen; simpl.
  - split.
    + intros H. inversion H.
    + intros (l1 & l2 & E & _). destruct l1; discriminate.
  - destruct (decide (signature x ∈ seen)) as [Hin|Hnin].
    + rewrite IH. split.
      * intros (l1 & l2 & -> & Hs & Hl1). exists (x :: l1), l2.
        split; [reflexivity|]. split; [exact Hs|].
        rewrite fmap_cons, not_elem_of_cons. split; [congruence|exact Hl1].
      * intros (l1 & l2 & E & Hs & Hl1). destruct l1 as [|y l1]; simpl in E.
        -- injection E as -> ->. contradiction.
        -- injection E as -> ->. exists l1, l2. split; [reflexivity|].
           split; [exact Hs|]. rewrite fmap_cons, not_elem_of_cons in Hl1. tauto.
    + rewrite elem_of_cons, IH. split.
      * intros [->|(l1 & l2 & -> & Hs & Hl1)].
        -- exists [], rest. split; [reflexivity|]. split; [exact Hnin|].
           simpl. apply not_elem_of_nil.
        -- rewrite not_elem_of_union, not_elem_of_singleton in Hs.
           exists (x :: l1), l2. split; [reflexivity|].
           split; [tauto|]. rewrite fmap_cons, not_elem_of_cons. tauto.
      * intros (l1 & l2 & E & Hs & Hl1). destruct l1 as [|y l1]; simpl in E.
        -- injection E as -> ->. left. reflexivity.
        -- injection E as -> ->. right. exists l1, l2. split; [reflexivity|].
           rewrite fmap_cons, not_elem_of_cons in Hl1.
           rewrite not_elem_of_union, not_elem_of_singleton. tauto.
Qed.

Lemma dedup_loop_fresh seen (l : list DocumentIssue) (i : DocumentIssue) :
  i ∈ dedup_loop seen l -> signature i ∉ seen.
Proof. rewrite dedup_loop_elem. intros (_ & _ & _ & H & _). exact H. Qed.

Lemma dedup_loop_NoDup seen (l : list DocumentIssue) :
  NoDup (signature <$> dedup_loop seen l).
Proof.
  revert seen. induction l as [|x rest IH]; intros seen; simpl.
  - constructor.
  - destruct (decide (signature x ∈ seen)); [apply IH|].
    rewrite fmap_cons. constructor; [|apply IH].
    rewrite list_elem_of_fmap. intros (j & Hj & Hin).
    apply dedup_loop_fresh in Hin.
    rewrite not_elem_of_union, not_elem_of_singleton in Hin. intuition congruence.
Qed.

(** A list whose signatures are pairwise distinct and unseen passes the loop
    unchanged. *)
Lemma dedup_loop_fixed seen (l : list DocumentIssue) :
  NoDup (signature <$> l) ->
  (forall i, i ∈ l -> signature i ∉ seen) ->
  dedup_loop seen l = l.
Proof.
  revert seen. induction l as [|x rest IH]; intros seen Hnd Hseen; simpl; [reflexivity|].
  rewrite fmap_cons in Hnd. apply NoDup_cons in Hnd as [Hx Hnd].
  destruct (decide (signature x ∈ seen)) as [Hin|_].
  - exfalso. apply (Hseen x); [left|exact Hin].
  - f_equal. apply IH; [exact Hnd|].
    intros i Hi. assert (signature i ∉ seen) by (apply Hseen; right; exact Hi).
    assert (signature i <> signature x).
    { intros E. apply Hx. rewrite <- E. apply list_elem_of_fmap. eauto. }
    rewrite not_elem_of_union, not_elem_of_singleton. tauto.
Qed.

(** The signature is a function of the triple. *)
Lemma signature_of_triple (i j : DocumentIssue) :
  triple i = triple j -> signature i = signature j.
Proof. unfold triple, signature. intros E. injection E as -> -> ->. reflexivity. Qed.

Lemma NoDup_triple_of_signature (l : list DocumentIssue) :
  NoDup (signature <$> l) -> NoDup (triple <$> l).
Proof.
  induction l as [|x rest IH]; [constructor|].
  rewrite !fmap_cons. intros [Hx Hnd]%NoDup_cons. constructor; [|auto].
  rewrite list_elem_of_fmap. intros (j & Hj & Hin). apply Hx.
  rewrite list_elem_of_fmap. exists j. split; [|exact Hin].
  apply signature_of_triple. exact Hj.
Qed.

(** Where no two different triples of the list share a signature, the
    loop keeps the first occurrence of each triple. *)
Lemma dedup_loop_agrees seen seenT (l : list DocumentIssue) :
  (forall i, i ∈ l -> (signature i ∈ seen <-> triple i ∈ seenT)) ->
  (forall i j, i ∈ l -> j ∈ l -> signature i = signature j -> triple i = triple j) ->
  dedup_loop seen l = spec_dedup_loop seenT l.
Proof.
  revert seen seenT. induction l as [|x rest IH]; intros seen seenT Hseen Hinj; simpl;
    [reflexivity|].
  assert (Hx : signature x ∈ seen <-> triple x ∈ seenT) by (apply Hseen; left).
  assert (Hrest : forall i j, i ∈ rest -> j ∈ rest ->
                              signature i = signature j -> triple i = triple j).
  { intros i j Hi Hj. apply Hinj; right; assumption. }
  destruct (decide (signature x ∈ seen)) as [Hin|Hnin];
    destruct (decide (triple x ∈ seenT)) as [HinT|HninT]; try tauto.
  - apply IH; [|exact Hrest]. intros i Hi. apply Hseen. right. exact Hi.
  - f_equal. apply IH; [|exact Hrest]. intros i Hi.
    rewrite elem_of_union, elem_of_singleton, elem_of_cons.
    assert (Hi' : signature i ∈ seen <-> triple i ∈ seenT) by (apply Hseen; right; exact Hi).
    assert (Hsame : signature i = signature x <-> triple i = triple x).
    { split; [|apply signature_of_triple].
      apply Hinj; [right; exact Hi|left]. }
    tauto.
Qed.

Lemma dedup_agrees_without_collisions (l : list DocumentIssue) :
  (forall i j, i ∈ l -> j ∈ l -> signature i = signature j -> triple i = triple j) ->
  _deduplicate_issues l = spec_dedup l.
Proof.
  intros Hinj. apply dedup_loop_agrees; [|exact Hinj].
  intros i _. rewrite elem_of_nil. split; [|tauto]. apply not_elem_of_empty.
Qed.

(** C2 at a failing input.  [_deduplicate_issues] means to key an issue
    on its section, its text and its severity, but joins the three by
    underscores into one string and writes a missing section as None.  Two
    issues with different (section, text, severity) triples then have the
    same key: section "Share_Capital" with text "missing" and section
    "Share" with text "Capital_missing"; no section and the section named
    "None".  In a list of two such issues the second one, the first
    occurrence of its triple, is dropped: the result is not the list of the
    first occurrences of each triple, which keeps both. *)
Theorem C2_distinct_triples_collide :
  let a := mkIssue "Articles of Association" (Some "Share_Capital") "missing"
             HIGH None None None in
  let b := mkIssue "Articles of Association" (Some "Share") "Capital_missing"
             HIGH None None None in
  let c := mkIssue "Articles of Association" None "Undated" LOW None None None in
  let d := mkIssue "Articles of Association" (Some "None") "Undated" LOW
             None None None in
  triple a <> triple b /\
  signature a = signature b /\
  _deduplicate_issues [a; b] = [a] /\
  spec_dedup [a; b] = [a; b] /\
  _deduplicate_issues [a; b] <> spec_dedup [a; b] /\
  triple c <> triple d /\
  signature c = signature d /\
  _deduplicate_issues [c; d] = [c] /\
  spec_dedup [c; d] = [c; d].
Proof.
  cbv zeta. split; [discriminate|]. split; [reflexivity|].
  split; [vm_compute; reflexivity|]. split; [vm_compute; reflexivity|].
  split; [vm_compute; discriminate|].
  split; [discriminate|]. split; [reflexivity|].
  split; vm_compute; reflexivity.
Qed.

End Dedup.


(** ** Strings and the matcher *)

Section MatcherFacts.
Import PyStr Re.

Lemma chars_append (a b : string) : chars (a +:+ b) = chars a ++ chars b.
Proof.
  unfold chars. induction a as [|c a IH]; [reflexivity|].
  change (String c a +:+ b) with (String c (a +:+ b)). simpl. rewrite IH. reflexivity.
Qed.

Lemma chars_lower (s : string) : chars (lower s) = lower_chars (chars s).
Proof. unfold lower, chars, str. apply list_ascii_of_string_of_list_ascii. Qed.

Lemma lower_chars_app (l1 l2 : list ascii) :
  lower_chars (l1 ++ l2) = lower_chars l1 ++ lower_chars l2.
Proof. unfold lower_chars. apply map_app. Qed.

(** A match at some position makes [finditer] report at least one match. *)
Lemma finditer_from_found (r : regex) (pre s : list ascii) (prev : option ascii) :
  (forall p, is_Some (match_here r p s)) ->
  finditer_from r prev (pre ++ s) 0 <> [].
Proof.
  intros Hm. revert prev. induction pre as [|c pre IH]; intros prev.
  - simpl. destruct (Hm prev) as [m Em].
    destruct s as [|c s']; simpl; rewrite Em; discriminate.
  - simpl. destruct (match_here r prev (c :: pre ++ s)); [discriminate|].
    apply IH.
Qed.

(** Every pattern of the sources lies in the fragment that [compile]
    reads. *)
Lemma all_patterns_compile :
  forallb (fun pattern => bool_decide (is_Some (compile pattern)))
    (ComplianceChecker.incorrect_jurisdictions ++ ComplianceChecker.adgm_patterns
     ++ flat_map ComplianceChecker.clause_patterns
          (ComplianceChecker.required_clauses ARTICLES_OF_ASSOCIATION
           ++ ComplianceChecker.required_clauses MEMORANDUM_OF_ASSOCIATION)
     ++ ComplianceChecker.ambiguous_patterns
     ++ (fst <$> ComplianceChecker.essential_info)
     ++ ComplianceChecker.date_patterns
     ++ ["adgm\s*-?\s*\d+"; "^\d+\."]
     ++ flat_map snd DocumentParser._create_type_patterns) = true.
Proof. vm_compute. reflexivity. Qed.

(** The matcher on a few texts, with the answers of [re]: the optional
    letter is given back when the lookahead refuses the longer match; a word
    boundary is required before "may"; a quantifier with bounds gives
    characters back until the rest of the pattern fits. *)
Example finditer_lookahead :
  re_finditer "abu\s+dhabi\s+courts?(?!\s+global\s+market)"
    "abu dhabi courts global market; abu dhabi court global market; abu dhabi courts"
  = ["abu dhabi court"; "abu dhabi courts"].
Proof. vm_compute. reflexivity. Qed.

Example finditer_word_boundary :
  re_finditer "\bmay\s+(?:be|have|do)" "may be, dismay be, may  have, may does, mayhave"
  = ["may be"; "may  have"; "may do"].
Proof. vm_compute. reflexivity. Qed.

Example finditer_bounded :
  re_finditer "\d{1,2}/\d{1,2}/\d{2,4}" "on 12/3/2024 and 123/45/67890 1/2/3"
  = ["12/3/2024"; "23/45/6789"].
Proof. vm_compute. reflexivity. Qed.

(** *** What a pattern without alternatives matches

    The matcher finds a match of [chain items] exactly where
    [chain_matches] says that there is one. *)

Lemma rep_is_Some {A} (cc : cclass) (lo : nat) (hi : option nat) (prev : option ascii)
    (s : list ascii) (k : option ascii -> list ascii -> option A) :
  (forall p q t, is_Some (k p t) <-> is_Some (k q t)) ->
  is_Some (rep cc lo hi prev s k) <->
  exists n, lo <= n /\ within hi n /\ n <= length s /\
            forallb (cmatch cc) (take n s) = true /\
            is_Some (k None (drop n s)).
Proof.
  intros Hk. revert lo hi prev. induction s as [|c s IH]; intros lo hi prev.
  - simpl. split.
    + intros H. destruct lo; [|destruct H; discriminate].
      exists 0. repeat split; try lia; try (destruct hi; simpl; lia).
      apply (Hk prev); exact H.
    + intros (n & Hlo & _ & Hn & _ & H). simpl in Hn.
      assert (n = 0) as -> by lia. assert (lo = 0) as -> by lia.
      apply (Hk None). exact H.
  - cbn [rep].
    assert (Hstop : is_Some (match lo with 0 => k prev (c :: s) | S _ => None end)
                    <-> lo = 0 /\ is_Some (k None (c :: s))).
    { destruct lo.
      - rewrite (Hk prev None). tauto.
      - split; [intros [? ?]; discriminate|intros [? _]; discriminate]. }
    assert (Hstep : (negb (exhausted hi) && cmatch cc c = true /\
                     is_Some (rep cc (pred lo) (pred <$> hi) (Some c) s k)) <->
                    exists n, lo <= S n /\ within hi (S n) /\ S n <= length (c :: s) /\
                              forallb (cmatch cc) (take (S n) (c :: s)) = true /\
                              is_Some (k None (drop (S n) (c :: s)))).
    { rewrite IH. cbn [take drop forallb length]. split.
      - intros (Hc & n & Hlo & Hhi & Hn & Hall & H).
        apply andb_true_iff in Hc as [Hex Hc]. exists n.
        repeat split; try assumption; try lia.
        + destruct hi as [[|h]|]; simpl in *; try discriminate; lia.
        + rewrite Hc. exact Hall.
      - intros (n & Hlo & Hhi & Hn & Hall & H).
        apply andb_true_iff in Hall as [Hc Hall]. split.
        + rewrite Hc. destruct hi as [[|h]|]; simpl in *; try reflexivity; lia.
        + exists n. repeat split; try assumption; try lia.
          destruct hi as [[|h]|]; simpl in *; lia. }
    split.
    + intros H.
      destruct (negb (exhausted hi) && cmatch cc c) eqn:Ec.
      * destruct (rep cc (pred lo) (pred <$> hi) (Some c) s k) eqn:Er.
        -- destruct (proj1 Hstep) as (n & Hn); [split; [reflexivity|eauto]|].
           exists (S n). exact Hn.
        -- apply Hstop in H as [-> H]. exists 0.
           repeat split; try (simpl; lia); try (destruct hi; simpl; lia). exact H.
      * apply Hstop in H as [-> H]. exists 0.
        repeat split; try (simpl; lia); try (destruct hi; simpl; lia). exact H.
    + intros (n & Hlo & Hhi & Hn & Hall & H).
      destruct n as [|n].
      * assert (lo = 0) as -> by lia.
        assert (Hs : is_Some (k prev (c :: s))) by (apply (Hk prev None); exact H).
        destruct (negb (exhausted hi) && cmatch cc c); [|exact Hs].
        destruct (rep cc _ _ _ s k); [eauto|exact Hs].
      * destruct (proj2 Hstep) as [Hc Hr]; [exists n; tauto|].
        rewrite Hc. destruct Hr as [a ->]. eauto.
Qed.

Lemma chain_matches_iff (items : list item) (P Q : list ascii -> Prop) (s : list ascii) :
  (forall t, P t <-> Q t) -> chain_matches items P s <-> chain_matches items Q s.
Proof.
  intros HPQ. revert s. induction items as [|[[cc lo] hi] items IH]; intros s; simpl.
  - apply HPQ.
  - split; intros (n & H1 & H2 & H3 & H4 & H5); exists n; repeat split; try assumption;
      apply IH; exact H5.
Qed.

Lemma chain_matches_app (a b : list item) (Q : list ascii -> Prop) (s : list ascii) :
  chain_matches (a ++ b) Q s <-> chain_matches a (chain_matches b Q) s.
Proof.
  revert s. induction a as [|[[cc lo] hi] a IH]; intros s; simpl; [tauto|].
  split; intros (n & H1 & H2 & H3 & H4 & H5); exists n; repeat split; try assumption;
    apply IH; exact H5.
Qed.

Lemma run_chain {A} (items : list item) (prev : option ascii) (s : list ascii)
    (k : option ascii -> list ascii -> option A) :
  (forall p q t, is_Some (k p t) <-> is_Some (k q t)) ->
  is_Some (run (chain items) A prev s k) <->
  chain_matches items (fun t => is_Some (k None t)) s.
Proof.
  intros Hk. revert prev s. induction items as [|[[cc lo] hi] items IH]; intros prev s.
  - simpl. apply Hk.
  - cbn [chain run]. rewrite rep_is_Some.
    + split; intros (n & H1 & H2 & H3 & H4 & H5); exists n;
        (split; [exact H1|]); (split; [exact H2|]); (split; [exact H3|]);
        (split; [exact H4|]); apply (IH None (drop n s)); exact H5.
    + intros p q t. rewrite !IH. reflexivity.
Qed.

Lemma match_here_chain (items : list item) (prev : option ascii) (s : list ascii) :
  is_Some (match_here (chain items) prev s) <-> chain_matches items (fun _ => True) s.
Proof.
  unfold match_here.
  rewrite <- (chain_matches_iff items (fun t => is_Some ((fun _ rest => Some rest) (@None ascii) t))).
  - rewrite <- (run_chain items prev s (fun _ rest => Some rest)).
    + destruct (run _ _ _ _ _); split; intros [? ?]; try discriminate; eauto.
    + intros; split; eauto.
  - intros t. split; eauto.
Qed.

Lemma chain_char (c : ascii) (items : list item) (Q : list ascii -> Prop) (s : list ascii) :
  chain_matches ((CChar c, 1, Some 1) :: items) Q s <->
  exists s', s = c :: s' /\ chain_matches items Q s'.
Proof.
  simpl. split.
  - intros (n & H1 & H2 & H3 & H4 & H5). assert (n = 1) as -> by lia.
    destruct s as [|a s']; [simpl in H3; lia|]. simpl in H4, H5.
    rewrite andb_true_r in H4. apply Ascii.eqb_eq in H4 as ->. eauto.
  - intros (s' & -> & H). exists 1. simpl.
    rewrite Ascii.eqb_refl. repeat split; try lia. exact H.
Qed.

Lemma starts_with_drop (w s : list ascii) :
  starts_with w s = true <-> s = w ++ drop (length w) s.
Proof.
  revert s. induction w as [|a w IH]; intros s; simpl.
  - rewrite drop_0. tauto.
  - destruct s as [|b s]; [split; discriminate|].
    destruct (Ascii.eqb_spec a b) as [->|Hne].
    + rewrite IH. simpl. split; [intros <-; reflexivity|intros E; injection E as E; exact E].
    + split; [discriminate|]. simpl. intros E. injection E as E _. congruence.
Qed.

Lemma chain_lit (w : list ascii) (items : list item) (Q : list ascii -> Prop)
    (s : list ascii) :
  chain_matches (lit w ++ items) Q s <->
  starts_with w s = true /\ chain_matches items Q (drop (length w) s).
Proof.
  revert s. induction w as [|a w IH]; intros s.
  - simpl. rewrite drop_0. tauto.
  - change (lit (a :: w) ++ items) with ((CChar a, 1, Some 1) :: (lit w ++ items)).
    rewrite chain_char. split.
    + intros (s' & -> & H). apply IH in H as [H1 H2]. simpl.
      rewrite Ascii.eqb_refl. tauto.
    + intros [H1 H2]. destruct s as [|b s]; [discriminate|]. simpl in H1, H2.
      destruct (Ascii.eqb_spec a b) as [->|]; [|discriminate].
      exists s. split; [reflexivity|]. apply IH. tauto.
Qed.

Lemma chain_optional (c : ascii) (items : list item) (Q : list ascii -> Prop)
    (s : list ascii) :
  chain_matches ((CChar c, 0, Some 1) :: items) Q s <->
  chain_matches items Q s \/ exists s', s = c :: s' /\ chain_matches items Q s'.
Proof.
  simpl. split.
  - intros (n & H1 & H2 & H3 & H4 & H5). destruct n as [|n].
    + left. rewrite drop_0 in H5. exact H5.
    + assert (n = 0) as -> by lia. right.
      destruct s as [|a s']; [simpl in H3; lia|]. simpl in H4, H5.
      rewrite andb_true_r in H4. apply Ascii.eqb_eq in H4 as ->. eauto.
  - intros [H|(s' & -> & H)].
    + exists 0. rewrite drop_0. repeat split; try lia. exact H.
    + exists 1. simpl. rewrite Ascii.eqb_refl. repeat split; try lia. exact H.
Qed.

Lemma lstrip_chars_drop (n : nat) (s : list ascii) :
  forallb is_space (take n s) = true ->
  lstrip_chars (drop n s) = lstrip_chars s.
Proof.
  revert s. induction n as [|n IH]; intros s H; [rewrite drop_0; reflexivity|].
  destruct s as [|c s]; [reflexivity|]. simpl in H. apply andb_true_iff in H as [Hc H].
  simpl. rewrite Hc. apply IH. exact H.
Qed.

Lemma lstrip_chars_spec (s : list ascii) :
  exists n, n <= length s /\ forallb is_space (take n s) = true /\
            lstrip_chars s = drop n s.
Proof.
  induction s as [|c s (n & H1 & H2 & H3)].
  - exists 0. simpl. repeat split; lia.
  - simpl. destruct (is_space c) eqn:Ec.
    + exists (S n). simpl. rewrite Ec. repeat split; [lia|exact H2|exact H3].
    + exists 0. simpl. repeat split; lia.
Qed.

Lemma lstrip_chars_fixed (c : ascii) (s : list ascii) :
  is_space c = false -> lstrip_chars (c :: s) = c :: s.
Proof. intros H. simpl. rewrite H. reflexivity. Qed.

(** One or more blanks before a part of the pattern that starts with a
    character other than a blank. *)
Lemma chain_blanks (items : list item) (Q : list ascii -> Prop) (s : list ascii) :
  (forall t, chain_matches items Q t -> exists c t', t = c :: t' /\ is_space c = false) ->
  chain_matches ((CSpace, 1, None) :: items) Q s <->
  exists c rest, s = c :: rest /\ is_space c = true /\
                 chain_matches items Q (lstrip_chars rest).
Proof.
  intros Hhead. cbn [chain_matches]. change (cmatch CSpace) with is_space. split.
  - intros (n & H1 & _ & H3 & H4 & H5).
    destruct s as [|c rest]; [simpl in H3; lia|].
    destruct n as [|n]; [lia|]. cbn [take drop forallb] in H4, H5.
    apply andb_true_iff in H4 as [Hc H4].
    exists c, rest. split; [reflexivity|]. split; [exact Hc|].
    destruct (Hhead _ H5) as (c0 & t' & E & Hc0).
    rewrite <- (lstrip_chars_drop n rest H4), E, lstrip_chars_fixed by exact Hc0.
    rewrite <- E. exact H5.
  - intros (c & rest & -> & Hc & H).
    destruct (lstrip_chars_spec rest) as (n & H1 & H2 & H3).
    exists (S n). cbn [take drop forallb length].
    rewrite Hc, H2, <- H3. repeat split; try lia. exact H.
Qed.

Lemma phrase_items_head (w : list ascii) (ws : list (list ascii)) (t : list ascii) :
  word_ok w ->
  chain_matches (phrase_items (w :: ws)) (fun _ => True) t ->
  exists c t', t = c :: t' /\ is_space c = false.
Proof.
  intros (c & w' & -> & Hc). cbn [phrase_items]. rewrite chain_lit.
  intros [H _]. destruct t as [|b t']; [discriminate|]. simpl in H.
  destruct (Ascii.eqb_spec c b) as [->|]; [|discriminate]. eauto.
Qed.

Lemma phrase_items_words_at (words : list (list ascii)) (s : list ascii) :
  Forall word_ok words ->
  chain_matches (phrase_items words) (fun _ => True) s <-> words_at words s = true.
Proof.
  intros Hok. revert s. induction Hok as [|w ws Hw Hws IH]; intros s.
  - simpl. tauto.
  - cbn [phrase_items words_at]. rewrite chain_lit, andb_true_iff.
    destruct ws as [|w2 ws2].
    + simpl. tauto.
    + rewrite chain_blanks.
      * split.
        -- intros [H1 (c & rest & E & Hc & H)]. split; [exact H1|].
           rewrite E, Hc. simpl. apply IH. exact H.
        -- intros [H1 H]. split; [exact H1|].
           destruct (drop (length w) s) as [|c rest]; [discriminate|].
           apply andb_true_iff in H as [Hc H]. exists c, rest.
           split; [reflexivity|]. split; [exact Hc|]. apply IH. exact H.
      * intros t. apply phrase_items_head. inversion Hws; assumption.
Qed.

(** A last part of the pattern that may match nothing does not count. *)
Lemma chain_trailing_optional (items : list item) (cc : cclass) (hi : option nat)
    (s : list ascii) :
  chain_matches (items ++ [(cc, 0, hi)]) (fun _ => True) s <->
  chain_matches items (fun _ => True) s.
Proof.
  rewrite chain_matches_app. apply chain_matches_iff. intros t. simpl.
  split; [tauto|]. intros _. exists 0.
  repeat split; try lia; destruct hi; simpl; lia.
Qed.

Lemma existsb_pointwise {A} (f g : A -> bool) (l : list A) :
  (forall a, f a = g a) -> existsb f l = existsb g l.
Proof.
  intros E. induction l as [|a l IH]; simpl; [reflexivity|]. rewrite E, IH. reflexivity.
Qed.

Lemma existsb_orb {A} (f g : A -> bool) (l : list A) :
  existsb (fun a => f a || g a) l = existsb f l || existsb g l.
Proof.
  induction l as [|a l IH]; simpl; [reflexivity|]. rewrite IH.
  destruct (f a), (g a), (existsb f l), (existsb g l); reflexivity.
Qed.

Lemma search_from_chain (items : list item) (prev : option ascii) (s : list ascii)
    (words : list (list (list ascii))) :
  (forall t, chain_matches items (fun _ => True) t <->
             existsb (fun ws => words_at ws t) words = true) ->
  is_Some (search_from (chain items) prev s) <->
  existsb (fun ws => occurs_in ws s) words = true.
Proof.
  intros Hm. revert prev. induction s as [|c s IH]; intros prev.
  - cbn [search_from].
    assert (E : existsb (fun ws => occurs_in ws []) words
                = existsb (fun ws => words_at ws []) words).
    { apply existsb_pointwise. intros ws. simpl. apply orb_false_r. }
    rewrite E, <- Hm, <- (match_here_chain items prev).
    destruct (match_here _ _ _); split; intros [? ?]; try discriminate; eauto.
  - cbn [search_from].
    assert (E : existsb (fun ws => occurs_in ws (c :: s)) words
                = existsb (fun ws => words_at ws (c :: s)) words
                  || existsb (fun ws => occurs_in ws s) words).
    { rewrite <- existsb_orb. apply existsb_pointwise. reflexivity. }
    rewrite E, orb_true_iff, <- Hm, <- (match_here_chain items prev), <- (IH (Some c)).
    destruct (match_here _ _ _); [split; eauto|].
    split; [tauto|]. intros [[? ?]|H]; [discriminate|exact H].
Qed.

End MatcherFacts.

(** ** The jurisdiction check *)

Section Jurisdiction.
Import PyStr Re ComplianceChecker.

Lemma incorrect_not_missing ty m :
  ~ is_missing_jurisdiction (incorrect_jurisdiction_issue ty m).
Proof. unfold is_missing_jurisdiction. simpl. discriminate. Qed.

Lemma filter_incorrect_all ty (ms : list string) :
  filter is_missing_jurisdiction (incorrect_jurisdiction_issue ty <$> ms) = [].
Proof.
  induction ms as [|m ms IH]; [reflexivity|].
  rewrite fmap_cons, filter_cons_False; [exact IH|apply incorrect_not_missing].
Qed.

Lemma filter_incorrect_none ty (ms : list string) :
  filter (fun i => ~ is_missing_jurisdiction i) (incorrect_jurisdiction_issue ty <$> ms)
  = incorrect_jurisdiction_issue ty <$> ms.
Proof.
  induction ms as [|m ms IH]; [reflexivity|].
  rewrite fmap_cons, filter_cons_True; [rewrite IH; reflexivity|apply incorrect_not_missing].
Qed.

Lemma filter_flat_map {A B} (P : B -> Prop) `{forall x, Decision (P x)}
    (f : A -> list B) (l : list A) :
  filter P (flat_map f l) = flat_map (fun a => filter P (f a)) l.
Proof.
  induction l as [|a l IH]; [reflexivity|]. simpl. rewrite filter_app, IH. reflexivity.
Qed.

Lemma flat_map_nil {A B} (f : A -> list B) (l : list A) :
  (forall a, f a = []) -> flat_map f l = [].
Proof. intros Hf. induction l as [|a l IH]; simpl; [|rewrite Hf, IH]; reflexivity. Qed.

Lemma length_flat_map_sum {A B} (f : A -> list B) (l : list A) :
  length (flat_map f l) = sum_list_with (fun a => length (f a)) l.
Proof.
  induction l as [|a l IH]; [reflexivity|]. simpl. rewrite length_app, IH. reflexivity.
Qed.

Lemma sum_list_with_pointwise {A} (f g : A -> nat) (l : list A) :
  (forall a, f a = g a) -> sum_list_with f l = sum_list_with g l.
Proof. intros E. induction l as [|a l IH]; simpl; [|rewrite E, IH]; reflexivity. Qed.

(** The pattern for Dubai courts matches wherever the phrase stands. *)
Lemma dubai_courts_matches :
  exists r, compile "dubai\s+courts?" = Some r /\
            forall p tail, is_Some (match_here r p (chars "dubai courts" ++ tail)).
Proof.
  eexists. split; [vm_compute; reflexivity|].
  intros p tail. destruct tail as [|c tail]; vm_compute; eauto.
Qed.

Lemma dubai_courts_reported (a b : string) (ty : DocumentType) :
  exists m, incorrect_jurisdiction_issue ty m ∈
              _check_jurisdiction (a +:+ "Dubai Courts" +:+ b) ty.
Proof.
  destruct dubai_courts_matches as (r & Hc & Hm).
  set (text := a +:+ "Dubai Courts" +:+ b).
  assert (Hne : re_finditer "dubai\s+courts?" (lower text) <> []).
  { unfold re_finditer. rewrite Hc. unfold text.
    rewrite chars_lower, !chars_append, !lower_chars_app.
    change (lower_chars (chars "Dubai Courts")) with (chars "dubai courts").
    intros E. apply fmap_nil_inv in E. revert E.
    apply finditer_from_found. intros p. apply Hm. }
  destruct (re_finditer "dubai\s+courts?" (lower text)) as [|m ms] eqn:E; [congruence|].
  exists m. unfold _check_jurisdiction. cbv zeta. apply elem_of_app. left.
  apply list_elem_of_In, in_flat_map. exists "dubai\s+courts?". split.
  - unfold incorrect_jurisdictions. simpl. tauto.
  - apply list_elem_of_In. fold text. rewrite E. left.
Qed.

Lemma adgm_patterns_compile :
  compile "adgm\s+courts?" = Some (chain adgm_courts_items) /\
  compile "abu\s+dhabi\s+global\s+market\s+courts?" = Some (chain market_courts_items) /\
  compile "courts?\s+of\s+adgm" = Some (chain courts_of_adgm_items).
Proof. repeat split; vm_compute; reflexivity. Qed.

Lemma words_ok (phrase : list string) :
  forallb (fun w => match chars w with c :: _ => negb (is_space c) | [] => false end)
    phrase = true ->
  Forall word_ok (chars <$> phrase).
Proof.
  induction phrase as [|w phrase IH]; intros H; [constructor|].
  cbn [forallb] in H. apply andb_true_iff in H as [Hw H].
  rewrite fmap_cons. constructor; [|apply IH; exact H].
  destruct (chars w) as [|c t]; [discriminate|]. exists c, t.
  split; [reflexivity|]. apply negb_true_iff. exact Hw.
Qed.

Lemma courts_of_adgm_words (s : list ascii) :
  chain_matches courts_of_adgm_items (fun _ => True) s <->
  existsb (fun ws => words_at ws s)
    [chars <$> ["court"; "of"; "adgm"]; chars <$> ["courts"; "of"; "adgm"]] = true.
Proof.
  cbn [existsb]. rewrite orb_false_r, orb_true_iff.
  rewrite <- !phrase_items_words_at by (apply words_ok; reflexivity).
  unfold courts_of_adgm_items.
  change (phrase_items (chars <$> ["court"; "of"; "adgm"]))
    with (lit (chars "court") ++ (CSpace, 1, None) :: phrase_items (chars <$> ["of"; "adgm"])).
  change (phrase_items (chars <$> ["courts"; "of"; "adgm"]))
    with (lit (chars "court") ++ (CChar "s"%char, 1, Some 1) :: (CSpace, 1, None)
            :: phrase_items (chars <$> ["of"; "adgm"])).
  rewrite !chain_lit, chain_optional, chain_char. tauto.
Qed.

(** The code finds an ADGM pattern exactly in the texts in which one of the
    allowed phrases stands. *)
Lemma has_adgm_jurisdiction_spec (text : string) :
  has_adgm_jurisdiction text = spec_adgm_phrase_present text.
Proof.
  destruct adgm_patterns_compile as (C1 & C2 & C3).
  unfold has_adgm_jurisdiction, adgm_patterns, spec_adgm_phrase_present, spec_adgm_phrases.
  set (s := chars (lower text)).
  assert (H1 : re_search "adgm\s+courts?" (lower text)
               = existsb (fun ws => occurs_in ws s) [chars <$> ["adgm"; "court"]]).
  { unfold re_search. rewrite C1. fold s. apply eq_true_iff_eq.
    rewrite bool_decide_eq_true. apply search_from_chain. intros t.
    unfold adgm_courts_items. rewrite chain_trailing_optional.
    rewrite phrase_items_words_at by (apply words_ok; reflexivity).
    cbn [existsb]. rewrite orb_false_r. reflexivity. }
  assert (H2 : re_search "abu\s+dhabi\s+global\s+market\s+courts?" (lower text)
               = existsb (fun ws => occurs_in ws s)
                   [chars <$> ["abu"; "dhabi"; "global"; "market"; "court"]]).
  { unfold re_search. rewrite C2. fold s. apply eq_true_iff_eq.
    rewrite bool_decide_eq_true. apply search_from_chain. intros t.
    unfold market_courts_items. rewrite chain_trailing_optional.
    rewrite phrase_items_words_at by (apply words_ok; reflexivity).
    cbn [existsb]. rewrite orb_false_r. reflexivity. }
  assert (H3 : re_search "courts?\s+of\s+adgm" (lower text)
               = existsb (fun ws => occurs_in ws s)
                   [chars <$> ["court"; "of"; "adgm"]; chars <$> ["courts"; "of"; "adgm"]]).
  { unfold re_search. rewrite C3. fold s. apply eq_true_iff_eq.
    rewrite bool_decide_eq_true. apply search_from_chain. intros t.
    apply courts_of_adgm_words. }
  cbn [existsb]. rewrite H1, H2, H3. cbn [existsb].
  rewrite !orb_false_r, orb_assoc. reflexivity.
Qed.

(** C3.  The jurisdiction check emits one High issue per match of each
    disallowed-jurisdiction pattern and, besides, exactly one High issue
    "Missing ADGM jurisdiction clause" if and only if no allowed ADGM
    phrase is present and the type is Articles of Association, Memorandum
    of Association or Commercial Agreement.  An allowed phrase is present
    when the lower-cased text holds, with one or more blanks between the
    words, "adgm court", "abu dhabi global market court", "court of adgm"
    or "courts of adgm"; that is what the search of the code for its three
    patterns decides.  A text that contains "Dubai Courts" and no ADGM
    phrase, of type Articles of Association, gets an incorrect-reference
    issue and the missing-clause issue, both High. *)
Theorem C3_jurisdiction_check (text : string) (doc_type : DocumentType) :
  let issues := _check_jurisdiction text doc_type in
  (forall i, i ∈ issues ->
     severity i = HIGH /\ section i = Some "Jurisdiction Clause" /\
     (is_incorrect_reference i \/ is_missing_jurisdiction i)) /\
  length (filter (fun i => ~ is_missing_jurisdiction i) issues)
  = sum_list_with (fun pattern => length (re_finditer pattern (lower text)))
      incorrect_jurisdictions /\
  has_adgm_jurisdiction text = spec_adgm_phrase_present text /\
  length (filter is_missing_jurisdiction issues)
  = (if negb (spec_adgm_phrase_present text) && jurisdiction_sensitive doc_type
     then 1 else 0)%nat /\
  (length (filter is_missing_jurisdiction issues) = 1%nat <->
     spec_adgm_phrase_present text = false /\
     (doc_type = ARTICLES_OF_ASSOCIATION \/ doc_type = MEMORANDUM_OF_ASSOCIATION \/
      doc_type = COMMERCIAL_AGREEMENT)) /\
  (forall a b,
     text = a +:+ "Dubai Courts" +:+ b ->
     spec_adgm_phrase_present text = false ->
     doc_type = ARTICLES_OF_ASSOCIATION ->
     exists i j, i ∈ issues /\ is_incorrect_reference i /\ severity i = HIGH /\
                 j ∈ issues /\ is_missing_jurisdiction j /\ severity j = HIGH).
Proof.
  cbv zeta. rewrite <- (has_adgm_jurisdiction_spec text).
  set (cond := negb (has_adgm_jurisdiction text) && jurisdiction_sensitive doc_type).
  assert (Hmiss : length (filter is_missing_jurisdiction (_check_jurisdiction text doc_type))
                  = (if cond then 1 else 0)%nat).
  { unfold _check_jurisdiction. cbv zeta. fold cond.
    rewrite filter_app, filter_flat_map, flat_map_nil by (intros; apply filter_incorrect_all).
    destruct cond; reflexivity. }
  split; [|split; [|split; [reflexivity|split; [exact Hmiss|split]]]].
  - intros i. unfold _check_jurisdiction. cbv zeta. fold cond.
    rewrite elem_of_app, list_elem_of_In, in_flat_map.
    intros [(pattern & _ & Hin)|Hin].
    + apply list_elem_of_In, list_elem_of_fmap in Hin as (m & -> & _).
      repeat split; try reflexivity. left. exists m. reflexivity.
    + destruct cond; [|inversion Hin].
      apply list_elem_of_singleton in Hin as ->.
      repeat split; try reflexivity. right. reflexivity.
  - unfold _check_jurisdiction. cbv zeta. fold cond.
    rewrite filter_app, filter_flat_map, length_app.
    rewrite (flat_map_ext _ (fun pattern =>
               incorrect_jurisdiction_issue doc_type <$> re_finditer pattern (lower text)))
      by (intros; apply filter_incorrect_none).
    rewrite length_flat_map_sum.
    assert (Hz : length (filter (fun i => ~ is_missing_jurisdiction i)
                   (if cond then [missing_jurisdiction_issue doc_type] else [])) = 0%nat).
    { destruct cond; [|reflexivity].
      rewrite filter_cons_False; [reflexivity|]. intros H. apply H. reflexivity. }
    rewrite Hz, Nat.add_0_r. apply sum_list_with_pointwise. intros. apply length_fmap.
  - rewrite Hmiss. unfold cond, jurisdiction_sensitive.
    destruct (has_adgm_jurisdiction text); simpl.
    + split; [discriminate|]. intros [? _]. discriminate.
    + destruct doc_type; vm_compute; split; intros H; try discriminate;
        try (split; [reflexivity|tauto]); try reflexivity;
        destruct H as [_ [H|[H|H]]]; discriminate.
  - intros a b -> Hadgm ->.
    destruct (dubai_courts_reported a b ARTICLES_OF_ASSOCIATION) as (m & Hm).
    exists (incorrect_jurisdiction_issue ARTICLES_OF_ASSOCIATION m),
           (missing_jurisdiction_issue ARTICLES_OF_ASSOCIATION).
    split; [exact Hm|]. split; [exists m; reflexivity|]. split; [reflexivity|].
    split; [|split; reflexivity].
    unfold _check_jurisdiction. cbv zeta. apply elem_of_app. right.
    rewrite Hadgm. simpl. left.
Qed.

(** C3 at a concrete text. *)
Lemma C3_jurisdiction_check_witness :
  exists i j,
    i ∈ _check_jurisdiction "Any disputes shall be resolved in Dubai Courts."
          ARTICLES_OF_ASSOCIATION /\
    is_incorrect_reference i /\ severity i = HIGH /\
    j ∈ _check_jurisdiction "Any disputes shall be resolved in Dubai Courts."
          ARTICLES_OF_ASSOCIATION /\
    is_missing_jurisdiction j /\ severity j = HIGH.
Proof.
  apply (proj2 (proj2 (proj2 (proj2 (proj2
           (C3_jurisdiction_check "Any disputes shall be resolved in Dubai Courts."
              ARTICLES_OF_ASSOCIATION)))))
         "Any disputes shall be resolved in " ".").
  - reflexivity.
  - vm_compute. reflexivity.
  - reflexivity.
Defined.

End Jurisdiction.

(** ** The ambiguous-language red flag *)

Section RedFlags.
Import PyStr Re ComplianceChecker.

Lemma ambiguous_loop_spec ty text_lower (patterns : list string) :
  ambiguous_loop ty text_lower patterns
  = if existsb (exceeds text_lower) patterns then [ambiguous_issue ty] else [].
Proof.
  induction patterns as [|p ps IH]; simpl; [reflexivity|].
  destruct (exceeds text_lower p); simpl; [reflexivity|exact IH].
Qed.

(** Once a pattern exceeds the threshold, the patterns after it play no part. *)
Lemma ambiguous_loop_stops ty text_lower (before after : list string) (p : string) :
  existsb (exceeds text_lower) before = false ->
  exceeds text_lower p = true ->
  ambiguous_loop ty text_lower (before ++ p :: after) = [ambiguous_issue ty].
Proof.
  intros Hb Hp. rewrite ambiguous_loop_spec, existsb_app, Hb. simpl. rewrite Hp. reflexivity.
Qed.

Lemma filter_ambiguous_essential ty (l : list (string * string)) text_lower :
  filter is_ambiguous
    (flat_map (fun '(pattern, info_name) =>
                 if re_search pattern text_lower then []
                 else [essential_issue ty info_name]) l) = [].
Proof.
  rewrite filter_flat_map. apply flat_map_nil. intros [pattern info_name].
  destruct (re_search pattern text_lower); [reflexivity|].
  rewrite filter_cons_False; [reflexivity|]. unfold is_ambiguous. simpl. discriminate.
Qed.

Lemma filter_ambiguous_date ty text (patterns : list string) :
  filter is_ambiguous (date_loop ty text patterns) = [].
Proof.
  induction patterns as [|p ps IH]; simpl; [reflexivity|].
  destruct (re_search p text); [|exact IH].
  rewrite filter_cons_False; [reflexivity|]. unfold is_ambiguous. simpl. discriminate.
Qed.

Lemma filter_ambiguous_red_flags text ty :
  filter is_ambiguous (_detect_red_flags text ty)
  = ambiguous_loop ty (lower text) ambiguous_patterns.
Proof.
  unfold _detect_red_flags. cbv zeta. rewrite !filter_app, filter_ambiguous_date.
  assert (E : filter is_ambiguous
                (if bool_decide (ty = ARTICLES_OF_ASSOCIATION)
                 then flat_map (fun '(pattern, info_name) =>
                                  if re_search pattern (lower text) then []
                                  else [essential_issue ty info_name]) essential_info
                 else []) = []).
  { destruct (bool_decide _); [apply filter_ambiguous_essential|reflexivity]. }
  rewrite E, !app_nil_r, ambiguous_loop_spec.
  destruct (existsb _ _); [|reflexivity].
  rewrite filter_cons_True; reflexivity.
Qed.

(** C4, as stated, fails.  A text with four occurrences of "may" and two
    of "perhaps" gets no ambiguous-language issue, because the first
    pattern asks for "may" followed by "be", "have" or "do". *)
Lemma C4_four_may_two_perhaps_unflagged :
  let text := "The company may issue shares. The board may appoint officers. "
              +:+ "A member may resign. The chair may adjourn. Perhaps. Perhaps." in
  length (re_finditer "may" (lower text)) = 4%nat /\
  length (re_finditer "perhaps" (lower text)) = 2%nat /\
  filter is_ambiguous (_detect_red_flags text COMMERCIAL_AGREEMENT) = [] /\
  length (filter is_ambiguous (_detect_red_flags text COMMERCIAL_AGREEMENT)) <> 1%nat.
Proof. vm_compute. repeat split; discriminate. Qed.

(** C4, amended.  The ambiguous-language check walks its fixed ordered
    pattern list and at the first pattern with more than three matches emits
    one Medium issue and leaves the loop, so that at most one such issue is
    emitted, and exactly one as soon as some pattern has more than three
    matches; a text with four matches of the first pattern (the word "may"
    followed by blanks and "be", "have" or "do"), whatever its count of
    "perhaps", gets exactly one ambiguous-language issue. *)
Theorem C4_ambiguous_language (text : string) (doc_type : DocumentType) :
  let flagged := filter is_ambiguous (_detect_red_flags text doc_type) in
  flagged = (if existsb (exceeds (lower text)) ambiguous_patterns
             then [ambiguous_issue doc_type] else []) /\
  severity (ambiguous_issue doc_type) = MEDIUM /\
  (length flagged <= 1)%nat /\
  (forall before after p,
     ambiguous_patterns = before ++ p :: after ->
     existsb (exceeds (lower text)) before = false ->
     exceeds (lower text) p = true ->
     flagged = [ambiguous_issue doc_type]) /\
  ((3 < length (re_finditer "\bmay\s+(?:be|have|do)" (lower text)))%nat ->
   length flagged = 1%nat).
Proof.
  cbv zeta. rewrite filter_ambiguous_red_flags.
  split; [apply ambiguous_loop_spec|]. split; [reflexivity|]. split; [|split].
  - rewrite ambiguous_loop_spec. destruct (existsb _ _); simpl; lia.
  - intros before after p -> Hb Hp. apply ambiguous_loop_stops; assumption.
  - intros H.
    assert (E : exceeds (lower text) "\bmay\s+(?:be|have|do)" = true).
    { unfold exceeds. apply Nat.ltb_lt. exact H. }
    rewrite ambiguous_loop_spec. unfold ambiguous_patterns. cbn [existsb].
    rewrite E. reflexivity.
Qed.

(** C4 at a concrete text: four matches of the first pattern and two of
    "perhaps" give one issue. *)
Lemma C4_ambiguous_language_witness :
  length (filter is_ambiguous
            (_detect_red_flags
               "It may be. It may have. It may do. It may be. Perhaps. Perhaps."
               COMMERCIAL_AGREEMENT)) = 1%nat.
Proof.
  apply (proj2 (proj2 (proj2 (proj2
           (C4_ambiguous_language
              "It may be. It may have. It may do. It may be. Perhaps. Perhaps."
              COMMERCIAL_AGREEMENT))))).
  vm_compute. lia.
Defined.

End RedFlags.

(** ** Failure of a check *)

Section CheckFailure.
Import PyStr Re ComplianceChecker ProcessingEngine.

Lemma run_checks_ok (j r f d a : Result (list DocumentIssue)) (l : list DocumentIssue) :
  run_checks j r f d a = Ok l <->
  exists lj lr lf ld la,
    j = Ok lj /\ r = Ok lr /\ f = Ok lf /\ d = Ok ld /\ a = Ok la /\
    l = lj ++ lr ++ lf ++ ld ++ la.
Proof.
  unfold run_checks. split.
  - destruct j as [lj|], r as [lr|], f as [lf|], d as [ld|], a as [la|];
      simpl; intros E; try discriminate.
    injection E as <-. exists lj, lr, lf, ld, la. repeat split.
  - intros (lj & lr & lf & ld & la & -> & -> & -> & -> & -> & ->). reflexivity.
Qed.

Lemma run_checks_raise (j r f d a : Result (list DocumentIssue)) (e : PyExn) :
  j = Raise e \/ r = Raise e \/ f = Raise e \/ d = Raise e \/ a = Raise e ->
  exists e', run_checks j r f d a = Raise e'.
Proof.
  unfold run_checks.
  destruct j as [lj|], r as [lr|], f as [lf|], d as [ld|], a as [la|];
    simpl; intros H; eauto; exfalso; decompose [or] H; discriminate.
Qed.

(** C7, as stated, fails.  With a section entry that lacks the key
    ['text'] the formatting check raises; the jurisdiction check has an issue
    to report, yet [check_compliance] returns nothing: it raises too. *)
Lemma C7_failing_check_suppresses_others :
  let text := "Any disputes shall be resolved in Dubai Courts." in
  let sc := {| sc_sections := [∅]; sc_clauses := []; sc_tables := [];
               sc_signatures := [] |} in
  _check_formatting text sc ARTICLES_OF_ASSOCIATION = Raise (KeyError "text") /\
  _check_jurisdiction text ARTICLES_OF_ASSOCIATION <> [] /\
  check_compliance text ARTICLES_OF_ASSOCIATION sc = Raise (KeyError "text") /\
  ~ (exists l, check_compliance text ARTICLES_OF_ASSOCIATION sc = Ok l).
Proof.
  cbv zeta. split; [vm_compute; reflexivity|]. split; [vm_compute; discriminate|].
  assert (E : check_compliance "Any disputes shall be resolved in Dubai Courts."
                ARTICLES_OF_ASSOCIATION
                {| sc_sections := [∅]; sc_clauses := []; sc_tables := [];
                   sc_signatures := [] |} = Raise (KeyError "text"))
    by (vm_compute; reflexivity).
  split; [exact E|]. intros [l Hl]. rewrite E in Hl. discriminate.
Qed.

(** C7, amended.  Nothing inside the rule engine catches a failure of a
    check: as soon as one of the five checks raises, [check_compliance]
    raises and returns no issue of any check; it returns the issues of the
    five checks, in the order jurisdiction, required clauses, formatting, red
    flags, registration and style, exactly when none fails.  The exception
    is caught one level up, by the per-document analysis, which then reports
    the document with no issues, confidence 0 and score 0. *)
Theorem C7_check_failure_propagates
    (j r f d a rag flags : Result (list DocumentIssue)) (parsed_doc : ParsedDoc) :
  let text := pd_text_content parsed_doc in
  let ty := pd_document_type parsed_doc in
  let sc := pd_structured_content parsed_doc in
  (forall l, run_checks j r f d a = Ok l <->
     exists lj lr lf ld la,
       j = Ok lj /\ r = Ok lr /\ f = Ok lf /\ d = Ok ld /\ a = Ok la /\
       l = lj ++ lr ++ lf ++ ld ++ la) /\
  (forall e, j = Raise e \/ r = Raise e \/ f = Raise e \/ d = Raise e \/ a = Raise e ->
     exists e', run_checks j r f d a = Raise e') /\
  check_compliance text ty sc
  = match _check_formatting text sc ty with
    | Raise e => Raise e
    | Ok lf => Ok (_check_jurisdiction text ty ++ _check_required_clauses text ty ++ lf
                   ++ _detect_red_flags text ty
                   ++ _check_adgm_specific_requirements text ty)
    end /\
  (forall e, check_compliance text ty sc = Raise e ->
     let analysis := _analyze_single_document rag flags parsed_doc in
     da_issues analysis = [] /\ da_compliance_score analysis = 0%Q /\
     da_confidence analysis = 0%Q).
Proof.
  cbv zeta. split; [intros l; apply run_checks_ok|].
  split; [intros e; apply run_checks_raise|]. split.
  - unfold check_compliance, run_checks. simpl.
    destruct (_check_formatting _ _ _); reflexivity.
  - intros e He. unfold _analyze_single_document. cbv zeta. rewrite He. simpl.
    repeat split.
Qed.

(** C7 at the document of the counterexample. *)
Lemma C7_check_failure_propagates_witness :
  let pd := {| pd_filename := "articles.docx";
               pd_text_content := "Any disputes shall be resolved in Dubai Courts.";
               pd_word_count := 8;
               pd_document_type := ARTICLES_OF_ASSOCIATION;
               pd_type_confidence := 0;
               pd_structured_content :=
                 {| sc_sections := [∅]; sc_clauses := []; sc_tables := [];
                    sc_signatures := [] |} |} in
  da_issues (_analyze_single_document (Ok []) (Ok []) pd) = [] /\
  da_compliance_score (_analyze_single_document (Ok []) (Ok []) pd) = 0%Q /\
  da_confidence (_analyze_single_document (Ok []) (Ok []) pd) = 0%Q.
Proof.
  cbv zeta.
  apply (proj2 (proj2 (proj2
           (C7_check_failure_propagates (Ok []) (Ok []) (Raise (KeyError "text"))
              (Ok []) (Ok []) (Ok []) (Ok []) _)))
         (KeyError "text")).
  vm_compute. reflexivity.
Defined.

End CheckFailure.

(** ** The type classifier *)

Section Classifier.
Import PyStr Re DocumentParser.
Local Open Scope Q_scope.

(** Where [max] stops: everything before the chosen item has a strictly
    smaller key, everything after it a key that is not greater. *)
Lemma py_max_by_split {K} (key : K -> Q) (rest pre mid : list K) (best : K) :
  Forall (fun x => key x < key best) pre ->
  Forall (fun x => key x <= key best) mid ->
  exists before after,
    pre ++ best :: mid ++ rest = before ++ py_max_by key best rest :: after /\
    Forall (fun x => key x < key (py_max_by key best rest)) before /\
    Forall (fun x => key x <= key (py_max_by key best rest)) after.
Proof.
  revert pre mid best. induction rest as [|k rest IH]; intros pre mid best Hpre Hmid.
  - exists pre, mid. rewrite app_nil_r. simpl. auto.
  - simpl. destruct (Qlt_le_dec (key best) (key k)) as [Hlt|Hge].
    + destruct (IH (pre ++ best :: mid) [] k) as (before & after & E & Hb & Ha).
      * apply Forall_app. split.
        -- eapply Forall_impl; [exact Hpre|]. simpl. intros x Hx. lra.
        -- constructor; [exact Hlt|].
           eapply Forall_impl; [exact Hmid|]. simpl. intros x Hx. lra.
      * constructor.
      * exists before, after. split; [|auto].
        rewrite <- E. simpl. rewrite <- !app_assoc. reflexivity.
    + destruct (IH pre (mid ++ [k]) best) as (before & after & E & Hb & Ha).
      * exact Hpre.
      * apply Forall_app. split; [exact Hmid|]. constructor; [exact Hge|constructor].
      * exists before, after. split; [|auto].
        rewrite <- E. rewrite <- !app_assoc. reflexivity.
Qed.

Lemma matched_patterns_count text_lower (patterns : list string) :
  matched_patterns text_lower patterns
  = length (filter (fun pattern => re_search pattern text_lower = true) patterns).
Proof.
  unfold matched_patterns.
  enough (G : forall n,
             fold_left (fun score pattern =>
                          if re_search pattern text_lower then S score else score)
                       patterns n
             = (n + length (filter (fun pattern => re_search pattern text_lower = true)
                                   patterns))%nat)
    by (rewrite G; reflexivity).
  induction patterns as [|p ps IH]; intros n; simpl; [lia|].
  rewrite IH. destruct (re_search p text_lower) eqn:E.
  - rewrite filter_cons_True by exact E. simpl. lia.
  - rewrite filter_cons_False by (rewrite E; discriminate). lia.
Qed.

Lemma confidence_is_spec_score text (patterns : list string) :
  confidence_of (matched_patterns (lower text) patterns) (length patterns)
  == spec_score text patterns.
Proof.
  unfold confidence_of, spec_score. rewrite matched_patterns_count.
  destruct patterns as [|p ps]; [reflexivity|].
  set (m := length (filter _ (p :: ps))).
  change (length (p :: ps)) with (S (length ps)).
  change (0 <? S (length ps))%nat with true. cbv iota.
  rewrite Qmake_Qdiv.
  replace (Z.pos (Pos.of_nat (S (length ps)))) with (Z.of_nat (S (length ps))) by lia.
  reflexivity.
Qed.

(** The returned pair, located in the pattern table. *)
Lemma classifier_split (document_type_patterns : list (DocumentType * list string))
    (text : string) :
  let result := _identify_document_type document_type_patterns text in
  (exists tb ps ta,
     document_type_patterns = tb ++ (fst result, ps) :: ta /\
     snd result == spec_score text ps /\
     3 # 10 <= snd result /\
     Forall (fun entry => spec_score text (snd entry) < snd result) tb /\
     Forall (fun entry => spec_score text (snd entry) <= snd result) ta) \/
  (result = (OTHER, 0) /\
   Forall (fun entry => spec_score text (snd entry) < 3 # 10) document_type_patterns).
Proof.
  cbv zeta. unfold _identify_document_type. cbv zeta.
  set (f := fun '(doc_type, patterns) =>
              (doc_type : DocumentType,
               confidence_of (matched_patterns (lower text) patterns) (length patterns))).
  assert (Hf : forall entry, snd (f entry) == spec_score text (snd entry)).
  { intros [ty ps]. simpl. apply confidence_is_spec_score. }
  assert (Hty : forall entry, fst (f entry) = fst entry) by (intros [ty ps]; reflexivity).
  change (type_scores document_type_patterns (lower text))
    with (f <$> document_type_patterns).
  destruct (f <$> document_type_patterns) as [|first rest] eqn:Ets.
  { right. split; [reflexivity|]. apply fmap_nil_inv in Ets. rewrite Ets. constructor. }
  destruct (py_max_by_split snd rest [] [] first) as (before & after & E & Hb & Ha);
    [constructor|constructor|].
  simpl in E. rewrite <- Ets in E. set (best := py_max_by snd first rest) in *.
  apply fmap_app_inv in E as (tb & tl & -> & El & Et). symmetry in El.
  apply fmap_cons_inv in El as (x & ta & Ex & -> & ->).
  rewrite Forall_fmap in Hb, Ha.
  assert (Hb' : Forall (fun entry => spec_score text (snd entry) < snd best) tb).
  { eapply Forall_impl; [exact Hb|]. intros entry. simpl. rewrite Hf. auto. }
  assert (Ha' : Forall (fun entry => spec_score text (snd entry) <= snd best) ta).
  { eapply Forall_impl; [exact Ha|]. intros entry. simpl. rewrite Hf. auto. }
  destruct (Qle_bool (3 # 10) (snd best)) eqn:Eq.
  - left. exists tb, (snd x), ta. apply Qle_bool_iff in Eq.
    split; [|split; [|split; [exact Eq|split; assumption]]].
    + rewrite Et, Ex, Hty. destruct x; reflexivity.
    + rewrite Ex. apply Hf.
  - right. split; [reflexivity|].
    assert (Hlt : snd best < 3 # 10).
    { apply Qnot_le_lt. intros H. apply Qle_bool_iff in H. congruence. }
    rewrite Et. apply Forall_app. split.
    + eapply Forall_impl; [exact Hb'|]. simpl. intros entry H. lra.
    + constructor.
      * rewrite <- Hf, <- Ex. exact Hlt.
      * eapply Forall_impl; [exact Ha'|]. simpl. intros entry H. lra.
Qed.

(** C6.  The classifier scores every candidate type by the number of its
    patterns found in the text over the number of its patterns, each pattern
    searched on its own.  When the greatest score is at least 0.30 it returns
    a type of greatest score with that score as confidence; otherwise it
    returns the type Other with confidence 0. *)
Theorem C6_type_classifier (text : string) :
  let document_type_patterns := _create_type_patterns in
  let result := _identify_document_type document_type_patterns text in
  (exists patterns,
     (fst result, patterns) ∈ document_type_patterns /\
     snd result == spec_score text patterns /\
     3 # 10 <= snd result /\
     forall ty' patterns', (ty', patterns') ∈ document_type_patterns ->
                           spec_score text patterns' <= snd result) \/
  (result = (OTHER, 0) /\
   forall ty' patterns', (ty', patterns') ∈ document_type_patterns ->
                         spec_score text patterns' < 3 # 10).
Proof.
  cbv zeta.
  pose proof (classifier_split _create_type_patterns text) as H. cbv zeta in H.
  set (result := _identify_document_type _create_type_patterns text) in *.
  clearbody result.
  destruct H as [(tb & ps & ta & Et & Es & H3 & Hb & Ha)|[Er Hall]].
  - left. exists ps. split; [|split; [exact Es|split; [exact H3|]]].
    + rewrite Et. apply elem_of_app. right. left.
    + intros ty' ps'. rewrite Et, elem_of_app, elem_of_cons.
      rewrite Forall_forall in Hb, Ha.
      intros [Hin|[Heq|Hin]].
      * apply Qlt_le_weak. apply (Hb _ Hin).
      * injection Heq as _ ->. rewrite Es. apply Qle_refl.
      * apply (Ha _ Hin).
  - right. split; [exact Er|]. intros ty' ps' Hin.
    rewrite Forall_forall in Hall. apply (Hall _ Hin).
Qed.

(** C10.  When the greatest score is at least 0.30 the classifier returns
    the first type of the pattern table, in its insertion order, that reaches
    it: every type listed before the returned one has a strictly smaller
    score, so a type that ties with the returned one is never listed before
    it. *)
Theorem C10_tie_goes_to_earliest (text : string) (ty : DocumentType) (conf : Q) :
  _identify_document_type _create_type_patterns text = (ty, conf) ->
  3 # 10 <= conf ->
  exists before patterns after,
    _create_type_patterns = before ++ (ty, patterns) :: after /\
    conf == spec_score text patterns /\
    (forall ty' patterns', (ty', patterns') ∈ before ->
                           spec_score text patterns' < conf) /\
    (forall ty' patterns', (ty', patterns') ∈ after ->
                           spec_score text patterns' <= conf) /\
    (forall ty' patterns', (ty', patterns') ∈ _create_type_patterns ->
                           spec_score text patterns' == conf ->
                           ty' = ty \/ (ty', patterns') ∈ after).
Proof.
  intros Er H3.
  pose proof (classifier_split _create_type_patterns text) as H. cbv zeta in H.
  rewrite Er in H. clear Er.
  destruct H as [(tb & ps & ta & Et & Es & _ & Hb & Ha)|[Er' _]].
  - simpl in *. rewrite Forall_forall in Hb, Ha.
    exists tb, ps, ta. split; [exact Et|]. split; [exact Es|].
    split; [intros ty' ps' Hin; apply (Hb _ Hin)|].
    split; [intros ty' ps' Hin; apply (Ha _ Hin)|].
    intros ty' ps'. rewrite Et, elem_of_app, elem_of_cons.
    intros [Hin|[Heq|Hin]] Htie.
    + specialize (Hb _ Hin). simpl in Hb. lra.
    + injection Heq as -> _. left. reflexivity.
    + right. exact Hin.
  - injection Er' as -> ->. exfalso. lra.
Qed.

(** C10 at a text in which Memorandum of Association and Incorporation
    Application Form both score 2/6: the earlier one is returned. *)
Lemma C10_tie_goes_to_earliest_witness :
  exists before patterns after,
    _create_type_patterns = before ++ (MEMORANDUM_OF_ASSOCIATION, patterns) :: after /\
    (2 # 6) == spec_score
      "memorandum of association company name incorporation application company registration"
      patterns /\
    (forall ty' patterns', (ty', patterns') ∈ before ->
       spec_score
         "memorandum of association company name incorporation application company registration"
         patterns' < 2 # 6) /\
    (forall ty' patterns', (ty', patterns') ∈ after ->
       spec_score
         "memorandum of association company name incorporation application company registration"
         patterns' <= 2 # 6) /\
    (forall ty' patterns', (ty', patterns') ∈ _create_type_patterns ->
       spec_score
         "memorandum of association company name incorporation application company registration"
         patterns' == 2 # 6 ->
       ty' = MEMORANDUM_OF_ASSOCIATION \/ (ty', patterns') ∈ after).
Proof.
  apply (C10_tie_goes_to_earliest
           "memorandum of association company name incorporation application company registration"
           MEMORANDUM_OF_ASSOCIATION (2 # 6)).
  - vm_compute. reflexivity.
  - unfold Qle. simpl. lia.
Defined.

End Classifier.

(** ** The completeness report *)

Section CompletenessReport.
Import PyStr ChecklistVerifier.
Local Open Scope Q_scope.

Lemma sort_required_spec (names required missing present : list string) :
  sort_required names required missing present
  = (missing ++ filter (fun r => is_present names r = false) required,
     present ++ filter (fun r => is_present names r = true) required).
Proof.
  revert missing present. induction required as [|r rest IH]; intros missing present; simpl.
  - rewrite !app_nil_r. reflexivity.
  - destruct (is_present names r) eqn:E; rewrite IH.
    + rewrite filter_cons_False by (rewrite E; discriminate).
      rewrite filter_cons_True by exact E. rewrite <- app_assoc. reflexivity.
    + rewrite filter_cons_True by exact E.
      rewrite filter_cons_False by (rewrite E; discriminate).
      rewrite <- app_assoc. reflexivity.
Qed.

Lemma filter_agree {A} (P Q : A -> Prop) `{forall x, Decision (P x)}
    `{forall x, Decision (Q x)} (l : list A) :
  (forall x, x ∈ l -> (P x <-> Q x)) -> filter P l = filter Q l.
Proof.
  induction l as [|x l IH]; intros Hpq; [reflexivity|].
  assert (Hx : P x <-> Q x) by (apply Hpq; left).
  assert (Hl : filter P l = filter Q l) by (apply IH; intros y Hy; apply Hpq; right; exact Hy).
  destruct (decide (P x)) as [Hp|Hp].
  - rewrite !filter_cons_True by tauto. rewrite Hl. reflexivity.
  - rewrite !filter_cons_False by tauto. exact Hl.
Qed.


Lemma report_fields (uploaded : list DocumentType) (process : ProcessType) :
  let report := verify_document_completeness uploaded process in
  let required := dict_get ADGM_PROCESS_REQUIREMENTS (process_type_value process) in
  let names := doc_type_value <$> uploaded in
  missing_documents report = filter (fun r => is_present names r = false) required /\
  present_documents report = filter (fun r => is_present names r = true) required /\
  total_required report = length required /\
  total_present report = length (present_documents report) /\
  completeness_percentage report
  = if (0 <? length required)%nat
    then (Z.of_nat (length (present_documents report)) # Pos.of_nat (length required)) * 100
    else 100.
Proof.
  cbv zeta. unfold verify_document_completeness. cbv zeta.
  rewrite sort_required_spec. simpl. repeat split.
Qed.



End CompletenessReport.

(** ** The annotator *)

Section Annotation.
Import PyStr DocumentAnnotator.

Lemma str_chars (s : string) : str (chars s) = s.
Proof. apply string_of_list_ascii_of_string. Qed.

Lemma str_app (a b : list ascii) : str (a ++ b) = str a +:+ str b.
Proof. unfold str. induction a as [|c a IH]; simpl; [|rewrite IH]; reflexivity. Qed.

Lemma length_chars (s : string) : length (chars s) = String.length s.
Proof. unfold chars. induction s as [|c s IH]; simpl; [|rewrite IH]; reflexivity. Qed.

Lemma append_empty_r (s : string) : s +:+ "" = s.
Proof. induction s as [|c s IH]; [reflexivity|]. change (String c s +:+ "") with (String c (s +:+ "")). rewrite IH. reflexivity. Qed.

Lemma find_chars_le (needle hay : list ascii) (i : nat) :
  find_chars needle hay = Some i -> i <= length hay.
Proof.
  revert i. induction hay as [|c hay IH]; intros i E; simpl in E.
  - destruct (starts_with needle []); [|discriminate]. injection E as <-. simpl. lia.
  - destruct (starts_with needle (c :: hay)); [injection E as <-; simpl; lia|].
    destruct (find_chars needle hay) as [k|]; [|discriminate].
    injection E as <-. specialize (IH k eq_refl). simpl. lia.
Qed.

(** The three slices that the highlighter cuts make up the text again. *)
Lemma slices_make_text (t : string) (start n : nat) :
  slice t 0 start +:+ slice t start (start + n) +:+ slice_from t (start + n) = t.
Proof.
  unfold slice, slice_from. rewrite <- !str_app.
  rewrite Nat.sub_0_r, Nat.add_sub'. simpl drop at 1.
  rewrite <- (drop_drop (chars t) n start), take_drop, take_drop. apply str_chars.
Qed.

Lemma highlight_runs (p : Paragraph) (h : string) (start : nat) :
  find (lower (paragraph_text p)) (lower h) = Some start ->
  let t := paragraph_text p in
  let stop := (start + String.length h)%nat in
  p_runs (_highlight_text_in_paragraph p h)
  = (if (0 <? start)%nat then [plain_run (slice t 0 start)] else [])
    ++ [ {| run_text := slice t start stop; run_bold := false; run_italic := false;
            run_color := None; run_highlight := true; run_size := None |} ]
    ++ (if (stop <? String.length t)%nat then [plain_run (slice_from t stop)] else []).
Proof. intros E. unfold _highlight_text_in_paragraph. rewrite E. reflexivity. Qed.

Lemma highlight_keeps_text (p : Paragraph) (h : string) :
  paragraph_text (_highlight_text_in_paragraph p h) = paragraph_text p.
Proof.
  destruct (find (lower (paragraph_text p)) (lower h)) as [start|] eqn:E.
  - unfold paragraph_text at 1. rewrite (highlight_runs p h start E). cbv zeta.
    set (t := paragraph_text p). set (n := String.length h).
    rewrite <- (slices_make_text t start n) at 5.
    destruct (0 <? start)%nat eqn:E0; destruct (start + n <? String.length t)%nat eqn:E1;
      simpl; rewrite ?append_empty_r.
    + reflexivity.
    + apply Nat.ltb_ge in E1. unfold slice_from at 1.
      rewrite drop_ge by (rewrite length_chars; exact E1).
      simpl. rewrite !append_empty_r. reflexivity.
    + apply Nat.ltb_ge in E0. assert (start = 0%nat) as -> by lia. reflexivity.
    + apply Nat.ltb_ge in E0. assert (start = 0%nat) as -> by lia.
      apply Nat.ltb_ge in E1. unfold slice_from at 1.
      rewrite drop_ge by (rewrite length_chars; exact E1).
      simpl. rewrite !append_empty_r. reflexivity.
  - unfold _highlight_text_in_paragraph. rewrite E. reflexivity.
Qed.

(** A run that is empty and not highlighted; the highlighter does not write
    such runs. *)
Lemma empty_run_invisible (l1 l2 : list Run) :
  filter (fun r => run_text r <> "" \/ run_highlight r = true) (l1 ++ plain_run "" :: l2)
  = filter (fun r => run_text r <> "" \/ run_highlight r = true) (l1 ++ l2).
Proof.
  rewrite !filter_app. f_equal.
Qed.

Lemma insert_comment_texts (doc : Document) (ins : CommentInsertion) :
  (paragraph_text <$> doc) `sublist_of` (paragraph_text <$> _insert_comment doc ins) /\
  length doc <= length (_insert_comment doc ins).
Proof.
  unfold _insert_comment. cbv zeta.
  destruct (doc !! paragraph_index ins) as [target|] eqn:E; [|split; reflexivity].
  set (target' := match truthy (highlight_text ins) with
                  | Some text => _highlight_text_in_paragraph target text
                  | None => target
                  end).
  assert (Ht : paragraph_text target' = paragraph_text target).
  { unfold target'. destruct (truthy (highlight_text ins)); [apply highlight_keeps_text|reflexivity]. }
  split.
  - rewrite <- (take_drop_middle doc _ _ E) at 1.
    rewrite !fmap_app, !fmap_cons, Ht.
    apply sublist_app; [reflexivity|]. apply sublist_skip, sublist_cons. reflexivity.
  - rewrite <- (take_drop_middle doc _ _ E) at 1.
    rewrite !length_app. simpl. lia.
Qed.

Lemma insert_comments_texts (inss : list CommentInsertion) (doc : Document) :
  (paragraph_text <$> doc) `sublist_of`
    (paragraph_text <$> fold_left _insert_comment inss doc) /\
  length doc <= length (fold_left _insert_comment inss doc).
Proof.
  revert doc. induction inss as [|ins inss IH]; intros doc; simpl; [split; reflexivity|].
  destruct (insert_comment_texts doc ins) as [S1 L1].
  destruct (IH (_insert_comment doc ins)) as [S2 L2].
  split; [etrans; eassumption|lia].
Qed.

Lemma add_summary_lines_with (lines : list string) (first : Paragraph) (rest : Document) :
  add_summary_lines true (first :: rest) lines
  = (first :: rev (summary_line_paragraph <$> lines) ++ rest, None).
Proof.
  revert rest. induction lines as [|line lines IH]; intros rest; [reflexivity|].
  simpl add_summary_lines. rewrite IH. rewrite fmap_cons. simpl rev.
  rewrite <- app_assoc. reflexivity.
Qed.

Lemma add_summary_lines_without (lines : list string) (doc : Document) :
  lines <> [] ->
  add_summary_lines false doc lines = (doc, Some (AttributeError "insert_paragraph_after")).
Proof. destruct lines; [congruence|reflexivity]. Qed.

Lemma summary_content_nonempty (issues : list DocumentIssue) :
  _create_summary_content issues <> [].
Proof. destruct issues; discriminate. Qed.

(** What [_add_summary_section] leaves in the document. *)
Lemma summary_section_shape (has_after : bool) (doc : Document)
    (issues : list DocumentIssue) :
  _add_summary_section has_after doc issues
  = match doc with
    | [] => []
    | _ :: _ =>
        if has_after
        then title_paragraph :: separator_paragraph
             :: rev (summary_line_paragraph <$> _create_summary_content issues) ++ doc
        else title_paragraph :: doc
    end.
Proof.
  destruct doc as [|p doc]; [reflexivity|]. unfold _add_summary_section.
  destruct has_after.
  - rewrite add_summary_lines_with. reflexivity.
  - rewrite add_summary_lines_without by apply summary_content_nonempty. reflexivity.
Qed.

Lemma summary_section_texts (has_after : bool) (doc : Document)
    (issues : list DocumentIssue) :
  (paragraph_text <$> doc) `sublist_of`
    (paragraph_text <$> _add_summary_section has_after doc issues) /\
  length doc <= length (_add_summary_section has_after doc issues).
Proof.
  rewrite summary_section_shape. destruct doc as [|p doc]; [split; reflexivity|].
  destruct has_after.
  - split.
    + rewrite !fmap_cons, fmap_app. do 2 apply sublist_cons.
      apply sublist_inserts_l. reflexivity.
    + simpl. rewrite length_app. simpl. lia.
  - split; [rewrite fmap_cons; apply sublist_cons; reflexivity|simpl; lia].
Qed.

(** C8.  Annotation keeps every original paragraph and its text:
    highlighting replaces the runs of a paragraph by the runs before, match
    and after, whose texts concatenate to the text the paragraph had; the
    texts of the paragraphs of the document before annotation are, in their
    order, among the texts of the paragraphs after it; and the number of
    paragraphs does not decrease.  This holds whatever order the keyword set
    is listed in and whether or not the document library provides
    [insert_paragraph_after]. *)
Theorem C8_annotation_keeps_original_text
    (list_set : list string -> list string) (has_after : bool)
    (doc : Document) (issues : list DocumentIssue) (document_text : string) :
  let annotated := annotate_document list_set has_after doc issues document_text in
  (forall p h, paragraph_text (_highlight_text_in_paragraph p h) = paragraph_text p) /\
  (forall p h start,
     find (lower (paragraph_text p)) (lower h) = Some start ->
     exists before matched after,
       paragraph_text p = before +:+ matched +:+ after /\
       String.length before = start /\
       filter (fun r => run_text r <> "" \/ run_highlight r = true)
              (p_runs (_highlight_text_in_paragraph p h))
       = filter (fun r => run_text r <> "" \/ run_highlight r = true)
           [ plain_run before;
             {| run_text := matched; run_bold := false; run_italic := false;
                run_color := None; run_highlight := true; run_size := None |};
             plain_run after ]) /\
  (paragraph_text <$> doc) `sublist_of` (paragraph_text <$> annotated) /\
  length doc <= length annotated.
Proof.
  cbv zeta. split; [apply highlight_keeps_text|]. split; [|].
  - intros p h start E. set (t := paragraph_text p).
    exists (slice t 0 start), (slice t start (start + String.length h)),
           (slice_from t (start + String.length h)).
    split; [symmetry; apply slices_make_text|]. split.
    + unfold slice. rewrite Nat.sub_0_r. simpl drop.
      pose proof (find_chars_le _ _ _ E) as Hle.
      rewrite chars_lower in Hle. unfold lower_chars in Hle. rewrite length_map in Hle.
      rewrite <- length_chars. unfold str, chars in *.
      rewrite list_ascii_of_string_of_list_ascii.
      rewrite length_take. fold t in Hle. rewrite drop_0. lia.
    + rewrite (highlight_runs p h start E). cbv zeta. fold t.
      destruct (0 <? start)%nat eqn:E0;
        destruct (start + String.length h <? String.length t)%nat eqn:E1.
      * reflexivity.
      * apply Nat.ltb_ge in E1.
        assert (Ea : slice_from t (start + String.length h) = "").
        { unfold slice_from. rewrite drop_ge by (rewrite length_chars; exact E1). reflexivity. }
        rewrite Ea. symmetry. apply (empty_run_invisible [_; _] []).
      * apply Nat.ltb_ge in E0. assert (start = 0%nat) as -> by lia.
        change (slice t 0 0) with "". symmetry. apply (empty_run_invisible [] [_; _]).
      * apply Nat.ltb_ge in E0. assert (start = 0%nat) as -> by lia.
        apply Nat.ltb_ge in E1.
        assert (Ea : slice_from t (0 + String.length h) = "").
        { unfold slice_from. rewrite drop_ge by (rewrite length_chars; exact E1). reflexivity. }
        rewrite Ea. change (slice t 0 0) with "". symmetry.
        etrans; [apply (empty_run_invisible [] [_; _])|].
        apply (empty_run_invisible [_] []).
  - unfold annotate_document. cbv zeta.
    set (inss := sort_desc (_create_comment_insertions list_set issues document_text doc)).
    destruct (insert_comments_texts inss doc) as [S1 L1].
    destruct (summary_section_texts has_after (fold_left _insert_comment inss doc) issues)
      as [S2 L2].
    split; [etrans; eassumption|lia].
Qed.

Lemma sublist_in_order (lines texts : list string) :
  lines `sublist_of` texts -> in_order lines texts = true.
Proof.
  revert lines. induction texts as [|text texts IH]; intros lines Hsub.
  - apply sublist_nil_r in Hsub as ->. reflexivity.
  - destruct lines as [|line lines]; [reflexivity|]. simpl.
    destruct (String.eqb_spec line text) as [->|Hne].
    + apply IH. inversion Hsub; subst; [assumption|].
      etrans; [apply sublist_cons; reflexivity|eassumption].
    + apply IH. inversion Hsub; subst; [congruence|assumption].
Qed.

(** C8 at a paragraph that mentions Dubai. *)
Lemma C8_annotation_keeps_original_text_witness :
  let p := add_run empty_paragraph (plain_run "The courts of Dubai decide.") in
  exists before matched after,
    paragraph_text p = before +:+ matched +:+ after /\
    String.length before = 14%nat /\
    filter (fun r => run_text r <> "" \/ run_highlight r = true)
           (p_runs (_highlight_text_in_paragraph p "dubai"))
    = filter (fun r => run_text r <> "" \/ run_highlight r = true)
        [ plain_run before;
          {| run_text := matched; run_bold := false; run_italic := false;
             run_color := None; run_highlight := true; run_size := None |};
          plain_run after ].
Proof.
  apply (proj1 (proj2
           (C8_annotation_keeps_original_text (fun l => l) false [] [] ""))
         (add_run empty_paragraph (plain_run "The courts of Dubai decide.")) "dubai" 14%nat).
  reflexivity.
Defined.

(** C9 at a failing input: a document of one paragraph and one issue.
    With the document library as it is, the call of [insert_paragraph_after]
    raises, the handler of [_add_summary_section] swallows the exception,
    and only the title stands before the original paragraph: no count, no
    severity line, no issue description, no separator.  With a library
    that has the method, every line lands right after the title, so the
    separator comes first and the lines follow in reverse order.  In neither
    case does the document start with the block in the order that the
    summary content has, nor do the lines of the summary content followed by
    the separator occur in that order anywhere in it. *)
Theorem C9_summary_block_at_failing_input :
  let doc := [add_run empty_paragraph (plain_run "Share capital.")] in
  let issues := [ {| document := "Articles of Association";
                     section := Some "Share Capital";
                     issue := "Missing required clause: Share Capital";
                     severity := HIGH;
                     suggestion := None;
                     adgm_reference := None;
                     line_number := None |} ] in
  paragraph_text <$> _add_summary_section false doc issues
  = ["ADGM COMPLIANCE REVIEW SUMMARY"; "Share capital."] /\
  paragraph_text <$> _add_summary_section true doc issues
  = "ADGM COMPLIANCE REVIEW SUMMARY" :: separator_text
    :: rev (_create_summary_content issues) ++ ["Share capital."] /\
  _create_summary_content issues
  = [ ":bar_chart: Total Issues Found: 1"; "";
      ":red_circle: High: 1 issue(s)";
      ""; ":memo: Key Issues:";
      "1. Missing required clause: Share Capital";
      "";
      ":bulb: Please review the detailed comments throughout the document for specific guidance.";
      "" ] /\
  (forall has_after,
     ~ spec_summary_block issues `prefix_of`
         (paragraph_text <$> _add_summary_section has_after doc issues)) /\
  (forall has_after,
     ~ spec_summary_block issues `prefix_of`
         (paragraph_text <$>
            annotate_document remove_dups has_after doc issues "Share capital.")) /\
  (forall has_after,
     ~ spec_summary_block [] `prefix_of`
         (paragraph_text <$> _add_summary_section has_after doc [])) /\
  (forall has_after,
     ~ (_create_summary_content issues ++ [separator_text]) `sublist_of`
         (paragraph_text <$> _add_summary_section has_after doc issues)).
Proof.
  cbv zeta. split; [vm_compute; reflexivity|]. split; [vm_compute; reflexivity|].
  split; [vm_compute; reflexivity|]. split; [|split; [|split]].
  - intros [|] [k Hk]; vm_compute in Hk; discriminate.
  - intros [|] [k Hk]; vm_compute in Hk; discriminate.
  - intros [|] [k Hk]; vm_compute in Hk; discriminate.
  - intros [|] Hsub; apply sublist_in_order in Hsub; vm_compute in Hsub; discriminate.
Qed.

End Annotation.

(* ===================================================================== *)
(** * Part III.  Further properties of the code                           *)
(* ===================================================================== *)

(** ** Scores *)

Section ScoreOrder.
Import ProcessingEngine.
Local Open Scope Q_scope.

Lemma round_half_even_mono x y :
  x <= y -> (round_half_even x <= round_half_even y)%Z.
Proof.
  intros Hxy.
  pose proof (Qfloor_resp_le _ _ Hxy) as Hf.
  pose proof (Qfloor_le x) as Hx0. pose proof (Qlt_floor x) as Hx1.
  pose proof (Qfloor_le y) as Hy0. pose proof (Qlt_floor y) as Hy1.
  rewrite inject_Z_plus in Hx1, Hy1. change (inject_Z 1) with 1 in Hx1, Hy1.
  unfold round_half_even.
  destruct (Z_lt_le_dec (Qfloor x) (Qfloor y)) as [Hlt|Hge].
  - destruct (Qcompare_spec (x - inject_Z (Qfloor x)) (1 # 2));
      destruct (Qcompare_spec (y - inject_Z (Qfloor y)) (1 # 2));
      repeat match goal with |- context [Z.even ?z] => destruct (Z.even z) end; lia.
  - assert (E : Qfloor x = Qfloor y) by lia. rewrite E in *.
    destruct (Qcompare_spec (x - inject_Z (Qfloor y)) (1 # 2));
      destruct (Qcompare_spec (y - inject_Z (Qfloor y)) (1 # 2));
      repeat match goal with |- context [Z.even ?z] => destruct (Z.even z) end;
      try lia; exfalso; lra.
Qed.

Lemma round1_mono x y : x <= y -> round1 x <= round1 y.
Proof.
  intros Hxy. unfold round1.
  assert (H : (round_half_even (x * 10) <= round_half_even (y * 10))%Z)
    by (apply round_half_even_mono; lra).
  unfold Qle. simpl. lia.
Qed.

Lemma py_max_mono a b c : b <= c -> py_max a b <= py_max a c.
Proof.
  intros H. unfold py_max.
  destruct (Qlt_le_dec a b), (Qlt_le_dec a c); lra.
Qed.

(** The score is the rounded raw score, also for an empty issue list. *)
Lemma score_rounded_raw (issues : list DocumentIssue) (wc : nat) :
  _calculate_compliance_score issues wc
  == round1 (py_max 0 (100 - inject_Z (total_penalty issues) / per_100_words wc)).
Proof.
  destruct issues as [|i rest]; [|reflexivity].
  simpl.
  assert (R : py_max 0 (100 - inject_Z 0 / per_100_words wc) == 100).
  { pose proof (per_100_words_pos wc) as Hw.
    assert (Z0 : inject_Z 0 / per_100_words wc == 0).
    { unfold Qdiv. change (inject_Z 0) with 0. lra. }
    unfold py_max. destruct (Qlt_le_dec 0 (100 - inject_Z 0 / per_100_words wc)); lra. }
  rewrite (round1_comp _ _ R). reflexivity.
Qed.

Lemma total_penalty_sublist (l1 l2 : list DocumentIssue) :
  l1 `sublist_of` l2 -> (total_penalty l1 <= total_penalty l2)%Z.
Proof.
  induction 1 as [|x l1 l2 _ IH|x l1 l2 _ IH]; simpl; [lia|lia|].
  destruct (severity x); simpl; lia.
Qed.

Lemma per_100_words_mono (n m : nat) :
  (n <= m)%nat -> per_100_words n <= per_100_words m.
Proof.
  intros H. unfold per_100_words.
  assert (Z.of_nat n # 100 <= Z.of_nat m # 100) by (unfold Qle; simpl; lia).
  unfold py_max.
  destruct (Qlt_le_dec (Z.of_nat n # 100) 1), (Qlt_le_dec (Z.of_nat m # 100) 1); lra.
Qed.

Lemma penalty_quotient_order (a a' b b' : Q) :
  0 <= a -> a <= a' -> 1 <= b -> b <= b' -> a / b' <= a' / b.
Proof.
  intros Ha Haa Hb Hbb.
  apply Qle_shift_div_r; [lra|].
  assert (Hq : a' / b * b == a') by (field; lra).
  assert (H0 : 0 <= a' / b) by (apply Qle_shift_div_l; lra).
  assert (H1 : a' / b * b <= a' / b * b') by nra.
  lra.
Qed.

Lemma compliance_score_range (issues : list DocumentIssue) (wc : nat) :
  0 <= _calculate_compliance_score issues wc /\
  _calculate_compliance_score issues wc <= 100.
Proof.
  rewrite score_rounded_raw. apply round1_range; [apply py_max_le_l|].
  apply py_max_lub; [lra|].
  pose proof (total_penalty_nonneg issues) as Hp.
  pose proof (per_100_words_pos wc) as Hw.
  assert (0 <= inject_Z (total_penalty issues))
    by (change 0 with (inject_Z 0); rewrite <- Zle_Qle; lia).
  assert (0 <= inject_Z (total_penalty issues) / per_100_words wc)
    by (apply Qle_shift_div_l; lra).
  lra.
Qed.

(** X1.  Fewer issues and more words never give a lower score: when the
    issues of one list are among those of another and the word count is not
    smaller, the score is at least that of the other list. *)
Theorem X1_score_monotone (issues issues' : list DocumentIssue) (wc wc' : nat) :
  issues `sublist_of` issues' ->
  (wc <= wc')%nat ->
  _calculate_compliance_score issues' wc <= _calculate_compliance_score issues wc'.
Proof.
  intros Hsub Hwc. rewrite !score_rounded_raw.
  apply round1_mono, py_max_mono.
  pose proof (total_penalty_sublist _ _ Hsub) as Hp.
  pose proof (total_penalty_nonneg issues) as H0.
  pose proof (per_100_words_pos wc) as Hw.
  pose proof (per_100_words_mono _ _ Hwc) as Hww.
  assert (inject_Z (total_penalty issues) / per_100_words wc'
          <= inject_Z (total_penalty issues') / per_100_words wc).
  { apply penalty_quotient_order; try assumption.
    - change 0 with (inject_Z 0). rewrite <- Zle_Qle. lia.
    - rewrite <- Zle_Qle. exact Hp. }
  lra.
Qed.

(** X1 at a High issue with and without a Low one, 150 and 400 words. *)
Lemma X1_score_monotone_witness :
  let high := mkIssue "Articles of Association" (Some "Jurisdiction Clause")
                "Missing ADGM jurisdiction clause" HIGH None None None in
  let low := mkIssue "Articles of Association" (Some "Date Format")
               "Inconsistent date format detected" LOW None None None in
  _calculate_compliance_score [low; high] 150 <= _calculate_compliance_score [high] 400.
Proof.
  cbv zeta. apply X1_score_monotone.
  - apply sublist_cons. reflexivity.
  - lia.
Defined.

(** The two sums of the overall score, from any starting values. *)
Lemma overall_sums_between (lo hi : Q) (das : list DocumentAnalysis) (tws tw : Q) :
  Forall (fun a => lo <= da_compliance_score a /\ da_compliance_score a <= hi) das ->
  lo * tw <= tws -> tws <= hi * tw -> 0 <= tw ->
  let sums :=
    fold_left (fun '(total_weighted_score, total_weight) analysis =>
                 let weight := per_100_words (da_word_count analysis) in
                 (total_weighted_score + da_compliance_score analysis * weight,
                  total_weight + weight))
              das (tws, tw) in
  lo * snd sums <= fst sums /\ fst sums <= hi * snd sums /\
  tw + inject_Z (Z.of_nat (length das)) <= snd sums.
Proof.
  intros Hall. revert tws tw. induction Hall as [|a das [Hlo Hhi] _ IH];
    intros tws tw H1 H2 H3; cbv zeta.
  - simpl. change (inject_Z (Z.of_nat 0)) with 0. repeat split; lra.
  - simpl fold_left. pose proof (per_100_words_pos (da_word_count a)) as Hw.
    set (w := per_100_words (da_word_count a)) in *.
    destruct (IH (tws + da_compliance_score a * w) (tw + w)) as (I1 & I2 & I3);
      [nra|nra|lra|].
    cbv zeta in I1, I2, I3. split; [exact I1|]. split; [exact I2|].
    simpl length. rewrite Nat2Z.inj_succ, <- Z.add_1_r, inject_Z_plus.
    change (inject_Z 1) with 1. lra.
Qed.

Lemma round_half_even_Z (n : Z) : round_half_even (inject_Z n) = n.
Proof.
  unfold round_half_even. rewrite Qfloor_Z.
  assert (E : (inject_Z n - inject_Z n ?= 1 # 2) = Lt).
  { apply -> Qlt_alt. lra. }
  rewrite E. reflexivity.
Qed.

Lemma round1_tenth (n : Z) : round1 (n # 10) = n # 10.
Proof.
  unfold round1. rewrite (round_half_even_comp ((n # 10) * 10) (inject_Z n)).
  - rewrite round_half_even_Z. reflexivity.
  - unfold Qeq, Qmult, inject_Z; simpl. lia.
Qed.

Lemma overall_score_between (lo hi : Q) (das : list DocumentAnalysis) :
  Forall (fun a => lo <= da_compliance_score a /\ da_compliance_score a <= hi) das ->
  das <> [] ->
  round1 lo <= _calculate_overall_score das /\
  _calculate_overall_score das <= round1 hi.
Proof.
  intros Hall Hd. destruct das as [|a rest]; [congruence|].
  unfold _calculate_overall_score, overall_sums.
  pose proof (overall_sums_between lo hi (a :: rest) 0 0 Hall) as H.
  cbv zeta in H. destruct H as (H1 & H2 & H3); [lra|lra|lra|].
  destruct (fold_left _ (a :: rest) (0, 0)) as [tws tw]. simpl fst in *. simpl snd in *.
  assert (Hpos : 0 < tw).
  { simpl length in H3. rewrite Nat2Z.inj_succ, <- Z.add_1_r, inject_Z_plus in H3.
    change (inject_Z 1) with 1 in H3.
    assert (0 <= inject_Z (Z.of_nat (length rest)))
      by (change 0 with (inject_Z 0); rewrite <- Zle_Qle; lia).
    lra. }
  destruct (Qlt_le_dec 0 tw) as [_|Hle]; [|lra].
  split; apply round1_mono.
  - apply Qle_shift_div_l; [exact Hpos|exact H1].
  - apply Qle_shift_div_r; [exact Hpos|exact H2].
Qed.

Lemma overall_score_range (das : list DocumentAnalysis) :
  Forall (fun a => 0 <= da_compliance_score a /\ da_compliance_score a <= 100) das ->
  0 <= _calculate_overall_score das /\ _calculate_overall_score das <= 100.
Proof.
  intros Hall. destruct das as [|a rest]; [simpl; lra|].
  destruct (overall_score_between 0 100 (a :: rest) Hall) as [Hl Hh]; [discriminate|].
  change (round1 0) with (0 # 10) in Hl. change (round1 100) with (1000 # 10) in Hh.
  split; [|].
  - eapply Qle_trans; [|exact Hl]. unfold Qle; simpl; lia.
  - eapply Qle_trans; [exact Hh|]. unfold Qle; simpl; lia.
Qed.

Lemma analysis_score_range (rag flags : Result (list DocumentIssue))
    (parsed_doc : ParsedDoc) :
  0 <= da_compliance_score (_analyze_single_document rag flags parsed_doc) /\
  da_compliance_score (_analyze_single_document rag flags parsed_doc) <= 100.
Proof.
  unfold _analyze_single_document. cbv zeta.
  destruct (ComplianceChecker.check_compliance _ _ _) as [ci|e]; simpl; [|lra].
  destruct rag as [ri|e]; simpl; [|lra].
  destruct flags as [fi|e]; simpl; [|lra].
  apply compliance_score_range.
Qed.

(** X2.  The overall score of a batch is 0 for no analysis.  Otherwise,
    when every document score lies between two multiples of 1/10, so does
    the overall score; in particular it lies between 0 and 100 when the
    document scores do, and it is the common score when all documents have
    the same score and that score is a multiple of 1/10, as the scores that
    [_calculate_compliance_score] returns are. *)
Theorem X2_overall_score_between (lo hi : Z) (das : list DocumentAnalysis) :
  Forall (fun a => lo # 10 <= da_compliance_score a /\
                   da_compliance_score a <= hi # 10) das ->
  _calculate_overall_score [] = 0 /\
  (das <> [] ->
   lo # 10 <= _calculate_overall_score das /\
   _calculate_overall_score das <= hi # 10).
Proof.
  intros Hall. split; [reflexivity|]. intros Hd.
  destruct (overall_score_between (lo # 10) (hi # 10) das Hall Hd) as [Hl Hh].
  rewrite round1_tenth in Hl. rewrite round1_tenth in Hh.
  split; assumption.
Qed.

(** X2 at two analyses with scores 90 and 70. *)
Lemma X2_overall_score_between_witness :
  let a := mkAnalysis "a.docx" ARTICLES_OF_ASSOCIATION 1 [] 90 250 in
  let b := mkAnalysis "b.docx" OTHER 0 [] 70 40 in
  _calculate_overall_score [] = 0 /\
  ([a; b] <> [] ->
   700 # 10 <= _calculate_overall_score [a; b] /\
   _calculate_overall_score [a; b] <= 900 # 10).
Proof.
  cbv zeta. apply (X2_overall_score_between 700 900).
  repeat constructor; unfold Qle; simpl; lia.
Defined.

(** X3.  Whatever the checks and the advisory calls return, and also when
    one of them fails, the analysis of a document holds no two issues with
    the same signature, has a score between 0 and 100, and carries the file
    name and the word count of the parsed document. *)
Theorem X3_analysis_invariants (rag flags : Result (list DocumentIssue))
    (parsed_doc : ParsedDoc) :
  let analysis := _analyze_single_document rag flags parsed_doc in
  NoDup (signature <$> da_issues analysis) /\
  0 <= da_compliance_score analysis /\ da_compliance_score analysis <= 100 /\
  da_filename analysis = pd_filename parsed_doc /\
  da_word_count analysis = pd_word_count parsed_doc /\
  da_document_type analysis = pd_document_type parsed_doc.
Proof.
  cbv zeta. unfold _analyze_single_document. cbv zeta.
  destruct (ComplianceChecker.check_compliance _ _ _) as [ci|e]; simpl;
    [|repeat split; try constructor; lra].
  destruct rag as [ri|e]; simpl; [|repeat split; try constructor; lra].
  destruct flags as [fi|e]; simpl; [|repeat split; try constructor; lra].
  split; [apply dedup_loop_NoDup|].
  split; [apply compliance_score_range|]. split; [apply compliance_score_range|].
  repeat split.
Qed.

(** X28.  Deduplication keeps exactly the first occurrence of each
    signature string (section, issue text and severity joined by
    underscores, a missing section rendered as None), in the original
    order; the signatures, and with them the (section, issue text,
    severity) triples, are unique in the output; deduplication is
    idempotent. *)
Theorem X28_dedup_first_occurrence_of_signature (l : list DocumentIssue) :
  _deduplicate_issues l `sublist_of` l /\
  (forall i, i ∈ _deduplicate_issues l <->
             exists l1 l2, l = l1 ++ i :: l2 /\ ~ (signature i ∈ signature <$> l1)) /\
  NoDup (signature <$> _deduplicate_issues l) /\
  NoDup (triple <$> _deduplicate_issues l) /\
  _deduplicate_issues (_deduplicate_issues l) = _deduplicate_issues l.
Proof.
  unfold _deduplicate_issues.
  split; [apply dedup_loop_sublist|]. split; [|split; [|split]].
  - intros i. rewrite dedup_loop_elem. split.
    + intros (l1 & l2 & E & _ & H). eauto.
    + intros (l1 & l2 & E & H). exists l1, l2. split; [exact E|].
      split; [apply not_elem_of_empty|exact H].
  - apply dedup_loop_NoDup.
  - apply NoDup_triple_of_signature, dedup_loop_NoDup.
  - apply dedup_loop_fixed; [apply dedup_loop_NoDup|].
    intros i _. apply not_elem_of_empty.
Qed.

End ScoreOrder.

(** ** Recommendations and the process *)

Section ProcessExtras.
Import PyStr ChecklistVerifier ProcessingEngine.
Local Open Scope Q_scope.

Lemma collected_recommendations_length (completeness_info : Completeness)
    (document_analyses : list DocumentAnalysis) (process : ProcessType) :
  (1 <= length (collected_recommendations completeness_info document_analyses process)
   <= 10)%nat.
Proof.
  unfold collected_recommendations. cbv zeta. rewrite !length_app.
  destruct (is_complete completeness_info);
    destruct (issues_of_severity document_analyses CRITICAL);
    destruct (issues_of_severity document_analyses HIGH);
    destruct (Qlt_le_dec (_calculate_overall_score document_analyses) 60);
    try destruct (Qlt_le_dec (_calculate_overall_score document_analyses) 80);
    destruct (decide (process = COMPANY_INCORPORATION));
    simpl length; rewrite ?length_fmap, ?length_take; lia.
Qed.

(** X4.  The cut to ten recommendations never removes one: at most ten
    are collected (the missing-documents line with at most three uploads,
    one line each for critical and high issues, one line for the overall
    score, three lines for an incorporation), at least one, and the three
    incorporation lines, when present, close the list. *)
Theorem X4_recommendations_never_cut (completeness_info : Completeness)
    (document_analyses : list DocumentAnalysis) (process : ProcessType) :
  let result := _generate_process_recommendations completeness_info document_analyses
                                                   process in
  result = collected_recommendations completeness_info document_analyses process /\
  (1 <= length result <= 10)%nat /\
  exists front,
    result
    = front ++
      (if decide (process = COMPANY_INCORPORATION)
       then [ DocumentAnnotator.pictograph "classical_building" +:+
              " Ensure all incorporation documents are properly executed";
              DocumentAnnotator.pictograph "memo" +:+
              " Verify company name availability with ADGM Registration Authority";
              DocumentAnnotator.pictograph "office" +:+
              " Confirm registered office address is within ADGM jurisdiction" ]
       else []).
Proof.
  cbv zeta.
  pose proof (collected_recommendations_length completeness_info document_analyses
                process) as Hlen.
  assert (E : _generate_process_recommendations completeness_info document_analyses process
              = collected_recommendations completeness_info document_analyses process).
  { unfold _generate_process_recommendations. apply take_ge. lia. }
  rewrite E. split; [reflexivity|]. split; [exact Hlen|].
  unfold collected_recommendations. cbv zeta.
  eexists. rewrite !app_assoc. reflexivity.
Qed.

Lemma present_count_filter (names required : list string) :
  present_count names required
  = length (filter (fun r => is_present names r = true) required).
Proof.
  unfold present_count.
  enough (G : forall n,
             fold_left (fun score r => if is_present names r then S score else score)
                       required n
             = (n + length (filter (fun r => is_present names r = true) required))%nat)
    by (rewrite G; reflexivity).
  induction required as [|r rest IH]; intros n; simpl; [lia|].
  rewrite IH. destruct (is_present names r) eqn:E.
  - rewrite filter_cons_True by exact E. simpl. lia.
  - rewrite filter_cons_False by (rewrite E; discriminate). lia.
Qed.

(** No document type satisfies a requirement of the licence process. *)
Lemma licence_requirement_never_present (uploaded : list DocumentType) (r : string) :
  r ∈ ["License Application Form"; "Business Plan"; "Financial Projections";
       "Compliance Manual"] ->
  is_present (doc_type_value <$> uploaded) r = false.
Proof.
  intros Hr. unfold is_present. induction uploaded as [|t rest IH]; [reflexivity|].
  rewrite fmap_cons. simpl existsb. rewrite IH, orb_false_r.
  rewrite !elem_of_cons, elem_of_nil in Hr.
  destruct Hr as [->|[->|[->|[->|[]]]]]; destruct t; vm_compute; reflexivity.
Qed.

(** The process identified, by the number of incorporation documents
    present. *)
Lemma identified_process_by_count (uploaded : list DocumentType) :
  let names := doc_type_value <$> uploaded in
  let k := length (filter (fun r => is_present names r = true)
                          ["Articles of Association"; "Memorandum of Association";
                           "UBO Declaration Form"; "Register of Members and Directors";
                           "Board Resolution Templates"]) in
  identify_process_type uploaded
  = if (2 <=? k)%nat
    then Some (COMPANY_INCORPORATION, Z.of_nat k # 5)
    else Some (PROCESS_OTHER, 0).
Proof.
  cbv zeta.
  set (names := doc_type_value <$> uploaded).
  set (required := ["Articles of Association"; "Memorandum of Association";
                    "UBO Declaration Form"; "Register of Members and Directors";
                    "Board Resolution Templates"]).
  set (k := length (filter (fun r => is_present names r = true) required)).
  assert (Hk : present_count names required = k) by apply present_count_filter.
  assert (Hl : present_count names
                 ["License Application Form"; "Business Plan"; "Financial Projections";
                  "Compliance Manual"] = 0%nat).
  { unfold present_count. simpl fold_left. unfold names.
    rewrite !licence_requirement_never_present
      by (rewrite !elem_of_cons; tauto).
    reflexivity. }
  unfold identify_process_type. cbv zeta. fold names.
  unfold process_scores, ADGM_PROCESS_REQUIREMENTS. rewrite !fmap_cons, fmap_nil.
  fold required. rewrite Hk, Hl.
  change (length required) with 5%nat.
  change (process_confidence k 5) with (Z.of_nat k # 5).
  simpl DocumentParser.py_max_by.
  change (process_confidence 0 4) with (0 # 4).
  destruct (Qlt_le_dec (Z.of_nat k # 5) (0 # 4)) as [Hlt|_].
  { exfalso. unfold Qlt in Hlt. simpl in Hlt. lia. }
  simpl snd. simpl fst.
  destruct (2 <=? k)%nat eqn:E2.
  - apply Nat.leb_le in E2.
    assert (Hq : Qle_bool (4 # 10) (Z.of_nat k # 5) = true).
    { apply Qle_bool_iff. unfold Qle. simpl. lia. }
    rewrite Hq. reflexivity.
  - apply Nat.leb_gt in E2.
    assert (Hq : Qle_bool (4 # 10) (Z.of_nat k # 5) = false).
    { apply not_true_is_false. intros H. apply Qle_bool_iff in H.
      unfold Qle in H. simpl in H. lia. }
    rewrite Hq. reflexivity.
Qed.

(** X5.  For documents classified by type, the identified process is
    Company Incorporation, with confidence present/5, as soon as two of its
    five required documents are present, and Other with confidence 0
    otherwise; License Application is never identified, since no document
    type satisfies any of its requirements. *)
Theorem X5_identified_process (uploaded : list DocumentType) :
  let present :=
    total_present (verify_document_completeness uploaded COMPANY_INCORPORATION) in
  identify_process_type uploaded
  = (if (2 <=? present)%nat
     then Some (COMPANY_INCORPORATION, Z.of_nat present # 5)
     else Some (PROCESS_OTHER, 0)) /\
  (forall c, identify_process_type uploaded <> Some (LICENSE_APPLICATION, c)).
Proof.
  cbv zeta.
  destruct (report_fields uploaded COMPANY_INCORPORATION) as (_ & Hp & _ & Htp & _).
  cbv zeta in Hp, Htp. rewrite Htp, Hp.
  change (dict_get ADGM_PROCESS_REQUIREMENTS (process_type_value COMPANY_INCORPORATION))
    with ["Articles of Association"; "Memorandum of Association"; "UBO Declaration Form";
          "Register of Members and Directors"; "Board Resolution Templates"].
  pose proof (identified_process_by_count uploaded) as E. cbv zeta in E.
  split; [exact E|].
  intros c. rewrite E. destruct (2 <=? _)%nat; discriminate.
Qed.

Lemma filter_split_length {A} (P : A -> Prop) `{forall x, Decision (P x)} (l : list A) :
  (length (filter P l) + length (filter (fun x => ~ P x) l) = length l)%nat.
Proof.
  induction l as [|x l IH]; [reflexivity|].
  destruct (decide (P x)) as [Hp|Hp].
  - rewrite filter_cons_True by exact Hp. rewrite filter_cons_False by tauto. simpl. lia.
  - rewrite filter_cons_False by exact Hp. rewrite filter_cons_True by exact Hp. simpl. lia.
Qed.

Lemma filter_sublist_impl {A} (P Q : A -> Prop) `{forall x, Decision (P x)}
    `{forall x, Decision (Q x)} (l : list A) :
  (forall x, P x -> Q x) -> filter P l `sublist_of` filter Q l.
Proof.
  intros Hpq. induction l as [|x l IH]; [reflexivity|].
  destruct (decide (P x)) as [Hp|Hp].
  - rewrite !filter_cons_True by auto. apply sublist_skip, IH.
  - rewrite (filter_cons_False P) by exact Hp.
    destruct (decide (Q x)).
    + rewrite filter_cons_True by assumption. apply sublist_cons, IH.
    + rewrite filter_cons_False by assumption. exact IH.
Qed.

Lemma missing_as_complement (names required : list string) :
  filter (fun r => is_present names r = false) required
  = filter (fun r => ~ is_present names r = true) required.
Proof.
  apply filter_agree. intros r _. destruct (is_present names r); split; congruence.
Qed.

(** X6.  The fields of a completeness report agree with one another: the
    present and the missing documents together are the required ones, the
    report is complete exactly when nothing is missing, the percentage lies
    between 0 and 100 and is 100 exactly when the report is complete, and
    the number of uploads is the number of documents given. *)
Theorem X6_completeness_fields_agree (uploaded : list DocumentType)
    (process : ProcessType) :
  let report := verify_document_completeness uploaded process in
  (total_present report + length (missing_documents report)
   = total_required report)%nat /\
  present_documents report ++ missing_documents report
  ≡ₚ dict_get ADGM_PROCESS_REQUIREMENTS (process_type_value process) /\
  (is_complete report = true <-> missing_documents report = []) /\
  0 <= completeness_percentage report /\ completeness_percentage report <= 100 /\
  (completeness_percentage report == 100 <-> is_complete report = true) /\
  total_uploaded report = length uploaded.
Proof.
  cbv zeta.
  destruct (report_fields uploaded process) as (Hm & Hp & Hr & Htp & Hpc).
  cbv zeta in *.
  set (report := verify_document_completeness uploaded process) in *.
  set (required := dict_get ADGM_PROCESS_REQUIREMENTS (process_type_value process)) in *.
  set (names := doc_type_value <$> uploaded) in *.
  rewrite missing_as_complement in Hm.
  assert (Hsum : (length (present_documents report) + length (missing_documents report)
                  = length required)%nat).
  { rewrite Hm, Hp. apply filter_split_length. }
  assert (Hc : is_complete report = true <-> missing_documents report = []).
  { unfold report, verify_document_completeness. cbv zeta.
    destruct (sort_required _ _ [] []) as [missing present]. simpl.
    rewrite bool_decide_eq_true. destruct missing; simpl; split; intros; congruence || lia. }
  split; [rewrite Htp, Hr; exact Hsum|].
  split; [rewrite Hm, Hp; apply filter_app_complement|].
  split; [exact Hc|].
  assert (Hpct : 0 <= completeness_percentage report /\
                 completeness_percentage report <= 100 /\
                 (completeness_percentage report == 100 <->
                  missing_documents report = [])).
  { rewrite Hpc. destruct (length required) as [|n] eqn:En.
    - simpl. split; [lra|]. split; [lra|]. split; [intros _|reflexivity].
      destruct (missing_documents report); [reflexivity|simpl in Hsum; lia].
    - change (0 <? S n)%nat with true. cbv iota.
      set (p := length (present_documents report)) in *.
      assert (Hle : (p <= S n)%nat) by lia.
      assert (Hd : Z.pos (Pos.of_nat (S n)) = Z.of_nat (S n)) by lia.
      split; [|split; [|split]].
      + unfold Qle, Qmult. simpl. lia.
      + unfold Qle, Qmult. simpl. rewrite Pos.mul_1_r, Hd. lia.
      + unfold Qeq, Qmult. simpl. rewrite Pos.mul_1_r, Hd. intros E.
        destruct (missing_documents report); [reflexivity|simpl in Hsum; lia].
      + intros E. rewrite E in Hsum. simpl in Hsum.
        unfold Qeq, Qmult. simpl. rewrite Pos.mul_1_r, Hd. lia. }
  destruct Hpct as (H0 & H100 & Hiff).
  split; [exact H0|]. split; [exact H100|].
  split; [rewrite Hiff; symmetry; exact Hc|].
  unfold report, verify_document_completeness. cbv zeta.
  destruct (sort_required _ _ [] []). reflexivity.
Qed.

Lemma is_present_more (u u' : list DocumentType) (r : string) :
  (forall t, t ∈ u -> t ∈ u') ->
  is_present (doc_type_value <$> u) r = true ->
  is_present (doc_type_value <$> u') r = true.
Proof.
  intros Hsub. unfold is_present. rewrite !existsb_exists.
  intros (name & Hin & Hm).
  apply list_elem_of_In, list_elem_of_fmap in Hin as (t & -> & Ht).
  exists (doc_type_value t). split; [|exact Hm].
  apply list_elem_of_In, list_elem_of_fmap. exists t. split; [reflexivity|]. auto.
Qed.

(** X7.  Uploading more never makes a report worse: when every type of
    one batch is in another, what the other batch misses is among what the
    first one misses, what the first has present is present in the other,
    and the percentage of the other is at least that of the first. *)
Theorem X7_more_uploads_help (u u' : list DocumentType) (process : ProcessType) :
  (forall t, t ∈ u -> t ∈ u') ->
  let report := verify_document_completeness u process in
  let report' := verify_document_completeness u' process in
  missing_documents report' `sublist_of` missing_documents report /\
  present_documents report `sublist_of` present_documents report' /\
  completeness_percentage report <= completeness_percentage report'.
Proof.
  intros Hsub. cbv zeta.
  destruct (report_fields u process) as (Hm & Hp & _ & _ & Hpc).
  destruct (report_fields u' process) as (Hm' & Hp' & _ & _ & Hpc').
  cbv zeta in *.
  set (required := dict_get ADGM_PROCESS_REQUIREMENTS (process_type_value process)) in *.
  assert (S1 : missing_documents (verify_document_completeness u' process)
               `sublist_of` missing_documents (verify_document_completeness u process)).
  { rewrite Hm, Hm'. apply filter_sublist_impl. intros r Hr.
    destruct (is_present (doc_type_value <$> u) r) eqn:E; [|reflexivity].
    rewrite (is_present_more u u' r Hsub E) in Hr. discriminate. }
  assert (S2 : present_documents (verify_document_completeness u process)
               `sublist_of` present_documents (verify_document_completeness u' process)).
  { rewrite Hp, Hp'. apply filter_sublist_impl. intros r. apply is_present_more, Hsub. }
  split; [exact S1|]. split; [exact S2|].
  rewrite Hpc, Hpc'. destruct (0 <? length required)%nat; [|lra].
  apply sublist_length in S2.
  unfold Qle, Qmult. simpl. nia.
Qed.

(** X7 at the batches Articles and Articles with Memorandum. *)
Lemma X7_more_uploads_help_witness :
  let report := verify_document_completeness [ARTICLES_OF_ASSOCIATION]
                  COMPANY_INCORPORATION in
  let report' := verify_document_completeness
                   [MEMORANDUM_OF_ASSOCIATION; ARTICLES_OF_ASSOCIATION]
                   COMPANY_INCORPORATION in
  missing_documents report' `sublist_of` missing_documents report /\
  present_documents report `sublist_of` present_documents report' /\
  completeness_percentage report <= completeness_percentage report'.
Proof.
  cbv zeta. apply X7_more_uploads_help.
  intros t. rewrite !elem_of_cons, elem_of_nil. tauto.
Defined.

(** X8.  A batch that holds the five document types required for a company
    incorporation is complete for that process, whatever else it holds and
    in whatever order: nothing is missing and the percentage is 100. *)
Theorem X8_full_batch_is_complete (uploaded : list DocumentType) :
  (forall t, t ∈ [ARTICLES_OF_ASSOCIATION; MEMORANDUM_OF_ASSOCIATION; UBO_DECLARATION;
                  REGISTER_MEMBERS_DIRECTORS; BOARD_RESOLUTION] -> t ∈ uploaded) ->
  let report := verify_document_completeness uploaded COMPANY_INCORPORATION in
  missing_documents report = [] /\
  is_complete report = true /\
  total_present report = 5%nat /\
  completeness_percentage report == 100.
Proof.
  intros Hall. cbv zeta.
  destruct (report_fields uploaded COMPANY_INCORPORATION) as (Hm & Hp & _ & Htp & Hpc).
  cbv zeta in *.
  assert (Hpres : forall r,
            r ∈ dict_get ADGM_PROCESS_REQUIREMENTS (process_type_value COMPANY_INCORPORATION) ->
            is_present (doc_type_value <$> uploaded) r = true).
  { intros r Hr.
    apply (is_present_more [ARTICLES_OF_ASSOCIATION; MEMORANDUM_OF_ASSOCIATION;
                            UBO_DECLARATION; REGISTER_MEMBERS_DIRECTORS; BOARD_RESOLUTION]
                           uploaded r Hall).
    change (dict_get ADGM_PROCESS_REQUIREMENTS (process_type_value COMPANY_INCORPORATION))
      with ["Articles of Association"; "Memorandum of Association"; "UBO Declaration Form";
            "Register of Members and Directors"; "Board Resolution Templates"] in Hr.
    rewrite !elem_of_cons, elem_of_nil in Hr.
    destruct Hr as [->|[->|[->|[->|[->|[]]]]]]; vm_compute; reflexivity. }
  assert (Em : missing_documents (verify_document_completeness uploaded COMPANY_INCORPORATION)
               = []).
  { rewrite Hm.
    rewrite (filter_agree _ (fun _ => False)); [|intros r Hr; rewrite (Hpres r Hr); split;
                                                  [discriminate|tauto]].
    clear. induction (dict_get _ _) as [|x l IH]; [reflexivity|].
    rewrite filter_cons_False by tauto. exact IH. }
  assert (Ep : present_documents (verify_document_completeness uploaded COMPANY_INCORPORATION)
               = dict_get ADGM_PROCESS_REQUIREMENTS (process_type_value COMPANY_INCORPORATION)).
  { rewrite Hp.
    rewrite (filter_agree _ (fun _ => True)); [|intros r Hr; rewrite (Hpres r Hr); tauto].
    clear. induction (dict_get _ _) as [|x l IH]; [reflexivity|].
    rewrite filter_cons_True by tauto. rewrite IH. reflexivity. }
  split; [exact Em|]. split; [|split].
  - unfold verify_document_completeness in *. cbv zeta in *.
    destruct (sort_required _ _ [] []) as [missing present]. simpl in *.
    rewrite Em. reflexivity.
  - rewrite Htp, Ep. reflexivity.
  - rewrite Hpc, Ep. vm_compute. reflexivity.
Qed.

(** X8 at a batch of seven documents. *)
Lemma X8_full_batch_is_complete_witness :
  let report :=
    verify_document_completeness
      [OTHER; BOARD_RESOLUTION; REGISTER_MEMBERS_DIRECTORS; UBO_DECLARATION;
       EMPLOYMENT_CONTRACT; MEMORANDUM_OF_ASSOCIATION; ARTICLES_OF_ASSOCIATION]
      COMPANY_INCORPORATION in
  missing_documents report = [] /\
  is_complete report = true /\
  total_present report = 5%nat /\
  completeness_percentage report == 100.
Proof.
  cbv zeta. apply X8_full_batch_is_complete.
  intros t. rewrite !elem_of_cons, elem_of_nil. tauto.
Defined.

End ProcessExtras.

(** ** The rule engine *)

Section RuleEngineExtras.
Import PyStr Re ComplianceChecker ProcessingEngine.

Lemma simple_issue_well_formed ty sec iss sev sugg ref :
  sev <> CRITICAL -> well_formed_issue ty (simple_issue ty sec iss sev sugg ref).
Proof. intros H. unfold well_formed_issue. simpl. repeat split; eauto; discriminate. Qed.

Lemma Forall_optional {A} (P : A -> Prop) (b : bool) (x : A) :
  P x -> Forall P (if b then [x] else []).
Proof. destruct b; constructor; [assumption|constructor]. Qed.

Lemma jurisdiction_well_formed text ty :
  Forall (well_formed_issue ty) (_check_jurisdiction text ty).
Proof.
  unfold _check_jurisdiction. cbv zeta. apply Forall_app. split.
  - apply Forall_flat_map, Forall_forall. intros pattern _.
    apply Forall_fmap, Forall_forall. intros m _.
    unfold well_formed_issue. simpl. repeat split; eauto; discriminate.
  - apply Forall_optional. unfold well_formed_issue. simpl.
    repeat split; eauto; discriminate.
Qed.

Lemma required_clauses_well_formed text ty :
  Forall (well_formed_issue ty) (_check_required_clauses text ty).
Proof.
  unfold _check_required_clauses. cbv zeta.
  apply Forall_flat_map, Forall_forall. intros c Hc.
  destruct (existsb _ _); constructor; [|constructor].
  unfold well_formed_issue. simpl.
  split; [reflexivity|]. do 4 (split; [eauto|]).
  destruct ty; simpl in Hc;
    repeat (apply elem_of_cons in Hc as [->|Hc]; [simpl; discriminate|]);
    apply elem_of_nil in Hc; contradiction.
Qed.

Lemma formatting_well_formed text sc ty l :
  _check_formatting text sc ty = Ok l -> Forall (well_formed_issue ty) l.
Proof.
  unfold _check_formatting. cbv zeta.
  destruct (sc_sections sc) as [|s0 rest] eqn:Es.
  - simpl. intros E. injection E as <-.
    repeat (apply Forall_app; split);
      try (apply Forall_optional, simple_issue_well_formed; discriminate); constructor.
  - destruct (numbered_sections (s0 :: rest)) as [numbered|e]; simpl; [|discriminate].
    intros E. injection E as <-.
    repeat (apply Forall_app; split);
      apply Forall_optional, simple_issue_well_formed; discriminate.
Qed.

Lemma red_flags_well_formed text ty :
  Forall (well_formed_issue ty) (_detect_red_flags text ty).
Proof.
  unfold _detect_red_flags. cbv zeta. repeat (apply Forall_app; split).
  - rewrite ambiguous_loop_spec. apply Forall_optional, simple_issue_well_formed.
    discriminate.
  - destruct (bool_decide _); [|constructor].
    apply Forall_flat_map, Forall_forall. intros [pattern info_name] _.
    destruct (re_search _ _); constructor; [|constructor].
    apply simple_issue_well_formed. discriminate.
  - induction date_patterns as [|p ps IH]; simpl; [constructor|].
    destruct (re_search p text); [|exact IH].
    constructor; [|constructor]. apply simple_issue_well_formed. discriminate.
Qed.

Lemma adgm_specific_well_formed text ty :
  Forall (well_formed_issue ty) (_check_adgm_specific_requirements text ty).
Proof.
  unfold _check_adgm_specific_requirements. cbv zeta.
  apply Forall_app; split; apply Forall_optional, simple_issue_well_formed; discriminate.
Qed.

(** X9.  Every issue that the rule engine returns names the document type
    by its value and carries a section, a suggestion and a reference, no
    line number, and a severity of Low, Medium or High: the rule engine never
    emits a Critical issue. *)
Theorem X9_rule_engine_issues_well_formed (text : string) (ty : DocumentType)
    (sc : StructuredContent) (issues : list DocumentIssue) :
  check_compliance text ty sc = Ok issues ->
  Forall (well_formed_issue ty) issues /\
  Forall (fun i => ProcessingEngine.severity_weights (severity i) <= 7)%Z issues.
Proof.
  intros E.
  assert (Hwf : Forall (well_formed_issue ty) issues).
  { unfold check_compliance, run_checks in E. simpl in E.
    destruct (_check_formatting text sc ty) as [lf|e] eqn:Ef; simpl in E; [|discriminate].
    injection E as <-.
    rewrite !Forall_app.
    split; [apply jurisdiction_well_formed|].
    split; [apply required_clauses_well_formed|].
    split; [apply (formatting_well_formed _ _ _ _ Ef)|].
    split; [apply red_flags_well_formed|apply adgm_specific_well_formed]. }
  split; [exact Hwf|].
  eapply Forall_impl; [exact Hwf|]. intros i (_ & _ & _ & _ & _ & Hs).
  destruct (severity i); simpl; try lia. congruence.
Qed.

(** X9 at a short text of type Articles of Association. *)
Lemma X9_rule_engine_issues_well_formed_witness :
  exists issues,
    check_compliance "Disputes go to Dubai Courts." ARTICLES_OF_ASSOCIATION
      {| sc_sections := []; sc_clauses := []; sc_tables := []; sc_signatures := [] |}
    = Ok issues /\
    Forall (well_formed_issue ARTICLES_OF_ASSOCIATION) issues /\
    Forall (fun i => ProcessingEngine.severity_weights (severity i) <= 7)%Z issues.
Proof.
  eexists. split; [vm_compute; reflexivity|].
  apply (X9_rule_engine_issues_well_formed "Disputes go to Dubai Courts."
           ARTICLES_OF_ASSOCIATION
           {| sc_sections := []; sc_clauses := []; sc_tables := []; sc_signatures := [] |}).
  vm_compute. reflexivity.
Defined.

Lemma numbered_sections_ok (sections : list (gmap string PyVal)) :
  (exists l, numbered_sections sections = Ok l) <-> Forall has_text sections.
Proof.
  induction sections as [|s rest IH]; simpl.
  - split; [constructor|eauto].
  - destruct (s !! "text") as [[t|n]|] eqn:Et.
    + destruct (numbered_sections rest) as [tl|e]; simpl.
      * split; [|eauto]. intros _. constructor; [exists t; exact Et|].
        apply IH. eauto.
      * split; [intros [l Hl]; discriminate|].
        intros H. apply Forall_cons in H as [_ H]. apply IH in H as [l Hl]. discriminate.
    + split; [intros [l Hl]; discriminate|].
      intros H. apply Forall_cons in H as [[t Ht] _]. congruence.
    + split; [intros [l Hl]; discriminate|].
      intros H. apply Forall_cons in H as [[t Ht] _]. congruence.
Qed.

(** The exception comes from the first section entry that cannot be read:
    [KeyError] when it has no key 'text', [TypeError] when it holds an
    integer there. *)
Lemma numbered_sections_raises (sections : list (gmap string PyVal)) (e : PyExn) :
  numbered_sections sections = Raise e ->
  exists before s after,
    sections = before ++ s :: after /\ Forall has_text before /\
    (s !! "text" = None /\ e = KeyError "text" \/
     exists n msg, s !! "text" = Some (VInt n) /\ e = TypeError msg).
Proof.
  induction sections as [|s rest IH]; simpl; [discriminate|].
  destruct (s !! "text") as [[t|n]|] eqn:Et.
  - destruct (numbered_sections rest); simpl; [discriminate|].
    intros E. injection E as <-.
    destruct (IH eq_refl) as (before & s' & after & -> & Hb & Hs).
    exists (s :: before), s', after. split; [reflexivity|].
    split; [constructor; [exists t; exact Et|exact Hb]|exact Hs].
  - intros E. injection E as <-. exists [], s, rest.
    split; [reflexivity|]. split; [constructor|]. right. eauto.
  - intros E. injection E as <-. exists [], s, rest.
    split; [reflexivity|]. split; [constructor|]. left. auto.
Qed.

(** X10.  The formatting check returns issues exactly when every section
    entry holds a string under the key 'text'; otherwise it raises, for the
    first entry that does not, [KeyError] for the key when the entry lacks
    it and [TypeError] when the entry holds an integer there.  When it
    returns, it returns at most three issues, and none about numbering when
    there are no sections. *)
Theorem X10_formatting_check_outcome (text : string) (sc : StructuredContent)
    (ty : DocumentType) :
  ((exists l, _check_formatting text sc ty = Ok l) <-> Forall has_text (sc_sections sc)) /\
  (forall e, _check_formatting text sc ty = Raise e ->
             exists before s after,
               sc_sections sc = before ++ s :: after /\ Forall has_text before /\
               (s !! "text" = None /\ e = KeyError "text" \/
                exists n msg, s !! "text" = Some (VInt n) /\ e = TypeError msg)) /\
  (forall l, _check_formatting text sc ty = Ok l ->
             length l <= 3 /\
             (sc_sections sc = [] ->
              Forall (fun i => issue i <> "Inconsistent section numbering") l)).
Proof.
  unfold _check_formatting. cbv zeta.
  destruct (sc_sections sc) as [|s0 rest] eqn:Es.
  - simpl. split; [split; [constructor|eauto]|]. split; [discriminate|].
    intros l E. injection E as <-.
    repeat match goal with |- context [if ?b then _ else _] => destruct b end;
      simpl; split; try lia; intros _; repeat constructor; simpl; discriminate.
  - pose proof (numbered_sections_ok (s0 :: rest)) as Hok.
    pose proof (numbered_sections_raises (s0 :: rest)) as Hr.
    destruct (numbered_sections (s0 :: rest)) as [numbered|e]; simpl.
    + split; [split; [intros _; apply Hok; eauto|eauto]|]. split; [discriminate|].
      intros l E. injection E as <-. split; [|discriminate].
      repeat match goal with |- context [if ?b then _ else _] => destruct b end;
        simpl; lia.
    + split; [split; [intros [l Hl]; discriminate|]|].
      * intros H. apply Hok in H as [l Hl]. discriminate.
      * split; [|discriminate]. intros e' E. injection E as <-. apply Hr. reflexivity.
Qed.

Lemma search_from_found (r : regex) (pre s : list ascii) (prev : option ascii) :
  (forall p, is_Some (match_here r p s)) ->
  is_Some (search_from r prev (pre ++ s)).
Proof.
  intros Hm. revert prev. induction pre as [|c pre IH]; intros prev.
  - simpl. destruct (Hm prev) as [m Em].
    destruct s as [|c s']; simpl; rewrite Em; eauto.
  - simpl. destruct (match_here r prev (c :: pre ++ s)); [eauto|].
    apply IH.
Qed.

(** A pattern that matches wherever a phrase stands is found in every text
    that contains the phrase. *)
Lemma re_search_phrase (pattern phrase : string) (r : regex) (text a b : string) :
  compile pattern = Some r ->
  (forall p tail, is_Some (match_here r p (chars phrase ++ tail))) ->
  text = a +:+ phrase +:+ b ->
  re_search pattern text = true.
Proof.
  intros Hc Hm ->. unfold re_search. rewrite Hc.
  apply bool_decide_eq_true. rewrite !chars_append.
  apply search_from_found. intros p. apply Hm.
Qed.

Lemma company_name_matches :
  exists r, compile "company\s+name" = Some r /\
            forall p tail, is_Some (match_here r p (chars "company name" ++ tail)).
Proof.
  eexists; split; [vm_compute; reflexivity|].
  intros p tail; destruct tail as [|c tail]; vm_compute; eauto.
Qed.

Lemma share_capital_matches :
  exists r, compile "share\s+capital" = Some r /\
            forall p tail, is_Some (match_here r p (chars "share capital" ++ tail)).
Proof.
  eexists; split; [vm_compute; reflexivity|].
  intros p tail; destruct tail as [|c tail]; vm_compute; eauto.
Qed.

Lemma directors_powers_matches :
  exists r, compile "directors?\s+powers?" = Some r /\
            forall p tail, is_Some (match_here r p (chars "directors powers" ++ tail)).
Proof.
  eexists; split; [vm_compute; reflexivity|].
  intros p tail; destruct tail as [|c tail]; vm_compute; eauto.
Qed.

Lemma adgm_courts_matches :
  exists r, compile "adgm\s+courts?" = Some r /\
            forall p tail, is_Some (match_here r p (chars "adgm courts" ++ tail)).
Proof.
  eexists; split; [vm_compute; reflexivity|].
  intros p tail; destruct tail as [|c tail]; vm_compute; eauto.
Qed.

(** X11.  A text of type Articles of Association whose lower-cased form
    contains "company name", "share capital" and "directors powers" gets no
    missing-clause issue. *)
Theorem X11_required_clauses_present (text a1 b1 a2 b2 a3 b3 : string) :
  lower text = a1 +:+ "company name" +:+ b1 ->
  lower text = a2 +:+ "share capital" +:+ b2 ->
  lower text = a3 +:+ "directors powers" +:+ b3 ->
  _check_required_clauses text ARTICLES_OF_ASSOCIATION = [].
Proof.
  intros H1 H2 H3.
  destruct company_name_matches as (r1 & C1 & M1).
  destruct share_capital_matches as (r2 & C2 & M2).
  destruct directors_powers_matches as (r3 & C3 & M3).
  unfold _check_required_clauses. cbv zeta.
  change (required_clauses ARTICLES_OF_ASSOCIATION)
    with [ mkClause "Company Name" ["company\s+name"; "name\s+of\s+the\s+company"]
             HIGH "ADGM Companies Regulations 2020, Art. 15";
           mkClause "Share Capital" ["share\s+capital"; "authorized\s+capital"]
             HIGH "ADGM Companies Regulations 2020, Art. 25";
           mkClause "Directors Powers" ["directors?\s+powers?"; "board\s+powers?"]
             MEDIUM "ADGM Companies Regulations 2020, Art. 45" ].
  cbn [flat_map clause_patterns existsb].
  rewrite (re_search_phrase _ _ _ _ _ _ C1 M1 H1).
  rewrite (re_search_phrase _ _ _ _ _ _ C2 M2 H2).
  rewrite (re_search_phrase _ _ _ _ _ _ C3 M3 H3).
  reflexivity.
Qed.

(** X11 at a text with the three headings. *)
Lemma X11_required_clauses_present_witness :
  _check_required_clauses
    "Company Name: Test Ltd. Share Capital: AED 100. Directors Powers: full."
    ARTICLES_OF_ASSOCIATION = [].
Proof.
  apply (X11_required_clauses_present _
           "" ": test ltd. share capital: aed 100. directors powers: full."
           "company name: test ltd. " ": aed 100. directors powers: full."
           "company name: test ltd. share capital: aed 100. " ": full.");
    reflexivity.
Defined.

(** X12.  A text whose lower-cased form contains "adgm courts" never gets
    the issue "Missing ADGM jurisdiction clause", whatever its type; every
    jurisdiction issue it gets reports an incorrect reference. *)
Theorem X12_adgm_courts_named (text a b : string) (ty : DocumentType) :
  lower text = a +:+ "adgm courts" +:+ b ->
  has_adgm_jurisdiction text = true /\
  filter is_missing_jurisdiction (_check_jurisdiction text ty) = [] /\
  Forall is_incorrect_reference (_check_jurisdiction text ty).
Proof.
  intros H. destruct adgm_courts_matches as (r & C & M).
  assert (Hadgm : has_adgm_jurisdiction text = true).
  { unfold has_adgm_jurisdiction, adgm_patterns. cbn [existsb].
    rewrite (re_search_phrase _ _ _ _ _ _ C M H). reflexivity. }
  split; [exact Hadgm|].
  unfold _check_jurisdiction. cbv zeta. rewrite Hadgm. simpl negb. cbn [andb].
  rewrite app_nil_r. split.
  - rewrite filter_flat_map. apply flat_map_nil. intros pattern.
    apply filter_incorrect_all.
  - apply Forall_flat_map, Forall_forall. intros pattern _.
    apply Forall_fmap, Forall_forall. intros m _. exists m. reflexivity.
Qed.

(** X12 at a text that names the ADGM Courts and the Dubai Courts. *)
Lemma X12_adgm_courts_named_witness :
  has_adgm_jurisdiction "ADGM Courts, not Dubai Courts." = true /\
  filter is_missing_jurisdiction
    (_check_jurisdiction "ADGM Courts, not Dubai Courts." COMMERCIAL_AGREEMENT) = [] /\
  Forall is_incorrect_reference
    (_check_jurisdiction "ADGM Courts, not Dubai Courts." COMMERCIAL_AGREEMENT).
Proof.
  apply (X12_adgm_courts_named _ "" ", not dubai courts."). reflexivity.
Defined.

Lemma date_loop_spec ty text (patterns : list string) :
  date_loop ty text patterns
  = if existsb (fun pattern => re_search pattern text) patterns
    then [date_issue ty] else [].
Proof.
  induction patterns as [|p ps IH]; simpl; [reflexivity|].
  destruct (re_search p text); simpl; [reflexivity|exact IH].
Qed.

(** X13.  The red-flag check returns at most five issues, and at most two
    for a type other than Articles of Association; among them the date
    issue occurs once when one of the two date patterns is found in the
    text as written, and not at all otherwise. *)
Theorem X13_red_flags_bounded (text : string) (ty : DocumentType) :
  let flags := _detect_red_flags text ty in
  length flags <= (if decide (ty = ARTICLES_OF_ASSOCIATION) then 5 else 2) /\
  filter is_date_issue flags
  = (if existsb (fun pattern => re_search pattern text) date_patterns
     then [date_issue ty] else []).
Proof.
  cbv zeta. unfold _detect_red_flags. cbv zeta.
  rewrite ambiguous_loop_spec, date_loop_spec. split.
  - rewrite !length_app.
    destruct (decide (ty = ARTICLES_OF_ASSOCIATION)) as [->|Hne].
    + rewrite bool_decide_eq_true_2 by reflexivity.
      unfold essential_info. cbn [flat_map].
      repeat match goal with |- context [if ?b then _ else _] => destruct b end;
        simpl; lia.
    + rewrite bool_decide_eq_false_2 by exact Hne.
      repeat match goal with |- context [if ?b then _ else _] => destruct b end;
        simpl; lia.
  - rewrite !filter_app.
    assert (E1 : filter is_date_issue
                   (if existsb (exceeds (lower text)) ambiguous_patterns
                    then [ambiguous_issue ty] else []) = []).
    { destruct (existsb _ _); reflexivity. }
    assert (E2 : filter is_date_issue
                   (if bool_decide (ty = ARTICLES_OF_ASSOCIATION)
                    then flat_map (fun '(pattern, info_name) =>
                                     if re_search pattern (lower text) then []
                                     else [essential_issue ty info_name]) essential_info
                    else []) = []).
    { destruct (bool_decide _); [|reflexivity].
      rewrite filter_flat_map. apply flat_map_nil. intros [pattern info_name].
      destruct (re_search pattern (lower text)); [reflexivity|].
      rewrite filter_cons_False; [reflexivity|].
      unfold is_date_issue. simpl. discriminate. }
    rewrite E1, E2. simpl.
    match goal with |- context [if ?b then _ else _] => destruct b end;
      reflexivity.
Qed.

Lemma split_at_underscore (a a' r r' : list ascii) :
  forallb (fun c => negb (Ascii.eqb c "_")) a = true ->
  forallb (fun c => negb (Ascii.eqb c "_")) a' = true ->
  a ++ "_"%char :: r = a' ++ "_"%char :: r' -> a = a' /\ r = r'.
Proof.
  revert a'. induction a as [|c a IH]; intros [|c' a'] Ha Ha' E; simpl in *.
  - injection E as ->. auto.
  - injection E as <- _. rewrite Ascii.eqb_refl in Ha'. discriminate.
  - injection E as -> _. rewrite Ascii.eqb_refl in Ha. discriminate.
  - injection E as -> E. apply andb_true_iff in Ha as [_ Ha], Ha' as [_ Ha'].
    destruct (IH a' Ha Ha' E) as [-> ->]. auto.
Qed.

Lemma severity_value_plain (s : SeverityLevel) :
  forallb (fun c => negb (Ascii.eqb c "_")) (rev (chars (severity_value s))) = true.
Proof. destruct s; reflexivity. Qed.

Lemma chars_inj (a b : string) : chars a = chars b -> a = b.
Proof. intros E. rewrite <- (str_chars a), <- (str_chars b), E. reflexivity. Qed.

Lemma signature_decides_triple (i j : DocumentIssue) :
  plain_section i = true -> plain_section j = true ->
  signature i = signature j -> triple i = triple j.
Proof.
  unfold plain_section, signature, triple. intros Hi Hj E.
  destruct (section i) as [s|]; [|discriminate].
  destruct (section j) as [s'|]; [|discriminate]. simpl in E.
  apply (f_equal chars) in E. rewrite !chars_append in E.
  change (chars "_") with ["_"%char] in E. simpl app in E.
  apply split_at_underscore in E as [Es E]; [|assumption|assumption].
  apply chars_inj in Es as ->.
  apply (f_equal (@rev _)) in E. rewrite !rev_app_distr in E. simpl rev in E.
  rewrite <- !app_assoc in E. simpl app in E.
  apply split_at_underscore in E as [Ev E]; [|apply severity_value_plain..].
  apply (f_equal (@rev _)) in Ev, E. rewrite !rev_involutive in Ev, E.
  apply chars_inj in Ev, E. rewrite E.
  assert (severity i = severity j) as -> by (destruct (severity i), (severity j); simpl in Ev; congruence).
  reflexivity.
Qed.

Lemma rule_engine_plain_sections (text : string) (ty : DocumentType)
    (sc : StructuredContent) (issues : list DocumentIssue) :
  check_compliance text ty sc = Ok issues ->
  Forall (fun i => plain_section i = true) issues.
Proof.
  unfold check_compliance, run_checks. simpl.
  destruct (_check_formatting text sc ty) as [lf|e] eqn:Ef; simpl; [|discriminate].
  intros [= <-]. rewrite !Forall_app. split; [|split; [|split; [|split]]].
  - unfold _check_jurisdiction. cbv zeta. apply Forall_app. split.
    + apply Forall_flat_map, Forall_forall. intros pattern _.
      apply Forall_fmap, Forall_forall. intros m _. reflexivity.
    + apply Forall_optional. reflexivity.
  - unfold _check_required_clauses. cbv zeta.
    apply Forall_flat_map, Forall_forall. intros c Hc.
    destruct (existsb _ _); constructor; [|constructor].
    destruct ty; simpl in Hc;
      repeat (apply elem_of_cons in Hc as [->|Hc]; [reflexivity|]);
      apply elem_of_nil in Hc; contradiction.
  - revert Ef. unfold _check_formatting. cbv zeta.
    destruct (sc_sections sc) as [|s0 rest].
    + simpl. intros [= <-].
      repeat (apply Forall_app; split); try (apply Forall_optional; reflexivity);
        constructor.
    + destruct (numbered_sections (s0 :: rest)) as [numbered|e]; simpl; [|discriminate].
      intros [= <-].
      repeat (apply Forall_app; split); apply Forall_optional; reflexivity.
  - unfold _detect_red_flags. cbv zeta. repeat (apply Forall_app; split).
    + rewrite ambiguous_loop_spec. apply Forall_optional. reflexivity.
    + destruct (bool_decide _); [|constructor].
      apply Forall_flat_map, Forall_forall. intros [pattern info_name] Hin.
      destruct (re_search _ _); constructor; [|constructor].
      unfold essential_info in Hin.
      repeat (apply elem_of_cons in Hin as [[= -> ->]|Hin]; [reflexivity|]).
      apply elem_of_nil in Hin. contradiction.
    + rewrite date_loop_spec. apply Forall_optional. reflexivity.
  - unfold _check_adgm_specific_requirements. cbv zeta.
    apply Forall_app; split; apply Forall_optional; reflexivity.
Qed.

(** X25.  On the issues of the rule engine the signature string decides
    the section, the text and the severity: every such issue has a section
    without an underscore, so that no two of them with different triples
    share a signature, and deduplication keeps the first issue of every
    (section, text, severity), also when issues of other sources whose
    sections have no underscore are appended. *)
Theorem X25_rule_engine_issues_deduplicate_by_triple (text : string) (ty : DocumentType)
    (sc : StructuredContent) (issues others : list DocumentIssue) :
  check_compliance text ty sc = Ok issues ->
  Forall (fun i => plain_section i = true) others ->
  Forall (fun i => plain_section i = true) issues /\
  (forall i j, i ∈ issues ++ others -> j ∈ issues ++ others ->
               signature i = signature j -> triple i = triple j) /\
  _deduplicate_issues (issues ++ others) = spec_dedup (issues ++ others).
Proof.
  intros E Ho. pose proof (rule_engine_plain_sections text ty sc issues E) as Hi.
  split; [exact Hi|].
  assert (Hall : Forall (fun i => plain_section i = true) (issues ++ others))
    by (apply Forall_app; split; assumption).
  assert (Hinj : forall i j, i ∈ issues ++ others -> j ∈ issues ++ others ->
                             signature i = signature j -> triple i = triple j).
  { rewrite Forall_forall in Hall. intros i j Hi' Hj'.
    apply signature_decides_triple; auto. }
  split; [exact Hinj|]. apply dedup_agrees_without_collisions. exact Hinj.
Qed.

(** X25 at a text that names the Dubai Courts, with one advisory issue that
    repeats an issue of the rule engine. *)
Lemma X25_rule_engine_issues_deduplicate_by_triple_witness :
  let advisory := [ {| document := "Articles of Association";
                       section := Some "Jurisdiction Clause";
                       issue := "Incorrect jurisdiction reference: 'dubai courts'";
                       severity := HIGH; suggestion := None; adgm_reference := None;
                       line_number := None |} ] in
  exists issues,
    check_compliance "Disputes go to Dubai Courts." ARTICLES_OF_ASSOCIATION
      {| sc_sections := []; sc_clauses := []; sc_tables := []; sc_signatures := [] |}
    = Ok issues /\
    Forall (fun i => plain_section i = true) issues /\
    (forall i j, i ∈ issues ++ advisory -> j ∈ issues ++ advisory ->
                 signature i = signature j -> triple i = triple j) /\
    _deduplicate_issues (issues ++ advisory) = spec_dedup (issues ++ advisory).
Proof.
  cbv zeta. eexists. split; [vm_compute; reflexivity|].
  apply (X25_rule_engine_issues_deduplicate_by_triple "Disputes go to Dubai Courts."
           ARTICLES_OF_ASSOCIATION
           {| sc_sections := []; sc_clauses := []; sc_tables := []; sc_signatures := [] |}).
  - vm_compute. reflexivity.
  - repeat constructor.
Defined.

Lemma starts_with_app (p l : list ascii) : starts_with p (p ++ l) = true.
Proof. induction p as [|c p IH]; [reflexivity|]. simpl. rewrite Ascii.eqb_refl. exact IH. Qed.

Lemma find_chars_found (needle pre post : list ascii) :
  is_Some (find_chars needle (pre ++ needle ++ post)).
Proof.
  induction pre as [|c pre IH].
  - simpl app. destruct (needle ++ post) eqn:E.
    + destruct needle; [simpl; eauto|discriminate].
    + rewrite <- E. destruct (needle ++ post) eqn:E'; [congruence|].
      simpl. rewrite <- E'. rewrite starts_with_app. eauto.
  - simpl. destruct (starts_with needle (c :: pre ++ needle ++ post)); [eauto|].
    destruct IH as [k ->]. simpl. eauto.
Qed.

Lemma contains_phrase (phrase text a b : string) :
  text = a +:+ phrase +:+ b -> contains phrase text = true.
Proof.
  intros ->. unfold contains, find. rewrite !chars_append.
  destruct (find_chars_found (chars phrase) (chars a) (chars b)) as [k ->]. reflexivity.
Qed.

Lemma rep_any_total {A} (cc : cclass) (prev : option ascii) (s : list ascii)
    (k : option ascii -> list ascii -> option A) :
  (forall p t, is_Some (k p t)) -> is_Some (rep cc 0 None prev s k).
Proof.
  intros Hk. revert prev. induction s as [|c s IH]; intros prev; simpl; [apply Hk|].
  destruct (cmatch cc c); simpl; [|apply Hk].
  destruct (rep cc 0 None (Some c) s k); [eauto|apply Hk].
Qed.

Lemma registration_number_matches (d : ascii) :
  is_digit d = true ->
  exists r, compile "adgm\s*-?\s*\d+" = Some r /\
            forall p tail, is_Some (match_here r p (chars "adgm-" ++ d :: tail)).
Proof.
  intros Hd. eexists. split; [vm_compute; reflexivity|].
  intros p tail. unfold match_here.
  match goal with
  | |- is_Some (match ?x with _ => _ end) =>
      assert (Hx : is_Some x); [|destruct Hx as [? ->]; eauto]
  end.
  cbn [run chars list_ascii_of_string app rep cmatch exhausted negb andb Ascii.eqb
       Bool.eqb pred fmap option_fmap option_map].
  assert (Hsp : is_space "-" = false) by reflexivity.
  assert (Hsd : is_space d = false).
  { destruct d as [[] [] [] [] [] [] [] []]; try reflexivity; discriminate Hd. }
  assert (Hdash : Ascii.eqb "-" d = false).
  { destruct d as [[] [] [] [] [] [] [] []]; try reflexivity; discriminate Hd. }
  rewrite ?Hsp, ?Hsd, ?Hd, ?Hdash. cbn [negb andb].
  rewrite ?Hsp, ?Hsd, ?Hd, ?Hdash. cbn [negb andb pred fmap option_fmap option_map].
  destruct (rep_any_total CDigit (Some d) tail
              (fun (_ : option ascii) (rest : list ascii) => Some rest)) as [x Hx];
    [eauto|].
  rewrite Hx. eauto.
Qed.

(** X27.  A text that names the Abu Dhabi Global Market in full and
    carries a registration number, "adgm-" followed by a digit once in lower
    case, gets no issue from the check of the ADGM-specific requirements,
    whatever its type. *)
Theorem X27_adgm_named_in_full (text a b a' b' : string) (d : ascii) (ty : DocumentType) :
  lower text = a +:+ "abu dhabi global market" +:+ b ->
  lower text = a' +:+ "adgm-" +:+ String d b' ->
  is_digit d = true ->
  _check_adgm_specific_requirements text ty = [].
Proof.
  intros Hfull Hreg Hd. unfold _check_adgm_specific_requirements. cbv zeta.
  destruct (registration_number_matches d Hd) as (r & Hc & Hm).
  assert (Hs : re_search "adgm\s*-?\s*\d+" (lower text) = true).
  { rewrite Hreg. unfold re_search. rewrite Hc. apply bool_decide_eq_true.
    rewrite !chars_append. apply search_from_found. intros p. apply (Hm p (chars b')). }
  rewrite Hs, (contains_phrase _ _ _ _ Hfull). rewrite andb_false_r. reflexivity.
Qed.

(** X27 at a sentence with the full name and a registration number. *)
Lemma X27_adgm_named_in_full_witness :
  _check_adgm_specific_requirements
    "Abu Dhabi Global Market (ADGM), registration ADGM-123456." ARTICLES_OF_ASSOCIATION = [].
Proof.
  apply (X27_adgm_named_in_full _ "" " (adgm), registration adgm-123456."
           "abu dhabi global market (adgm), registration " "23456." "1");
    reflexivity.
Defined.

End RuleEngineExtras.

(** ** Annotation: where comments and highlights land *)

Section AnnotatorExtras.
Import PyStr DocumentAnnotator.

Lemma insert_desc_sorted x sorted :
  StronglySorted later_first sorted -> StronglySorted later_first (insert_desc x sorted).
Proof.
  induction 1 as [|y rest Hs IH Hall]; simpl; [repeat constructor|].
  destruct (paragraph_index y <? paragraph_index x)%nat eqn:E.
  - apply Nat.ltb_lt in E. constructor; [constructor; assumption|].
    constructor; [unfold later_first; lia|].
    eapply Forall_impl; [exact Hall|]. unfold later_first. intros z Hz. lia.
  - apply Nat.ltb_ge in E. constructor; [exact IH|].
    assert (Hin : forall z, z ∈ insert_desc x rest -> z = x \/ z ∈ rest).
    { clear. induction rest as [|y rest IH]; simpl; intros z Hz.
      - apply list_elem_of_singleton in Hz. auto.
      - destruct (paragraph_index y <? paragraph_index x)%nat.
        + apply elem_of_cons in Hz as [->|Hz]; auto.
        + apply elem_of_cons in Hz as [->|Hz]; [right; left|].
          destruct (IH _ Hz); [auto|right; right; assumption]. }
    apply Forall_forall. intros z Hz. destruct (Hin z Hz) as [->|Hz'].
    + exact E.
    + rewrite Forall_forall in Hall. auto.
Qed.

Lemma filter_none {A} (P : A -> Prop) `{forall x, Decision (P x)} (l : list A) :
  Forall (fun x => ~ P x) l -> filter P l = [].
Proof.
  induction 1 as [|x l Hx _ IH]; [reflexivity|].
  rewrite filter_cons_False by exact Hx. exact IH.
Qed.

Lemma insert_desc_at x sorted k :
  StronglySorted later_first sorted ->
  insertions_at (insert_desc x sorted) k
  = insertions_at sorted k ++ insertions_at [x] k.
Proof.
  unfold insertions_at.
  induction 1 as [|y rest Hs IH Hall]; simpl; [reflexivity|].
  destruct (paragraph_index y <? paragraph_index x)%nat eqn:E.
  - apply Nat.ltb_lt in E.
    destruct (decide (paragraph_index x = k)) as [Hk|Hk].
    + assert (Hnone : filter (fun z => paragraph_index z = k) (y :: rest) = []).
      { apply filter_none. constructor; [lia|].
        eapply Forall_impl; [exact Hall|]. unfold later_first. intros z Hz. lia. }
      rewrite (filter_cons_True _ x) by exact Hk.
      rewrite Hnone. rewrite (filter_cons_True _ x) by exact Hk. reflexivity.
    + rewrite (filter_cons_False _ x) by exact Hk.
      rewrite (filter_cons_False _ x) by exact Hk.
      rewrite filter_nil, app_nil_r. reflexivity.
  - destruct (decide (paragraph_index y = k)) as [Hk|Hk].
    + rewrite !(filter_cons_True _ y) by exact Hk. rewrite IH. reflexivity.
    + rewrite !(filter_cons_False _ y) by exact Hk. exact IH.
Qed.

Lemma sort_desc_spec (l acc : list CommentInsertion) :
  StronglySorted later_first acc ->
  StronglySorted later_first (fold_left (fun sorted x => insert_desc x sorted) l acc) /\
  forall k, insertions_at (fold_left (fun sorted x => insert_desc x sorted) l acc) k
            = insertions_at acc k ++ insertions_at l k.
Proof.
  revert acc. induction l as [|x l IH]; intros acc Hacc; simpl.
  - split; [exact Hacc|]. intros k. rewrite app_nil_r. reflexivity.
  - destruct (IH (insert_desc x acc) (insert_desc_sorted x acc Hacc)) as [Hs Hk].
    split; [exact Hs|]. intros k. rewrite Hk, insert_desc_at by exact Hacc.
    rewrite <- app_assoc. f_equal.
    unfold insertions_at. symmetry. apply (filter_app _ [x] l).
Qed.

Lemma layout_same_insertions (s ins : list CommentInsertion) (doc : Document) (k : nat) :
  (forall j, insertions_at s j = insertions_at ins j) ->
  annotated_layout s k doc = annotated_layout ins k doc.
Proof.
  intros H. revert k. induction doc as [|p rest IH]; intros k; simpl; [reflexivity|].
  rewrite H, IH. reflexivity.
Qed.

Lemma layout_nil (doc : Document) (k : nat) : annotated_layout [] k doc = doc.
Proof.
  revert k. induction doc as [|p rest IH]; intros k; simpl; [reflexivity|].
  rewrite IH. reflexivity.
Qed.

Lemma insertions_at_snoc pre x k :
  insertions_at (pre ++ [x]) k
  = insertions_at pre k ++ (if decide (paragraph_index x = k) then [x] else []).
Proof.
  unfold insertions_at. rewrite filter_app. reflexivity.
Qed.

Lemma layout_earlier_insertion pre x (doc : Document) (k : nat) :
  paragraph_index x < k ->
  annotated_layout (pre ++ [x]) k doc = annotated_layout pre k doc.
Proof.
  revert k. induction doc as [|p rest IH]; intros k Hk; simpl; [reflexivity|].
  rewrite insertions_at_snoc. destruct (decide (paragraph_index x = k)); [lia|].
  rewrite app_nil_r, IH by lia. reflexivity.
Qed.

Lemma layout_step pre x (doc : Document) (k j : nat) :
  Forall (fun y => paragraph_index x <= paragraph_index y) pre ->
  paragraph_index x = k + j ->
  match annotated_layout pre k doc !! j with
  | None => annotated_layout pre k doc
  | Some target =>
      take j (annotated_layout pre k doc)
      ++ apply_highlight target x :: comment_paragraph x
      :: drop (S j) (annotated_layout pre k doc)
  end = annotated_layout (pre ++ [x]) k doc.
Proof.
  intros Hpre. revert k j. induction doc as [|p rest IH]; intros k j Hj; [reflexivity|].
  destruct j as [|j].
  - simpl. rewrite insertions_at_snoc.
    destruct (decide (paragraph_index x = k)) as [_|Hne]; [|lia].
    rewrite fold_left_app, fmap_app, reverse_app. simpl.
    rewrite layout_earlier_insertion by lia. reflexivity.
  - assert (Hnone : insertions_at pre k = []).
    { apply filter_none. eapply Forall_impl; [exact Hpre|]. simpl. intros z Hz. lia. }
    specialize (IH (S k) j ltac:(lia)).
    simpl annotated_layout. rewrite insertions_at_snoc, Hnone.
    destruct (decide (paragraph_index x = k)) as [He|_]; [lia|].
    change (reverse (comment_paragraph <$> [] ++ [])) with (@nil Paragraph).
    simpl app. simpl fold_left.
    set (L := annotated_layout pre (S k) rest) in *.
    change ((p :: L) !! S j) with (L !! j).
    change (take (S j) (p :: L)) with (p :: take j L).
    change (drop (S (S j)) (p :: L)) with (drop (S j) L).
    revert IH. destruct (L !! j); intros <-; reflexivity.
Qed.

Lemma comments_layout (s : list CommentInsertion) (doc : Document) :
  StronglySorted later_first s ->
  fold_left _insert_comment s doc = annotated_layout s 0 doc.
Proof.
  induction s as [|x pre IH] using rev_ind; intros Hs.
  - simpl. rewrite layout_nil. reflexivity.
  - rewrite fold_left_app. simpl. rewrite IH by (eapply StronglySorted_app_1_l; exact Hs).
    rewrite <- (layout_step pre x doc 0 (paragraph_index x)); [reflexivity| |reflexivity].
    apply Forall_forall. intros y Hy.
    apply (StronglySorted_app_1_elem_of later_first pre [x] y x Hs Hy).
    apply list_elem_of_singleton. reflexivity.
Qed.

Lemma first_index_lt {A} (test : A -> bool) (l : list A) (k : nat) :
  first_index test l = Some k -> k < length l.
Proof.
  revert k. induction l as [|x l IH]; intros k E; simpl in E; [discriminate|].
  destruct (test x); [injection E as <-; simpl; lia|].
  destruct (first_index test l) as [j|]; [|discriminate].
  injection E as <-. specialize (IH j eq_refl). simpl. lia.
Qed.

Lemma best_match_range (kws ps : list string) (i : nat) (best : option nat) (score : nat)
    (k : nat) :
  fst (best_match kws ps i best score) = Some k ->
  best = Some k \/ (i <= k < i + length ps).
Proof.
  revert i best score. induction ps as [|p ps IH]; intros i best score E; simpl in E.
  - left. exact E.
  - destruct (_ <? _)%nat; apply IH in E as [E|E].
    + injection E as <-. right. simpl. lia.
    + right. simpl. lia.
    + left. exact E.
    + right. simpl. lia.
Qed.

Lemma find_best_paragraph_lt list_set (i : DocumentIssue) (ps : list string) (k : nat) :
  _find_best_paragraph list_set i ps = Some k -> k < length ps.
Proof.
  unfold _find_best_paragraph.
  destruct (match truthy (section i) with
            | Some s => first_index _ ps
            | None => None
            end) as [j|] eqn:E1.
  - intros [= <-]. destruct (truthy (section i)); [|discriminate].
    eapply first_index_lt; exact E1.
  - destruct (best_match _ ps 0 None 0) as [b sc] eqn:E2.
    destruct (0 <? sc)%nat; [|discriminate]. intros ->.
    pose proof (best_match_range (_extract_keywords_from_issue list_set i) ps 0 None 0 k) as H.
    rewrite E2 in H. destruct (H eq_refl) as [?|?]; [discriminate|lia].
Qed.

Lemma insertions_in_range list_set (issues : list DocumentIssue) (text : string)
    (doc : Document) :
  Forall (fun x => paragraph_index x < length doc)
         (_create_comment_insertions list_set issues text doc) /\
  length (_create_comment_insertions list_set issues text doc) <= length issues.
Proof.
  unfold _create_comment_insertions. cbv zeta.
  induction issues as [|i issues [IH1 IH2]]; simpl; [split; [constructor|lia]|].
  destruct (_find_best_paragraph list_set i (paragraph_text <$> doc)) as [k|] eqn:E.
  - apply find_best_paragraph_lt in E. rewrite length_fmap in E.
    split; [constructor; [exact E|exact IH1]|simpl; lia].
  - split; [exact IH1|simpl; lia].
Qed.

Lemma layout_length (ins : list CommentInsertion) (doc : Document) (k : nat) :
  length (annotated_layout ins k doc)
  = length doc
    + length (filter (fun x => k <= paragraph_index x < k + length doc) ins).
Proof.
  revert k. induction doc as [|p rest IH]; intros k; simpl.
  - rewrite filter_none; [reflexivity|]. apply Forall_forall. intros x _. lia.
  - rewrite length_app, length_reverse, length_fmap, IH.
    assert (Hsplit :
      length (insertions_at ins k)
      + length (filter (fun x => S k <= paragraph_index x < S k + length rest) ins)
      = length (filter (fun x => k <= paragraph_index x < k + S (length rest)) ins)).
    { unfold insertions_at. clear. induction ins as [|x ins IHi]; [reflexivity|].
      rewrite !filter_cons.
      repeat match goal with |- context [decide ?P] => destruct (decide P) end;
        cbn [length]; lia. }
    lia.
Qed.

Lemma starts_with_take (p l : list ascii) :
  starts_with p l = true -> take (length p) l = p /\ length p <= length l.
Proof.
  revert l. induction p as [|a p IH]; intros l E; [split; [reflexivity|simpl; lia]|].
  destruct l as [|b l]; [discriminate|]. simpl in E.
  destruct (Ascii.eqb_spec a b) as [->|]; [|discriminate].
  destruct (IH l E) as [IH1 IH2]. simpl. rewrite IH1. split; [reflexivity|lia].
Qed.

Lemma find_chars_spec (needle hay : list ascii) (n : nat) :
  find_chars needle hay = Some n ->
  take (length needle) (drop n hay) = needle /\ n + length needle <= length hay.
Proof.
  revert n. induction hay as [|c hay IH]; intros n E; simpl in E.
  - destruct (starts_with needle []) eqn:Es; [|discriminate]. injection E as <-.
    apply starts_with_take in Es. exact Es.
  - destruct (starts_with needle (c :: hay)) eqn:Es.
    + injection E as <-. apply starts_with_take in Es. exact Es.
    + destruct (find_chars needle hay) as [k|]; [|discriminate]. injection E as <-.
      destruct (IH k eq_refl) as [IH1 IH2]. simpl. split; [exact IH1|lia].
Qed.

Lemma lower_char_idem (c : ascii) : lower_char (lower_char c) = lower_char c.
Proof. destruct c as [[] [] [] [] [] [] [] []]; reflexivity. Qed.

Lemma chars_str (l : list ascii) : chars (str l) = l.
Proof. apply list_ascii_of_string_of_list_ascii. Qed.

(** Every word that [split] returns is non-empty and made of characters of
    the text. *)
Lemma split_chars_words (cur l w : list ascii) :
  w ∈ split_chars cur l -> w <> [] /\ forall c, c ∈ w -> c ∈ cur \/ c ∈ l.
Proof.
  assert (Hcur : forall cur : list ascii, cur <> [] ->
            rev cur <> [] /\ forall c, c ∈ rev cur -> c ∈ cur).
  { intros cur' Hne. split.
    - intros E. apply (f_equal (@length _)) in E. rewrite length_rev in E.
      destruct cur'; [congruence|discriminate].
    - intros c Hc. apply list_elem_of_In, in_rev, list_elem_of_In. exact Hc. }
  revert cur. induction l as [|c l IH]; intros cur Hw; simpl in Hw.
  - destruct cur as [|a cur]; [inversion Hw|].
    apply list_elem_of_singleton in Hw as ->.
    destruct (Hcur (a :: cur) ltac:(discriminate)) as [H1 H2]. split; [exact H1|auto].
  - destruct (is_space c).
    + destruct cur as [|a cur].
      * destruct (IH _ Hw) as [H1 H2]. split; [exact H1|].
        intros d Hd. destruct (H2 d Hd) as [?|?]; [auto|right; right; assumption].
      * apply elem_of_cons in Hw as [->|Hw].
        -- destruct (Hcur (a :: cur) ltac:(discriminate)) as [H1 H2]. split; [exact H1|auto].
        -- destruct (IH _ Hw) as [H1 H2]. split; [exact H1|].
           intros d Hd. destruct (H2 d Hd) as [Hn|?]; [inversion Hn|right; right; assumption].
    + destruct (IH _ Hw) as [H1 H2]. split; [exact H1|].
      intros d Hd. destruct (H2 d Hd) as [Hc|?]; [|right; right; assumption].
      apply elem_of_cons in Hc as [->|Hc]; [right; left|left; exact Hc].
Qed.

Lemma split_lower_words (s k : string) : k ∈ split (lower s) -> lower_word k.
Proof.
  unfold split. intros Hk. apply list_elem_of_In, in_map_iff in Hk as (w & <- & Hw).
  apply list_elem_of_In, split_chars_words in Hw as [Hne Hc]. split.
  - intros E. apply (f_equal chars) in E. rewrite chars_str in E. exact (Hne E).
  - unfold lower. rewrite chars_str. f_equal. unfold lower_chars.
    rewrite <- (map_id w) at 2. apply map_ext_in. intros c Hin.
    apply list_elem_of_In in Hin. destruct (Hc c Hin) as [Hn|Hl]; [inversion Hn|].
    rewrite chars_lower in Hl. unfold lower_chars in Hl.
    apply list_elem_of_In, in_map_iff in Hl as (d & <- & _). apply lower_char_idem.
Qed.

Lemma keyword_map_lower_words :
  Forall lower_word (flat_map snd keyword_map).
Proof.
  repeat (constructor; [split; [discriminate|reflexivity]|]). constructor.
Qed.

Lemma issue_keywords_lower_words list_set (i : DocumentIssue) :
  (forall l (k : string), k ∈ list_set l -> k ∈ l) ->
  Forall lower_word (_extract_keywords_from_issue list_set i).
Proof.
  intros Hset. apply Forall_forall. intros k Hk. unfold _extract_keywords_from_issue in Hk.
  cbv zeta in Hk. apply Hset in Hk.
  assert (Hmap : forall k, k ∈ flat_map (fun '(category, terms) =>
                    if existsb (fun term => contains term (lower (issue i))) terms
                    then terms else []) keyword_map -> lower_word k).
  { clear. intros k Hk. pose proof keyword_map_lower_words as Hall.
    rewrite Forall_forall in Hall. apply Hall.
    apply list_elem_of_In, in_flat_map in Hk as ([c terms] & Hin & Hk).
    apply list_elem_of_In, in_flat_map. exists (c, terms). split; [exact Hin|].
    simpl. destruct (existsb _ terms); [exact Hk|inversion Hk]. }
  destruct (truthy (section i)) as [s|].
  - apply elem_of_app in Hk as [Hk|Hk]; [auto|]. eapply split_lower_words; exact Hk.
  - auto.
Qed.

Lemma length_str (l : list ascii) : String.length (str l) = length l.
Proof. rewrite <- length_chars, chars_str. reflexivity. Qed.

Lemma highlight_of_found (kws : list string) (t h : string) :
  Forall lower_word kws ->
  highlight_of kws t = Some h ->
  exists start,
    h <> "" /\
    find (lower t) (lower h) = Some start /\
    slice t start (start + String.length h) = h.
Proof.
  induction 1 as [|k kws [Hne Hlow] _ IH]; simpl; [discriminate|].
  destruct (find (lower t) k) as [start|] eqn:E; [|exact IH].
  intros [= <-]. exists start.
  pose proof E as E'. unfold find in E'. apply find_chars_spec in E' as [Ht Hlen].
  rewrite chars_lower in Ht, Hlen. unfold lower_chars in Ht, Hlen.
  rewrite length_map in Hlen. rewrite length_chars in Ht, Hlen.
  assert (Hl : String.length (slice t start (start + String.length k)) = String.length k).
  { unfold slice. rewrite length_str, length_take, length_drop. lia. }
  assert (Hlower : lower (slice t start (start + String.length k)) = k).
  { unfold slice, lower. rewrite chars_str. unfold lower_chars.
    rewrite Nat.add_sub'. rewrite <- firstn_map, <- skipn_map.
    rewrite Ht. apply str_chars. }
  split; [|split].
  - intros E0. rewrite E0 in Hl. simpl in Hl. destruct k; [congruence|discriminate].
  - rewrite Hlower. exact E.
  - rewrite Hl. reflexivity.
Qed.

Lemma insert_comments_layout (insertions : list CommentInsertion) (doc : Document) :
  fold_left _insert_comment (sort_desc insertions) doc = annotated_layout insertions 0 doc.
Proof.
  destruct (sort_desc_spec insertions [] (SSorted_nil _)) as [Hs Hk].
  unfold sort_desc. rewrite comments_layout by exact Hs.
  apply layout_same_insertions. intros j. rewrite Hk. reflexivity.
Qed.

(** X14.  Comments follow their paragraphs.  Inserting the comments in the
    order of the sort leaves every original paragraph in its place, with the
    highlights of the insertions made for it applied in their order, and
    directly followed by the comments of those insertions, the comment of
    the last one first; an insertion whose index is out of range leaves no
    trace.  This is the document to which [annotate_document] then adds the
    summary section. *)
Theorem X14_comments_follow_their_paragraphs
    (list_set : list string -> list string) (has_after : bool)
    (doc : Document) (issues : list DocumentIssue) (document_text : string)
    (insertions : list CommentInsertion) :
  fold_left _insert_comment (sort_desc insertions) doc = annotated_layout insertions 0 doc /\
  annotate_document list_set has_after doc issues document_text
  = _add_summary_section has_after
      (annotated_layout (_create_comment_insertions list_set issues document_text doc) 0 doc)
      issues.
Proof.
  split; [apply insert_comments_layout|].
  unfold annotate_document. cbv zeta. rewrite insert_comments_layout. reflexivity.
Qed.

(** X15.  Every insertion made for an issue points at a paragraph of the
    document, and there is at most one per issue.  Annotation adds exactly
    one paragraph per insertion and, unless the document has no paragraph,
    the title, to which a library with [insert_paragraph_after] adds the
    lines of the summary and the separator. *)
Theorem X15_paragraphs_after_annotation
    (list_set : list string -> list string) (has_after : bool)
    (doc : Document) (issues : list DocumentIssue) (document_text : string) :
  let insertions := _create_comment_insertions list_set issues document_text doc in
  Forall (fun x => paragraph_index x < length doc) insertions /\
  length insertions <= length issues /\
  length (annotate_document list_set has_after doc issues document_text)
  = length doc + length insertions
    + match doc with
      | [] => 0
      | _ :: _ => if has_after then 2 + length (_create_summary_content issues) else 1
      end.
Proof.
  cbv zeta. destruct (insertions_in_range list_set issues document_text doc) as [Hr Hl].
  split; [exact Hr|]. split; [exact Hl|].
  unfold annotate_document. cbv zeta. rewrite insert_comments_layout.
  set (ins := _create_comment_insertions list_set issues document_text doc) in *.
  assert (Hlen : length (annotated_layout ins 0 doc) = length doc + length ins).
  { rewrite layout_length. f_equal. f_equal. clear Hl.
    induction Hr as [|x l Hx _ IH]; [reflexivity|].
    rewrite filter_cons_True by (simpl; lia). rewrite IH. reflexivity. }
  rewrite summary_section_shape.
  destruct doc as [|p doc].
  - simpl in Hlen. simpl. inversion Hr as [E|x l Hx _ E].
    + reflexivity.
    + simpl in Hx. lia.
  - destruct (annotated_layout ins 0 (p :: doc)) as [|q rest] eqn:E; [discriminate|].
    destruct has_after; simpl in *; rewrite ?length_app, ?length_rev, ?length_fmap;
      simpl; lia.
Qed.

(** X16.  The text that [_extract_highlight_text] chooses is found again
    by [_highlight_text_in_paragraph]: it is not empty, it occurs in the
    paragraph when case is ignored, and the highlighted paragraph has one
    highlighted run, whose text is the chosen text, between runs that are
    not highlighted.  The keyword set is assumed to list only keywords that
    were put into it. *)
Theorem X16_chosen_highlight_is_marked
    (list_set : list string -> list string) (i : DocumentIssue) (p : Paragraph)
    (h : string) :
  (forall l (k : string), k ∈ list_set l -> k ∈ l) ->
  _extract_highlight_text list_set i (paragraph_text p) = Some h ->
  h <> "" /\
  contains (lower h) (lower (paragraph_text p)) = true /\
  exists before after,
    p_runs (_highlight_text_in_paragraph p h)
    = before
      ++ [ {| run_text := h; run_bold := false; run_italic := false; run_color := None;
              run_highlight := true; run_size := None |} ]
      ++ after /\
    Forall (fun r => run_highlight r = false) (before ++ after).
Proof.
  intros Hset E. unfold _extract_highlight_text in E.
  apply highlight_of_found in E as (start & Hne & Hfind & Hslice);
    [|apply issue_keywords_lower_words; exact Hset].
  split; [exact Hne|]. split; [unfold contains; rewrite Hfind; reflexivity|].
  rewrite (highlight_runs p h start Hfind). cbv zeta. rewrite Hslice.
  eexists _, _. split; [reflexivity|].
  apply Forall_app. split.
  - destruct (0 <? start)%nat; repeat constructor.
  - destruct (_ <? _)%nat; repeat constructor.
Qed.

(** X16 at an issue about jurisdiction and a paragraph that names a court. *)
Lemma X16_chosen_highlight_is_marked_witness :
  let i := {| document := "Articles of Association"; section := Some "Jurisdiction Clause";
              issue := "Missing ADGM jurisdiction clause"; severity := HIGH;
              suggestion := None; adgm_reference := None; line_number := None |} in
  let p := add_run empty_paragraph (plain_run "The Court decides.") in
  "Court" <> "" /\
  contains (lower "Court") (lower (paragraph_text p)) = true /\
  exists before after,
    p_runs (_highlight_text_in_paragraph p "Court")
    = before
      ++ [ {| run_text := "Court"; run_bold := false; run_italic := false;
              run_color := None; run_highlight := true; run_size := None |} ]
      ++ after /\
    Forall (fun r => run_highlight r = false) (before ++ after).
Proof.
  apply (X16_chosen_highlight_is_marked (fun l => l)
           {| document := "Articles of Association"; section := Some "Jurisdiction Clause";
              issue := "Missing ADGM jurisdiction clause"; severity := HIGH;
              suggestion := None; adgm_reference := None; line_number := None |}
           (add_run empty_paragraph (plain_run "The Court decides.")) "Court").
  - intros l k Hk. exact Hk.
  - reflexivity.
Defined.

Lemma count_severity_total (issues : list DocumentIssue) :
  count_severity issues CRITICAL + count_severity issues HIGH
  + count_severity issues MEDIUM + count_severity issues LOW = length issues.
Proof.
  unfold count_severity. induction issues as [|i issues IH]; [reflexivity|].
  rewrite !filter_cons. destruct (severity i);
    repeat match goal with |- context [decide ?P] => destruct (decide P) end;
    try congruence; cbn [length]; lia.
Qed.



Lemma first_index_spec {A} (test : A -> bool) (l : list A) :
  match first_index test l with
  | Some k => (exists x, l !! k = Some x /\ test x = true) /\
              forall j x, j < k -> l !! j = Some x -> test x = false
  | None => forall x, x ∈ l -> test x = false
  end.
Proof.
  induction l as [|y l IH]; simpl.
  - intros x H. inversion H.
  - destruct (test y) eqn:Ey.
    + split; [exists y; auto|]. intros j x Hj. lia.
    + destruct (first_index test l) as [k|]; simpl.
      * destruct IH as [(x & Hx & Ht) Hbefore]. split; [exists x; auto|].
        intros [|j] z Hj Hz; simpl in Hz.
        -- injection Hz as <-. exact Ey.
        -- apply (Hbefore j z); [lia|exact Hz].
      * intros x Hx. apply elem_of_cons in Hx as [->|Hx]; auto.
Qed.

Lemma first_index_none {A} (test : A -> bool) (l : list A) :
  (forall x, test x = false) -> first_index test l = None.
Proof.
  intros H. induction l as [|y l IH]; [reflexivity|]. simpl. rewrite H, IH. reflexivity.
Qed.

Lemma best_match_spec (kws ps : list string) (i : nat) (best : option nat) (score : nat) :
  let result := best_match kws ps i best score in
  score <= snd result /\
  (forall p, p ∈ ps -> keyword_score kws p <= snd result) /\
  (result = (best, score) \/
   exists k p, fst result = Some k /\ i <= k /\ ps !! (k - i) = Some p /\
               keyword_score kws p = snd result /\ score < snd result /\
               forall j q, j < k - i -> ps !! j = Some q -> keyword_score kws q < snd result).
Proof.
  cbv zeta. revert i best score. induction ps as [|p ps IH]; intros i best score.
  - simpl. split; [lia|]. split; [intros p H; inversion H|]. left. reflexivity.
  - simpl best_match. fold (keyword_score kws p).
    destruct (score <? keyword_score kws p)%nat eqn:E.
    + apply Nat.ltb_lt in E.
      destruct (IH (S i) (Some i) (keyword_score kws p)) as (H1 & H2 & H3).
      split; [lia|]. split.
      * intros q Hq. apply elem_of_cons in Hq as [->|Hq]; [exact H1|apply H2; exact Hq].
      * right. destruct H3 as [H3|(k & q & Hk & Hle & Hq & Hs & Hlt & Hbefore)].
        -- rewrite H3. exists i, p. simpl. rewrite Nat.sub_diag.
           split; [reflexivity|]. split; [lia|]. split; [reflexivity|].
           split; [reflexivity|]. split; [exact E|]. intros j q Hj. lia.
        -- exists k, q. split; [exact Hk|]. split; [lia|].
           replace (k - i) with (S (k - S i)) by lia. split; [exact Hq|].
           split; [exact Hs|]. split; [lia|].
           intros [|j] z Hj Hz; simpl in Hz.
           ++ injection Hz as <-. lia.
           ++ apply (Hbefore j z); [lia|exact Hz].
    + apply Nat.ltb_ge in E.
      destruct (IH (S i) best score) as (H1 & H2 & H3).
      split; [exact H1|]. split.
      * intros q Hq. apply elem_of_cons in Hq as [->|Hq]; [lia|apply H2; exact Hq].
      * destruct H3 as [H3|(k & q & Hk & Hle & Hq & Hs & Hlt & Hbefore)]; [left; exact H3|].
        right. exists k, q. split; [exact Hk|]. split; [lia|].
        replace (k - i) with (S (k - S i)) by lia. split; [exact Hq|].
        split; [exact Hs|]. split; [exact Hlt|].
        intros [|j] z Hj Hz; simpl in Hz.
        -- injection Hz as <-. lia.
        -- apply (Hbefore j z); [lia|exact Hz].
Qed.

(** X24.  A comment is attached only to a paragraph that holds a keyword.
    When some paragraph contains a word of the section of the issue, the
    first such paragraph is chosen.  Otherwise the paragraph chosen contains
    at least one keyword of the issue, no paragraph contains more of them,
    and every earlier paragraph contains fewer.  No paragraph is chosen, and
    the issue gets no comment, exactly when no paragraph contains a word of
    the section or a keyword of the issue. *)
Theorem X24_comment_needs_a_keyword
    (list_set : list string -> list string) (i : DocumentIssue) (paragraphs : list string) :
  let section_words :=
    match truthy (section i) with Some s => split (lower s) | None => [] end in
  let issue_keywords := _extract_keywords_from_issue list_set i in
  let has_word := fun words paragraph =>
    existsb (fun keyword => contains keyword (lower paragraph)) words in
  match _find_best_paragraph list_set i paragraphs with
  | Some k =>
      exists paragraph,
        paragraphs !! k = Some paragraph /\
        if existsb (has_word section_words) paragraphs
        then has_word section_words paragraph = true /\
             forall j q, j < k -> paragraphs !! j = Some q ->
                         has_word section_words q = false
        else 0 < keyword_score issue_keywords paragraph /\
             (forall q, q ∈ paragraphs ->
                        keyword_score issue_keywords q
                        <= keyword_score issue_keywords paragraph) /\
             forall j q, j < k -> paragraphs !! j = Some q ->
                         keyword_score issue_keywords q
                         < keyword_score issue_keywords paragraph
  | None =>
      forall q, q ∈ paragraphs ->
                has_word section_words q = false /\ keyword_score issue_keywords q = 0
  end.
Proof.
  cbv zeta. unfold _find_best_paragraph.
  set (words := match truthy (section i) with Some s => split (lower s) | None => [] end).
  set (test := fun paragraph : string =>
                 existsb (fun keyword => contains keyword (lower paragraph)) words).
  assert (Hsec : match truthy (section i) with
                 | Some s =>
                     first_index (fun paragraph =>
                                    existsb (fun keyword => contains keyword (lower paragraph))
                                            (split (lower s))) paragraphs
                 | None => None
                 end = first_index test paragraphs).
  { unfold test, words. destruct (truthy (section i)); [reflexivity|].
    symmetry. apply first_index_none. reflexivity. }
  rewrite Hsec. pose proof (first_index_spec test paragraphs) as Hf.
  destruct (first_index test paragraphs) as [k|].
  - destruct Hf as [(p & Hp & Ht) Hbefore]. exists p. split; [exact Hp|].
    assert (He : existsb test paragraphs = true).
    { apply existsb_exists. exists p. split; [|exact Ht].
      apply list_elem_of_In. eapply list_elem_of_lookup_2. exact Hp. }
    rewrite He. split; [exact Ht|exact Hbefore].
  - assert (He : existsb test paragraphs = false).
    { apply not_true_is_false. intros H. apply existsb_exists in H as (p & Hin & Hp).
      apply list_elem_of_In in Hin. rewrite (Hf p Hin) in Hp. discriminate. }
    pose proof (best_match_spec (_extract_keywords_from_issue list_set i) paragraphs
                  0 None 0) as Hb.
    cbv zeta in Hb.
    destruct (best_match (_extract_keywords_from_issue list_set i) paragraphs 0 None 0)
      as [b sc] eqn:Eb.
    simpl fst in Hb. simpl snd in Hb. destruct Hb as (_ & Hmax & Hcase).
    destruct (0 <? sc)%nat eqn:Esc.
    + apply Nat.ltb_lt in Esc.
      destruct Hcase as [Hcase|(k & p & Hk & _ & Hp & Hs & _ & Hbefore)].
      { injection Hcase as _ ->. lia. }
      rewrite Hk. rewrite Nat.sub_0_r in Hp, Hbefore.
      exists p. split; [exact Hp|]. rewrite He. rewrite Hs.
      split; [exact Esc|]. split; [exact Hmax|exact Hbefore].
    + apply Nat.ltb_ge in Esc. intros q Hq. split; [apply Hf; exact Hq|].
      specialize (Hmax q Hq). lia.
Qed.

(** X26.  The look of a comment depends on the severity of its issue
    alone.  Every insertion is made for an issue of the list, at the
    paragraph found for it, and its comment paragraph is one italic run
    "[ADGM REVIEW] " followed by the formatted issue, indented by half an
    inch on both sides, bold unless the severity is Low, dark red for High
    and Critical, orange for Medium and blue for Low; its size is 7 pt, which
    is what the document keeps of the 1/10 inch that the code assigns. *)
Theorem X26_comment_style
    (list_set : list string -> list string) (issues : list DocumentIssue)
    (document_text : string) (doc : Document) (x : CommentInsertion) :
  x ∈ _create_comment_insertions list_set issues document_text doc ->
  exists i,
    i ∈ issues /\
    _find_best_paragraph list_set i (paragraph_text <$> doc) = Some (paragraph_index x) /\
    comment_paragraph x
    = {| p_runs :=
           [ {| run_text := "[ADGM REVIEW] " +:+ _format_comment i;
                run_bold := bool_decide (severity i <> LOW);
                run_italic := true;
                run_color := Some (match severity i with
                                   | HIGH | CRITICAL => (204, 0, 0)
                                   | MEDIUM => (255, 102, 0)
                                   | LOW => (0, 102, 204)
                                   end)%nat;
                run_highlight := false;
                run_size := Some 7%Q |} ];
         p_left_indent := Some (1 # 2)%Q;
         p_right_indent := Some (1 # 2)%Q |}.
Proof.
  unfold _create_comment_insertions. cbv zeta. intros Hx.
  apply list_elem_of_In, in_flat_map in Hx as (i & Hi & Hx).
  exists i. split; [apply list_elem_of_In; exact Hi|].
  destruct (_find_best_paragraph list_set i (paragraph_text <$> doc)) as [k|];
    [|destruct Hx].
  destruct Hx as [<-|[]]. split; [reflexivity|].
  unfold comment_paragraph, _get_comment_type.
  change (font_size (1 # 10)) with 7%Q. simpl.
  destruct (severity i); reflexivity.
Qed.

(** X26 at an issue about the share capital. *)
Lemma X26_comment_style_witness :
  let i := {| document := "Articles of Association"; section := Some "Share Capital";
              issue := "Missing required clause: Share Capital"; severity := HIGH;
              suggestion := None; adgm_reference := None; line_number := None |} in
  let doc := [add_run empty_paragraph (plain_run "Share capital.")] in
  let x := {| paragraph_index := 0; comment_text := _format_comment i;
              highlight_text := Some "Share"; comment_type := "critical" |} in
  exists i',
    i' ∈ [i] /\
    _find_best_paragraph (fun l => l) i' (paragraph_text <$> doc)
    = Some (paragraph_index x) /\
    comment_paragraph x
    = {| p_runs :=
           [ {| run_text := "[ADGM REVIEW] " +:+ _format_comment i';
                run_bold := bool_decide (severity i' <> LOW);
                run_italic := true;
                run_color := Some (match severity i' with
                                   | HIGH | CRITICAL => (204, 0, 0)
                                   | MEDIUM => (255, 102, 0)
                                   | LOW => (0, 102, 204)
                                   end)%nat;
                run_highlight := false;
                run_size := Some 7%Q |} ];
         p_left_indent := Some (1 # 2)%Q;
         p_right_indent := Some (1 # 2)%Q |}.
Proof.
  cbv zeta.
  apply (X26_comment_style (fun l => l) _ "Share capital.").
  vm_compute. left.
Defined.

End AnnotatorExtras.

(** ** Parsing *)

Section ParserExtras.
Import PyStr Re DocumentAnnotator DocumentParser ComplianceChecker ProcessingEngine.

Lemma split_chars_space (cur a b : list ascii) (c : ascii) :
  is_space c = true ->
  split_chars cur (a ++ c :: b) = split_chars cur a ++ split_chars [] b.
Proof.
  intros Hc. revert cur. induction a as [|d a IH]; intros cur; simpl.
  - rewrite Hc. destruct cur; reflexivity.
  - destruct (is_space d).
    + destruct cur; rewrite IH; reflexivity.
    + apply IH.
Qed.

Lemma split_chars_lstrip (l : list ascii) :
  split_chars [] (lstrip_chars l) = split_chars [] l.
Proof.
  induction l as [|c l IH]; [reflexivity|]. simpl.
  destruct (is_space c) eqn:E; [exact IH|]. simpl. rewrite E. reflexivity.
Qed.

Lemma split_chars_trailing (cur l sp : list ascii) :
  Forall (fun c => is_space c = true) sp ->
  split_chars cur (l ++ sp) = split_chars cur l.
Proof.
  intros Hsp. revert cur. induction l as [|d l IH]; intros cur; simpl.
  - revert cur. induction Hsp as [|c sp Hc _ IHs]; intros cur; [reflexivity|].
    simpl. rewrite Hc. destruct cur; rewrite IHs; reflexivity.
  - destruct (is_space d).
    + destruct cur; rewrite IH; reflexivity.
    + apply IH.
Qed.

Lemma lstrip_chars_split (l : list ascii) :
  exists sp, Forall (fun c => is_space c = true) sp /\ l = sp ++ lstrip_chars l.
Proof.
  induction l as [|c l (sp & Hsp & E)]; [exists []; split; [constructor|reflexivity]|].
  simpl. destruct (is_space c) eqn:Ec.
  - exists (c :: sp). split; [constructor; assumption|]. simpl. rewrite <- E. reflexivity.
  - exists []. split; [constructor|reflexivity].
Qed.

Lemma split_strip (s : string) : split (strip s) = split s.
Proof.
  unfold split, strip. rewrite chars_str. f_equal.
  rewrite <- (split_chars_lstrip (chars s)).
  set (m := lstrip_chars (chars s)).
  destruct (lstrip_chars_split (rev m)) as (sp & Hsp & E).
  apply (f_equal (@rev _)) in E. rewrite rev_involutive, rev_app_distr in E.
  rewrite E at 2. symmetry. apply split_chars_trailing.
  apply Forall_forall. intros c Hc. rewrite Forall_forall in Hsp. apply Hsp.
  apply list_elem_of_In, in_rev, list_elem_of_In. exact Hc.
Qed.

Lemma split_join (parts : list string) :
  split (join (String "010" "") parts) = flat_map split parts.
Proof.
  induction parts as [|p [|q rest] IH]; [reflexivity|simpl; rewrite app_nil_r; reflexivity|].
  change (join (String "010" "") (p :: q :: rest))
    with (p +:+ String "010" "" +:+ join (String "010" "") (q :: rest)).
  change (flat_map split (p :: q :: rest)) with (split p ++ flat_map split (q :: rest)).
  rewrite <- IH. unfold split. rewrite !chars_append.
  change (chars (String "010" "")) with ["010"%char]. simpl app at 2.
  rewrite split_chars_space by reflexivity. apply map_app.
Qed.

Lemma split_stripped_parts (texts : list string) :
  flat_map split (stripped_parts texts) = flat_map split texts.
Proof.
  unfold stripped_parts. induction texts as [|t texts IH]; [reflexivity|].
  rewrite fmap_cons, filter_cons. simpl flat_map at 2. rewrite <- IH, <- (split_strip t).
  destruct (decide (strip t <> "")) as [Hne|He]; [reflexivity|].
  destruct (decide (strip t = "")) as [->|]; [reflexivity|contradiction].
Qed.

Lemma length_flat_map {A B} (f : A -> list B) (l : list A) :
  length (flat_map f l) = sum_list ((fun x => length (f x)) <$> l).
Proof. induction l as [|x l IH]; simpl; [|rewrite length_app, IH]; reflexivity. Qed.

Lemma stripped_parts_nil (texts : list string) :
  stripped_parts texts = [] <-> Forall (fun t => strip t = "") texts.
Proof.
  unfold stripped_parts. induction texts as [|t texts IH]; [split; [constructor|reflexivity]|].
  rewrite fmap_cons, filter_cons. destruct (decide (strip t <> "")) as [Hne|He].
  - split; [discriminate|]. intros H. apply Forall_cons in H as [H _]. contradiction.
  - rewrite IH. split.
    + intros H. constructor; [|exact H]. destruct (decide (strip t = "")); [assumption|contradiction].
    + intros H. apply Forall_cons in H as [_ H]. exact H.
Qed.

Lemma stripped_parts_nonempty (texts : list string) :
  Forall (fun t => t <> "") (stripped_parts texts).
Proof.
  unfold stripped_parts. apply Forall_forall. intros t Ht.
  apply list_elem_of_filter in Ht as [Ht _]. exact Ht.
Qed.

Lemma join_empty (sep : string) (parts : list string) :
  Forall (fun t => t <> "") parts -> join sep parts = "" -> parts = [].
Proof.
  destruct 1 as [|p rest Hp _]; [reflexivity|]. intros E. exfalso. apply Hp.
  destruct rest; [exact E|].
  change (join sep (p :: s :: rest)) with (p +:+ sep +:+ join sep (s :: rest)) in E.
  destruct p; [reflexivity|discriminate].
Qed.

Lemma extract_text_words (doc : Docx) :
  split (_extract_text doc)
  = flat_map split ((paragraph_text <$> paragraphs doc) ++ concat (concat (tables doc))).
Proof.
  unfold _extract_text. cbv zeta.
  rewrite split_join, !flat_map_app, !split_stripped_parts. reflexivity.
Qed.

Lemma extract_text_word_count (doc : Docx) :
  word_count (_extract_text doc)
  = sum_list (word_count <$> (paragraph_text <$> paragraphs doc)
                             ++ concat (concat (tables doc))).
Proof. unfold word_count at 1. rewrite extract_text_words. apply length_flat_map. Qed.

(** X18.  The words of the extracted text are the words of the paragraphs
    followed by the words of the table cells: stripping, leaving out the
    blank parts and joining by line breaks neither adds, removes, merges nor
    splits a word.  So the word count of the text is the sum of the word
    counts of the paragraphs and cells, and the text is empty exactly when
    every paragraph and cell is blank. *)
Theorem X18_extracted_words (doc : Docx) :
  let texts := (paragraph_text <$> paragraphs doc) ++ concat (concat (tables doc)) in
  split (_extract_text doc) = flat_map split texts /\
  word_count (_extract_text doc) = sum_list (word_count <$> texts) /\
  (_extract_text doc = "" <-> Forall (fun t => strip t = "") texts).
Proof.
  cbv zeta. split; [apply extract_text_words|]. split; [apply extract_text_word_count|].
  - unfold _extract_text. cbv zeta. rewrite Forall_app. rewrite <- !stripped_parts_nil.
    split.
    + intros E. apply join_empty in E; [|apply Forall_app; split; apply stripped_parts_nonempty].
      apply app_eq_nil in E. exact E.
    + intros [-> ->]. reflexivity.
Qed.

Lemma rep_mono {A B} (cc : cclass) (lo : nat) (hi : option nat) (prev : option ascii)
    (s : list ascii) (k : option ascii -> list ascii -> option A)
    (k' : option ascii -> list ascii -> option B) :
  (forall p t, is_Some (k p t) -> is_Some (k' p t)) ->
  is_Some (rep cc lo hi prev s k) -> is_Some (rep cc lo hi prev s k').
Proof.
  intros Hk. revert lo hi prev. induction s as [|c s IH]; intros lo hi prev; simpl.
  - destruct lo; [apply Hk|intros [? ?]; discriminate].
  - destruct (negb (exhausted hi) && cmatch cc c).
    + specialize (IH (pred lo) (pred <$> hi) (Some c)).
      destruct (rep cc (pred lo) (pred <$> hi) (Some c) s k) as [a|].
      * intros _. destruct IH as [b ->]; eauto.
      * intros H. destruct (rep cc (pred lo) (pred <$> hi) (Some c) s k'); [eauto|].
        destruct lo; [apply Hk; exact H|destruct H; discriminate].
    + destruct lo; [apply Hk|intros [? ?]; discriminate].
Qed.

(** A text that starts with a clause number starts with a section number. *)
Lemma clause_number_is_section_number (text number : string) :
  re_match_group "^\d+\.\d+" text = Some number -> re_match "^\d+\." text = true.
Proof.
  unfold re_match_group, re_match.
  change (compile "^\d+\.\d+")
    with (Some (RSeq RBol (RSeq (RClass CDigit 1 None)
                  (RSeq (RClass (CChar ".") 1 (Some 1))
                     (RSeq (RClass CDigit 1 None) REps))))).
  change (compile "^\d+\.")
    with (Some (RSeq RBol (RSeq (RClass CDigit 1 None)
                  (RSeq (RClass (CChar ".") 1 (Some 1)) REps)))).
  cbv beta iota. intros E. apply bool_decide_eq_true.
  assert (H : is_Some (match_here
             (RSeq RBol (RSeq (RClass CDigit 1 None)
                (RSeq (RClass (CChar ".") 1 (Some 1))
                   (RSeq (RClass CDigit 1 None) REps)))) None (chars text))).
  { revert E. destruct (match_here _ None (chars text)); [eauto|discriminate]. }
  clear E. unfold match_here in *. cbn [run] in *.
  match goal with
  | |- is_Some (match ?x with _ => _ end) =>
      assert (Hx : is_Some x); [|destruct Hx as [? ->]; eauto]
  end.
  match type of H with
  | is_Some (match ?x with _ => _ end) =>
      assert (Hx : is_Some x); [destruct x; [eauto|destruct H; discriminate]|]
  end.
  clear H. revert Hx. apply rep_mono. intros p t. apply rep_mono. intros p' t' _. eauto.
Qed.

Lemma enumerate_lookup {A} (k i : nat) (x : A) (l : list A) :
  (i, x) ∈ enumerate k l -> k <= i /\ l !! (i - k) = Some x.
Proof.
  revert k. induction l as [|y l IH]; intros k H; simpl in H; [inversion H|].
  apply elem_of_cons in H as [[= -> ->]|H].
  - split; [lia|]. rewrite Nat.sub_diag. reflexivity.
  - apply IH in H as [Hle Hl]. split; [lia|].
    replace (i - k) with (S (i - S k)) by lia. exact Hl.
Qed.

Lemma scanned_spec (doc : Docx) (i : nat) (p : Paragraph) (t : string) :
  (i, p, t) ∈ scanned doc ->
  paragraphs doc !! i = Some p /\ t = strip (paragraph_text p) /\ t <> "".
Proof.
  unfold scanned. intros H.
  apply list_elem_of_In, in_flat_map in H as ([j q] & Hin & H).
  apply list_elem_of_In, enumerate_lookup in Hin as [_ Hl]. rewrite Nat.sub_0_r in Hl.
  cbv zeta in H. destruct (decide (strip (paragraph_text q) = "")) as [|Hne]; [inversion H|].
  destruct H as [[= <- <- <-]|[]]. auto.
Qed.

Lemma sections_have_text (doc : Docx) :
  Forall has_text (sc_sections (_extract_structured_content doc)).
Proof.
  simpl. apply Forall_flat_map, Forall_forall. intros [[i p] t] _.
  destruct (_ || _); repeat constructor. exists t. reflexivity.
Qed.

(** X19.  Every entry of the structured content comes from a paragraph of
    the document: its index is the index of a paragraph that is not blank
    and its text is the stripped text of that paragraph.  Every paragraph
    entered as a clause is also entered as a section, every section entry
    holds a string under the key 'text', and there is one table entry per
    table. *)
Theorem X19_structured_entries (doc : Docx) :
  let sc := _extract_structured_content doc in
  Forall (fun e => exists i p,
            paragraphs doc !! i = Some p /\ strip (paragraph_text p) <> "" /\
            e = section_entry i (strip (paragraph_text p)))
         (sc_sections sc) /\
  Forall (fun e => exists i p number,
            paragraphs doc !! i = Some p /\
            e = clause_entry i (strip (paragraph_text p)) number /\
            section_entry i (strip (paragraph_text p)) ∈ sc_sections sc)
         (sc_clauses sc) /\
  Forall (fun e => exists i p,
            paragraphs doc !! i = Some p /\ strip (paragraph_text p) <> "" /\
            e = signature_entry i (strip (paragraph_text p)))
         (sc_signatures sc) /\
  Forall has_text (sc_sections sc) /\
  length (sc_tables sc) = length (tables doc).
Proof.
  cbv zeta. split; [|split; [|split; [|split]]].
  - simpl. apply Forall_flat_map, Forall_forall. intros [[i p] t] H.
    apply scanned_spec in H as (Hl & -> & Hne).
    destruct (_ || _); repeat constructor. eauto.
  - simpl. apply Forall_flat_map, Forall_forall. intros [[i p] t] H.
    destruct (re_match_group "^\d+\.\d+" t) as [number|] eqn:E; repeat constructor.
    pose proof (scanned_spec _ _ _ _ H) as (Hl & Ht & Hne).
    exists i, p, number. split; [exact Hl|]. rewrite <- Ht. split; [reflexivity|].
    apply list_elem_of_In, in_flat_map. exists (i, p, t).
    split; [apply list_elem_of_In; exact H|].
    rewrite (clause_number_is_section_number t number E). left. reflexivity.
  - simpl. apply Forall_flat_map, Forall_forall. intros [[i p] t] H.
    apply scanned_spec in H as (Hl & -> & Hne).
    destruct (re_search _ _); repeat constructor. eauto.
  - apply sections_have_text.
  - simpl. apply length_fmap.
Qed.

Lemma formatting_ok (text : string) (sc : StructuredContent) (ty : DocumentType) :
  Forall has_text (sc_sections sc) -> exists l, _check_formatting text sc ty = Ok l.
Proof.
  intros H. unfold _check_formatting. cbv zeta.
  destruct (sc_sections sc) as [|s0 rest]; [simpl; eauto|].
  apply numbered_sections_ok in H as [l ->]. simpl. eauto.
Qed.

(** X20.  The checks never fail on a parsed document: on the text, the
    type and the structured content that [parse_document] returns,
    [check_compliance] returns its issues, so that, when the two advisory
    calls return, the analysis holds the issues of the three sources
    without duplicates, the confidence of the classifier, the score of
    those issues, and as word count the number of words of the paragraphs
    and table cells. *)
Theorem X20_parsed_documents_pass_the_checks (filename : string) (doc : Docx)
    (rag flags : list DocumentIssue) :
  let parsed := parse_document filename doc in
  let analysis := _analyze_single_document (Ok rag) (Ok flags) parsed in
  exists issues,
    check_compliance (pd_text_content parsed) (pd_document_type parsed)
      (pd_structured_content parsed) = Ok issues /\
    da_issues analysis = _deduplicate_issues (issues ++ rag ++ flags) /\
    da_confidence analysis = pd_type_confidence parsed /\
    da_compliance_score analysis
    = _calculate_compliance_score (da_issues analysis) (da_word_count analysis) /\
    da_word_count analysis
    = sum_list (word_count <$> (paragraph_text <$> paragraphs doc)
                               ++ concat (concat (tables doc))).
Proof.
  cbv zeta. unfold parse_document. cbv zeta.
  destruct (_identify_document_type _ _) as [ty confidence].
  destruct (formatting_ok (_extract_text doc) (_extract_structured_content doc) ty
              (sections_have_text doc)) as [l Hl].
  unfold _analyze_single_document. cbv zeta. cbn [pd_text_content pd_document_type
    pd_structured_content pd_filename pd_word_count pd_type_confidence].
  unfold check_compliance, run_checks. rewrite Hl. cbn [bind].
  eexists. split; [reflexivity|]. cbn [da_issues da_confidence da_compliance_score
    da_word_count].
  split; [reflexivity|]. split; [reflexivity|]. split; [reflexivity|].
  apply extract_text_word_count.
Qed.

End ParserExtras.

(** ** The analysis of a batch *)

Section BatchExtras.
Import PyStr ChecklistVerifier ProcessingEngine.
Local Open Scope Q_scope.

(** X21.  The analysis of a batch of parsed documents fails for no
    document and succeeds for every other batch, whatever the checks and
    the advisory calls do.  It then holds one analysis per document, in the
    order of the documents; the process is Company Incorporation with five
    required documents, or Other with none required and none missing; no
    more documents are missing than are required; the overall score lies
    between 0 and 100; and there are between one and ten recommendations. *)
Theorem X21_batch_analysis
    (rag_issues red_flags : ParsedDoc -> Result (list DocumentIssue))
    (parsed_documents : list ParsedDoc) :
  parsed_documents <> [] ->
  analyse_parsed_documents rag_issues red_flags [] = None /\
  exists pa,
    analyse_parsed_documents rag_issues red_flags parsed_documents = Some pa /\
    pa_documents_uploaded pa = length parsed_documents /\
    da_filename <$> pa_document_analyses pa = pd_filename <$> parsed_documents /\
    (pa_process_type pa = COMPANY_INCORPORATION /\ pa_required_documents pa = 5%nat \/
     pa_process_type pa = PROCESS_OTHER /\ pa_required_documents pa = 0%nat /\
     pa_missing_documents pa = []) /\
    (length (pa_missing_documents pa) <= pa_required_documents pa)%nat /\
    0 <= pa_overall_compliance_score pa /\ pa_overall_compliance_score pa <= 100 /\
    (1 <= length (pa_recommendations pa) <= 10)%nat.
Proof.
  intros Hne. split; [reflexivity|].
  destruct parsed_documents as [|d rest]; [congruence|].
  set (docs := d :: rest). unfold analyse_parsed_documents. fold docs.
  set (types := pd_document_type <$> docs).
  pose proof (identified_process_by_count types) as E. cbv zeta in E.
  assert (Hp : exists process c,
             identify_process_type types = Some (process, c) /\
             (process = COMPANY_INCORPORATION \/ process = PROCESS_OTHER)).
  { destruct (2 <=? _)%nat; eauto. }
  destruct Hp as (process & c & -> & Hproc). clear E.
  eexists. split; [reflexivity|]. cbn [pa_documents_uploaded pa_document_analyses
    pa_process_type pa_required_documents pa_missing_documents
    pa_overall_compliance_score pa_recommendations].
  destruct (report_fields types process) as (Hm & _ & Hr & _). cbv zeta in Hm, Hr.
  split; [reflexivity|]. split.
  { rewrite <- list_fmap_compose. apply list_fmap_ext. intros i x _. simpl.
    unfold _analyze_single_document. cbv zeta.
    destruct (ComplianceChecker.check_compliance _ _ _); simpl; [|reflexivity].
    destruct (rag_issues x); simpl; [|reflexivity].
    destruct (red_flags x); reflexivity. }
  split.
  { rewrite Hr, Hm. destruct Hproc as [-> | ->]; [left|right]; repeat split. }
  split.
  { rewrite Hr, Hm. apply length_filter. }
  assert (Hrange : 0 <= _calculate_overall_score
                          ((fun parsed_doc =>
                              _analyze_single_document (rag_issues parsed_doc)
                                (red_flags parsed_doc) parsed_doc) <$> docs) /\
                   _calculate_overall_score
                     ((fun parsed_doc =>
                         _analyze_single_document (rag_issues parsed_doc)
                           (red_flags parsed_doc) parsed_doc) <$> docs) <= 100).
  { apply overall_score_range. apply Forall_fmap, Forall_forall. intros x _.
    apply analysis_score_range. }
  split; [apply Hrange|]. split; [apply Hrange|].
  unfold _generate_process_recommendations.
  rewrite take_ge by apply collected_recommendations_length.
  apply collected_recommendations_length.
Qed.

(** X21 at a batch of one document. *)
Lemma X21_batch_analysis_witness :
  let d := {| pd_filename := "articles.docx"; pd_text_content := "Articles";
              pd_word_count := 1; pd_document_type := ARTICLES_OF_ASSOCIATION;
              pd_type_confidence := 1;
              pd_structured_content := mkStructured [] [] [] [] |} in
  analyse_parsed_documents (fun _ => Ok []) (fun _ => Ok []) [] = None /\
  exists pa,
    analyse_parsed_documents (fun _ => Ok []) (fun _ => Ok []) [d] = Some pa /\
    pa_documents_uploaded pa = length [d] /\
    da_filename <$> pa_document_analyses pa = pd_filename <$> [d] /\
    (pa_process_type pa = COMPANY_INCORPORATION /\ pa_required_documents pa = 5%nat \/
     pa_process_type pa = PROCESS_OTHER /\ pa_required_documents pa = 0%nat /\
     pa_missing_documents pa = []) /\
    (length (pa_missing_documents pa) <= pa_required_documents pa)%nat /\
    0 <= pa_overall_compliance_score pa /\ pa_overall_compliance_score pa <= 100 /\
    (1 <= length (pa_recommendations pa) <= 10)%nat.
Proof.
  cbv zeta. apply X21_batch_analysis. discriminate.
Defined.

End BatchExtras.

(** ** The figures of the report *)

Section ReportExtras.
Import PyStr ChecklistVerifier ProcessingEngine ReportGenerator.

Lemma severity_value_inj (s t : SeverityLevel) :
  severity_value s = severity_value t -> s = t.
Proof. destruct s, t; simpl; intros E; try reflexivity; discriminate. Qed.

Lemma count_fold_lookup (issues : list DocumentIssue) (counts : gmap string nat)
    (s : SeverityLevel) :
  default 0 (fold_left count_issue issues counts !! severity_value s)
  = default 0 (counts !! severity_value s)
    + length (filter (fun i => severity i = s) issues) /\
  (fold_left count_issue issues counts !! severity_value s = None <->
   counts !! severity_value s = None /\ filter (fun i => severity i = s) issues = []).
Proof.
  revert counts. induction issues as [|i issues IH]; intros counts.
  - simpl. split; [lia|]. tauto.
  - simpl fold_left. destruct (IH (count_issue counts i)) as [IH1 IH2].
    rewrite IH1, IH2. rewrite filter_cons. unfold count_issue. cbv zeta.
    destruct (decide (severity i = s)) as [<-|Hne].
    + rewrite lookup_insert_eq. simpl. split; [lia|].
      split; [intros [? _]; discriminate|intros [_ ?]; discriminate].
    + rewrite lookup_insert_ne
        by (intros E; apply severity_value_inj in E; congruence).
      split; [lia|tauto].
Qed.

Lemma count_fold_other (issues : list DocumentIssue) (counts : gmap string nat)
    (k : string) :
  (forall s, k <> severity_value s) ->
  fold_left count_issue issues counts !! k = counts !! k.
Proof.
  intros Hk. revert counts. induction issues as [|i issues IH]; intros counts;
    [reflexivity|].
  simpl fold_left. rewrite IH. unfold count_issue. cbv zeta. apply lookup_insert_ne. intros E. apply (Hk (severity i)).
  symmetry. exact E.
Qed.

Lemma by_severity_default (issues : list DocumentIssue) (s : SeverityLevel) :
  default 0 (_count_issues_by_severity issues !! severity_value s)
  = length (filter (fun i => severity i = s) issues).
Proof.
  unfold _count_issues_by_severity.
  destruct (count_fold_lookup issues ∅ s) as [H _]. rewrite H, lookup_empty. reflexivity.
Qed.

Lemma by_severity_lookup (issues : list DocumentIssue) (s : SeverityLevel) :
  _count_issues_by_severity issues !! severity_value s
  = if (length (filter (fun i => severity i = s) issues) =? 0)%nat
    then None
    else Some (length (filter (fun i => severity i = s) issues)).
Proof.
  pose proof (by_severity_default issues s) as Hd.
  unfold _count_issues_by_severity in *.
  destruct (count_fold_lookup issues ∅ s) as [_ Hn]. rewrite lookup_empty in Hn.
  destruct (fold_left count_issue issues ∅ !! severity_value s) as [n|]; simpl in Hd.
  - subst n. destruct (Nat.eqb_spec (length (filter (fun i => severity i = s) issues)) 0)
      as [E0|_]; [|reflexivity].
    apply length_zero_iff_nil in E0.
    assert (Hc : @None nat = None /\ filter (fun i => severity i = s) issues = [])
      by (split; [reflexivity|exact E0]).
    apply Hn in Hc. discriminate.
  - rewrite <- Hd. reflexivity.
Qed.

(** X22.  The counts of the issues summary: the total is the sum of the
    numbers of issues of the documents; the dictionary of counts by severity
    has, under the value of each severity, the number of issues of that
    severity, the key being absent when there is none, and no other key;
    the four counts add up to the total. *)
Theorem X22_report_counts (analysis : ProcessAnalysis) :
  let summary := _create_issues_summary analysis in
  let all_issues := flat_map da_issues (pa_document_analyses analysis) in
  let count := fun s => length (filter (fun i => severity i = s) all_issues) in
  total_issues summary
  = sum_list ((fun doc => length (da_issues doc)) <$> pa_document_analyses analysis) /\
  (forall s, by_severity summary !! severity_value s
             = if (count s =? 0)%nat then None else Some (count s)) /\
  (forall k, (forall s, k <> severity_value s) -> by_severity summary !! k = None) /\
  default 0 (by_severity summary !! "Critical") + default 0 (by_severity summary !! "High")
  + default 0 (by_severity summary !! "Medium") + default 0 (by_severity summary !! "Low")
  = total_issues summary.
Proof.
  cbv zeta. unfold _create_issues_summary. cbv zeta. cbn [total_issues by_severity].
  set (all_issues := flat_map da_issues (pa_document_analyses analysis)).
  split; [apply length_flat_map|]. split; [intros s; apply by_severity_lookup|]. split.
  - intros k Hk. unfold _count_issues_by_severity.
    rewrite count_fold_other by exact Hk. apply lookup_empty.
  - rewrite <- (count_severity_total all_issues).
    unfold DocumentAnnotator.count_severity.
    rewrite <- !by_severity_default. reflexivity.
Qed.

Local Open Scope Q_scope.

Lemma sum_scores_range (scores : list Q) (acc : Q) :
  Forall (fun x => 0 <= x /\ x <= 100) scores ->
  acc <= fold_left Qplus scores acc /\
  fold_left Qplus scores acc <= acc + 100 * inject_Z (Z.of_nat (length scores)).
Proof.
  intros H. revert acc. induction H as [|x l [H0 H1] _ IH]; intros acc.
  - simpl. change (inject_Z (Z.of_nat 0)) with 0. lra.
  - simpl fold_left. destruct (IH (acc + x)) as [I1 I2].
    simpl length. rewrite Nat2Z.inj_succ, <- Z.add_1_r, inject_Z_plus.
    change (inject_Z 1) with 1. lra.
Qed.

Lemma average_score_range (das : list DocumentAnalysis) :
  Forall (fun a => 0 <= da_compliance_score a /\ da_compliance_score a <= 100) das ->
  0 <= average_document_score
         (_calculate_compliance_metrics
            {| pa_process_type := PROCESS_OTHER; pa_documents_uploaded := 0;
               pa_required_documents := 0; pa_missing_documents := [];
               pa_document_analyses := das; pa_overall_compliance_score := 0;
               pa_recommendations := [] |}) <= 100.
Proof.
  intros Hall. simpl. destruct das as [|a rest]; [lra|].
  assert (Hs : Forall (fun x => 0 <= x /\ x <= 100) (da_compliance_score <$> a :: rest))
    by (apply Forall_fmap; exact Hall).
  destruct (sum_scores_range _ 0 Hs) as [H0 H1]. rewrite length_fmap in H1.
  assert (Hpos : 0 < inject_Z (Z.of_nat (length (a :: rest))))
    by (change 0 with (inject_Z 0); rewrite <- Zlt_Qlt; simpl length; lia).
  split.
  - apply Qle_shift_div_l; [exact Hpos|lra].
  - apply Qle_shift_div_r; [exact Hpos|lra].
Qed.

Lemma good_line_in_recommendations (completeness_info : Completeness)
    (document_analyses : list DocumentAnalysis) (process : ProcessType) :
  good_score_line ∈ collected_recommendations completeness_info document_analyses process
  <-> 80 <= _calculate_overall_score document_analyses.
Proof.
  unfold collected_recommendations. cbv zeta.
  set (score := _calculate_overall_score document_analyses).
  rewrite !elem_of_app.
  assert (N1 : ~ good_score_line ∈
                 (if is_complete completeness_info then []
                  else (DocumentAnnotator.pictograph "warning" +:+ " Missing "
                        +:+ of_nat (length (missing_documents completeness_info))
                        +:+ " required document(s) for " +:+ process_type_value process)
                       :: ((fun missing_doc =>
                              DocumentAnnotator.pictograph "page"
                              +:+ " Upload required document: " +:+ missing_doc)
                           <$> take 3 (missing_documents completeness_info)))).
  { destruct (is_complete completeness_info); [apply not_elem_of_nil|].
    intros H. apply elem_of_cons in H as [H|H]; [discriminate H|].
    apply list_elem_of_fmap in H as (m & H & _). discriminate H. }
  assert (N2 : ~ good_score_line ∈
                 match issues_of_severity document_analyses CRITICAL with
                 | [] => []
                 | _ => [DocumentAnnotator.pictograph "rotating_light" +:+ " Address "
                         +:+ of_nat (length (issues_of_severity document_analyses CRITICAL))
                         +:+ " critical compliance issue(s)"]
                 end).
  { destruct (issues_of_severity document_analyses CRITICAL); [apply not_elem_of_nil|].
    intros H. apply list_elem_of_singleton in H. discriminate H. }
  assert (N3 : ~ good_score_line ∈
                 match issues_of_severity document_analyses HIGH with
                 | [] => []
                 | _ => [DocumentAnnotator.pictograph "red_circle" +:+ " Review "
                         +:+ of_nat (length (issues_of_severity document_analyses HIGH))
                         +:+ " high-priority issue(s)"]
                 end).
  { destruct (issues_of_severity document_analyses HIGH); [apply not_elem_of_nil|].
    intros H. apply list_elem_of_singleton in H. discriminate H. }
  assert (N4 : ~ good_score_line ∈
                 (if decide (process = COMPANY_INCORPORATION)
                  then [ DocumentAnnotator.pictograph "classical_building" +:+
                         " Ensure all incorporation documents are properly executed";
                         DocumentAnnotator.pictograph "memo" +:+
                         " Verify company name availability with ADGM Registration Authority";
                         DocumentAnnotator.pictograph "office" +:+
                         " Confirm registered office address is within ADGM jurisdiction" ]
                  else [])).
  { destruct (decide (process = COMPANY_INCORPORATION)); [|apply not_elem_of_nil].
    rewrite !elem_of_cons, elem_of_nil. intros [H|[H|[H|[]]]]; discriminate H. }
  destruct (Qlt_le_dec score 60) as [H60|H60].
  - split; [|intros H; lra].
    intros [H|[H|[H|[H|H]]]]; try tauto.
    apply list_elem_of_singleton in H. discriminate H.
  - destruct (Qlt_le_dec score 80) as [H80|H80].
    + split; [|intros H; lra].
      intros [H|[H|[H|[H|H]]]]; try tauto.
      apply list_elem_of_singleton in H. discriminate H.
    + split; [intros _; exact H80|]. intros _. right. right. right. left.
      apply list_elem_of_singleton. reflexivity.
Qed.

(** What a successful analysis of a batch holds. *)
Lemma analysis_shape (rag_issues red_flags : ParsedDoc -> Result (list DocumentIssue))
    (parsed_documents : list ParsedDoc) (pa : ProcessAnalysis) :
  analyse_parsed_documents rag_issues red_flags parsed_documents = Some pa ->
  exists process c,
    identify_process_type (pd_document_type <$> parsed_documents) = Some (process, c) /\
    pa = (let types := pd_document_type <$> parsed_documents in
          let completeness_info := verify_document_completeness types process in
          let document_analyses :=
            (fun parsed_doc =>
               _analyze_single_document (rag_issues parsed_doc) (red_flags parsed_doc)
                                        parsed_doc) <$> parsed_documents in
          {| pa_process_type := process;
             pa_documents_uploaded := length parsed_documents;
             pa_required_documents := total_required completeness_info;
             pa_missing_documents := missing_documents completeness_info;
             pa_document_analyses := document_analyses;
             pa_overall_compliance_score := _calculate_overall_score document_analyses;
             pa_recommendations :=
               _generate_process_recommendations completeness_info document_analyses
                                                 process |}).
Proof.
  unfold analyse_parsed_documents.
  destruct parsed_documents as [|d rest]; [discriminate|].
  destruct (identify_process_type _) as [[process c]|]; [|discriminate].
  intros [= <-]. exists process, c. split; reflexivity.
Qed.

(** X23.  The figures of the report agree with the engine.  For the
    analysis of a batch, the completeness percentage that the report
    computes from the numbers of required and missing documents is the
    percentage of the completeness report; the average document score lies
    between 0 and 100; the score class is "good" exactly when the
    recommendations hold the line for a good score, and "poor" exactly when
    the overall score is below 60. *)
Theorem X23_report_agrees_with_engine
    (rag_issues red_flags : ParsedDoc -> Result (list DocumentIssue))
    (parsed_documents : list ParsedDoc) (pa : ProcessAnalysis) :
  analyse_parsed_documents rag_issues red_flags parsed_documents = Some pa ->
  let metrics := _calculate_compliance_metrics pa in
  ReportGenerator.completeness_percentage metrics
  = ChecklistVerifier.completeness_percentage
      (verify_document_completeness (pd_document_type <$> parsed_documents)
                                    (pa_process_type pa)) /\
  0 <= average_document_score metrics /\ average_document_score metrics <= 100 /\
  (_get_score_class (overall_score metrics) = "good"
   <-> good_score_line ∈ pa_recommendations pa) /\
  (_get_score_class (overall_score metrics) = "poor"
   <-> overall_score metrics < 60).
Proof.
  intros E. apply analysis_shape in E as (process & c & _ & ->). cbv zeta.
  set (types := pd_document_type <$> parsed_documents).
  set (das := (fun parsed_doc => _analyze_single_document (rag_issues parsed_doc)
                                   (red_flags parsed_doc) parsed_doc)
              <$> parsed_documents).
  assert (Hall : Forall (fun a => 0 <= da_compliance_score a /\
                                  da_compliance_score a <= 100) das).
  { apply Forall_fmap, Forall_forall. intros x _. apply analysis_score_range. }
  clearbody das.
  split; [|split; [|split; [|split]]].
  - unfold _calculate_compliance_metrics.
    cbn [pa_process_type pa_required_documents pa_missing_documents
         ReportGenerator.completeness_percentage].
    destruct (report_fields types process) as (Hm & Hp & Hr & Htp & Hc).
    cbv zeta in Hm, Hp, Hr, Htp, Hc. rewrite Hc, Hr, Hm, Hp.
    set (required := dict_get ADGM_PROCESS_REQUIREMENTS (process_type_value process)).
    set (names := doc_type_value <$> types).
    destruct (0 <? length required)%nat; [|reflexivity].
    pose proof (filter_split_length (fun r => is_present names r = true) required) as Hs.
    cbv beta in Hs. rewrite (missing_as_complement names required).
    replace (Z.of_nat (length required)
             - Z.of_nat (length (filter (fun r => ~ is_present names r = true) required)))%Z
      with (Z.of_nat (length (filter (fun r => is_present names r = true) required)))
      by lia.
    reflexivity.
  - exact (proj1 (average_score_range das Hall)).
  - exact (proj2 (average_score_range das Hall)).
  - cbn [pa_recommendations pa_overall_compliance_score overall_score
         _calculate_compliance_metrics].
    unfold _generate_process_recommendations.
    rewrite take_ge by apply collected_recommendations_length.
    rewrite good_line_in_recommendations. unfold _get_score_class.
    destruct (Qle_bool 80 (_calculate_overall_score das)) eqn:E80.
    + apply Qle_bool_iff in E80. split; [intros _; exact E80|reflexivity].
    + assert (Hn : ~ 80 <= _calculate_overall_score das)
        by (intros H; apply Qle_bool_iff in H; congruence).
      destruct (Qle_bool 60 _); (split; [discriminate|intros H; contradiction]).
  - cbn [pa_overall_compliance_score overall_score _calculate_compliance_metrics].
    unfold _get_score_class.
    destruct (Qle_bool 80 (_calculate_overall_score das)) eqn:E80.
    + apply Qle_bool_iff in E80. split; [discriminate|lra].
    + destruct (Qle_bool 60 (_calculate_overall_score das)) eqn:E60.
      * apply Qle_bool_iff in E60. split; [discriminate|lra].
      * split; [intros _|reflexivity]. apply Qnot_le_lt. intros H.
        apply Qle_bool_iff in H. congruence.
Qed.

(** X23 at a batch of one document. *)
Lemma X23_report_agrees_with_engine_witness :
  let d := {| pd_filename := "articles.docx"; pd_text_content := "Articles";
              pd_word_count := 1; pd_document_type := ARTICLES_OF_ASSOCIATION;
              pd_type_confidence := 1;
              pd_structured_content := mkStructured [] [] [] [] |} in
  let pa := default (mkProcessAnalysis PROCESS_OTHER 0 0 [] [] 0 [])
              (analyse_parsed_documents (fun _ => Ok []) (fun _ => Ok []) [d]) in
  let metrics := _calculate_compliance_metrics pa in
  ReportGenerator.completeness_percentage metrics
  = ChecklistVerifier.completeness_percentage
      (verify_document_completeness (pd_document_type <$> [d]) (pa_process_type pa)) /\
  0 <= average_document_score metrics /\ average_document_score metrics <= 100 /\
  (_get_score_class (overall_score metrics) = "good"
   <-> good_score_line ∈ pa_recommendations pa) /\
  (_get_score_class (overall_score metrics) = "poor"
   <-> overall_score metrics < 60).
Proof.
  cbv zeta.
  apply (X23_report_agrees_with_engine (fun _ => Ok []) (fun _ => Ok [])).
  vm_compute. reflexivity.
Defined.

End ReportExtras.
